(** * WhatsApp bot: outbound pipeline

    A shallow embedding of the outbound half of the bot:
    - [src/server2.ts]: [sanitizeMessage], [validateMessageData] and the
      queue consumer callback of [consumeMessages];
    - [src/bas64.handler.ts]: [parseBase64Image], [isValidBase64],
      [getExtensionFromMimetype] and [sendWhatsAppMessage].

    JavaScript strings are sequences of UTF-16 code units, so they are
    modelled as [list N].  The chat transport, [fetch], the clock and
    [JSON.parse] are external: they are fields of a [Runtime] record over
    an abstract world, and the code is written in a small state and
    exception monad that also keeps a trace of the calls it makes. *)

From Stdlib Require Import NArith List String Ascii Bool Lia DecimalString.
From Stdlib Require Import ZArith Zify.
Import ListNotations.

Open Scope N_scope.
Open Scope list_scope.

(** ** JavaScript strings *)

Module JS.

Definition jsstring := list N.

(** An ASCII literal as code units. *)
Definition js (s : string) : jsstring :=
  map N_of_ascii (list_ascii_of_string s).

Definition between (lo hi c : N) : bool := (lo <=? c) && (c <=? hi).

Fixpoint str_eqb (a b : jsstring) : bool :=
  match a, b with
  | [], [] => true
  | x :: a', y :: b' => (x =? y) && str_eqb a' b'
  | _, _ => false
  end.

Fixpoint startsWith (p s : jsstring) : bool :=
  match p, s with
  | [], _ => true
  | x :: p', y :: s' => (x =? y) && startsWith p' s'
  | _ :: _, [] => false
  end.

(** [s.includes(p)] *)
Fixpoint includes (p s : jsstring) : bool :=
  startsWith p s ||
  match s with
  | [] => false
  | _ :: s' => includes p s'
  end.

Definition endsWith (p s : jsstring) : bool :=
  startsWith (rev p) (rev s).

(** [s.split(sep)] for a one-unit separator; the empty string splits to
    the one-element array holding the empty string. *)
Fixpoint split (sep : N) (s : jsstring) : list jsstring :=
  match s with
  | [] => [[]]
  | c :: s' =>
      if c =? sep then [] :: split sep s'
      else match split sep s' with
           | [] => [[c]]
           | p :: ps => (c :: p) :: ps
           end
  end.

(** [arr.pop()], [None] standing for [undefined]. *)
Definition pop (l : list jsstring) : option jsstring :=
  match rev l with
  | [] => None
  | x :: _ => Some x
  end.

Definition count_unit (c : N) (s : jsstring) : nat :=
  List.length (filter (N.eqb c) s).

(** White space and line terminators, the units [String.prototype.trim]
    strips. *)
Definition isWhiteSpace (c : N) : bool :=
  between 9 13 c || (c =? 32) || (c =? 160) || (c =? 5760) ||
  between 8192 8202 c || (c =? 8232) || (c =? 8233) || (c =? 8239) ||
  (c =? 8287) || (c =? 12288) || (c =? 65279).

Fixpoint dropWhile (p : N -> bool) (s : jsstring) : jsstring :=
  match s with
  | [] => []
  | c :: s' => if p c then dropWhile p s' else s
  end.

Fixpoint takeWhile (p : N -> bool) (s : jsstring) : jsstring :=
  match s with
  | [] => []
  | c :: s' => if p c then c :: takeWhile p s' else []
  end.

Definition trimStart (s : jsstring) : jsstring := dropWhile isWhiteSpace s.

Fixpoint trimEnd (s : jsstring) : jsstring :=
  match s with
  | [] => []
  | c :: s' =>
      match trimEnd s' with
      | [] => if isWhiteSpace c then [] else [c]
      | t => c :: t
      end
  end.

Definition trim (s : jsstring) : jsstring := trimEnd (trimStart s).

(** [s.replace(/[class]/g, "")] for a class of single code units. *)
Definition removeAll (cls : N -> bool) (s : jsstring) : jsstring :=
  filter (fun c => negb (cls c)) s.

(** [s.toLowerCase()].  The only code units whose lower case is made of
    ASCII units alone are [A]-[Z] and the Kelvin sign U+212A; the lower
    case of any other unit outside ASCII keeps a unit outside ASCII, so
    leaving those as they are cannot change whether the result equals an
    ASCII key. *)
Definition lowerUnit (c : N) : N :=
  if between 65 90 c then c + 32
  else if c =? 8490 then 107
  else c.

Definition toLowerCase (s : jsstring) : jsstring := map lowerUnit s.

(** Decimal rendering of a non-negative integer, as in a template
    literal. *)
Definition decimal (n : N) : jsstring :=
  js (NilEmpty.string_of_uint (N.to_uint n)).

(** Truthiness of an optional string ([undefined] and [""] are falsy). *)
Definition truthy (o : option jsstring) : bool :=
  match o with
  | Some (_ :: _) => true
  | _ => false
  end.

(** [a || b] where [b] is a string. *)
Definition orElse (a : option jsstring) (b : jsstring) : jsstring :=
  match a with
  | Some (c :: s) => c :: s
  | _ => b
  end.

(** [a || b] where [b] may itself be [undefined]. *)
Definition orOpt (a b : option jsstring) : option jsstring :=
  if truthy a then a else b.

End JS.

Import JS.

(** ** Sanitizer ([src/server2.ts]) *)

(** The class [[\u0000-\u0008\u000B\u000C\u000E-\u001F\u007F-\u009F]]. *)
Definition isControl (c : N) : bool :=
  between 0 8 c || (c =? 11) || (c =? 12) || between 14 31 c ||
  between 127 159 c.

(** The class [/\uFEFF/]: the byte-order mark U+FEFF. *)
Definition isBOM (c : N) : bool := c =? 65279.

(** [sanitizeMessage]; [None] is an argument that is [undefined] or not a
    string. *)
Definition sanitizeMessage (message : option jsstring) : jsstring :=
  match message with
  | None => []
  | Some [] => []
  | Some s => trim (removeAll isBOM (removeAll isControl s))
  end.

(** ** Base64 ([src/bas64.handler.ts]) *)

Module Base64.

(** The class [[A-Za-z0-9+/]]. *)
Definition isAlphabet (c : N) : bool :=
  between 65 90 c || between 97 122 c || between 48 57 c ||
  (c =? 43) || (c =? 47).

(** [/^[A-Za-z0-9+/]*={0,2}$/.test(str)]: the star is greedy and the class
    excludes [=], so what follows the longest alphabet prefix must be at
    most two [=] and then the end of the input. *)
Definition base64Regex_test (str : jsstring) : bool :=
  match dropWhile isAlphabet str with
  | [] => true
  | [61] => true
  | [61; 61] => true
  | _ => false
  end.

(** The runtime's lenient decoder, [Buffer.from(str, "base64")]: units
    outside the alphabet (which here also has the URL-safe [-] and [_])
    are skipped, decoding stops at the first [=], and a trailing group
    of one sextet yields no byte. *)
Definition unbase64 (c : N) : option N :=
  if between 65 90 c then Some (c - 65)
  else if between 97 122 c then Some (c - 71)
  else if between 48 57 c then Some (c + 4)
  else if (c =? 43) || (c =? 45) then Some 62
  else if (c =? 47) || (c =? 95) then Some 63
  else None.

Fixpoint sextets (s : jsstring) : list N :=
  match s with
  | [] => []
  | c :: s' =>
      if c =? 61 then []
      else match unbase64 c with
           | Some v => v :: sextets s'
           | None => sextets s'
           end
  end.

Fixpoint pack (l : list N) : list N :=
  match l with
  | a :: b :: c :: d :: r =>
      (a * 4 + b / 16) :: ((b mod 16) * 16 + c / 4) :: ((c mod 4) * 64 + d)
      :: pack r
  | [a; b; c] => [a * 4 + b / 16; (b mod 16) * 16 + c / 4]
  | [a; b] => [a * 4 + b / 16]
  | _ => []
  end.

Definition decode (s : jsstring) : list N := pack (sextets s).

(** [Buffer.from(bytes).toString("base64")]. *)
Definition digit (v : N) : N :=
  if v <? 26 then v + 65
  else if v <? 52 then v + 71
  else if v <? 62 then v - 4
  else if v =? 62 then 43
  else 47.

Fixpoint encode (bs : list N) : jsstring :=
  match bs with
  | a :: b :: c :: r =>
      digit (a / 4) :: digit ((a mod 4) * 16 + b / 16)
      :: digit ((b mod 16) * 4 + c / 64) :: digit (c mod 64) :: encode r
  | [a; b] =>
      [digit (a / 4); digit ((a mod 4) * 16 + b / 16);
       digit ((b mod 16) * 4); 61]
  | [a] => [digit (a / 4); digit ((a mod 4) * 16); 61; 61]
  | [] => []
  end.

End Base64.

Import Base64.

(** ** MIME table ([getExtensionFromMimetype]) *)

(** The object literal [mimetypeMap], in source order. *)
Definition mimetypeMap : list (jsstring * jsstring) :=
  [ (js "image/jpeg", js "jpg");
    (js "image/jpg", js "jpg");
    (js "image/png", js "png");
    (js "image/gif", js "gif");
    (js "image/webp", js "webp");
    (js "image/bmp", js "bmp");
    (js "image/svg+xml", js "svg");
    (js "image/tiff", js "tiff");
    (js "video/mp4", js "mp4");
    (js "video/avi", js "avi");
    (js "video/mov", js "mov");
    (js "audio/mp3", js "mp3");
    (js "audio/wav", js "wav");
    (js "audio/ogg", js "ogg");
    (js "application/pdf", js "pdf");
    (js "application/msword", js "doc");
    (js "application/vnd.openxmlformats-officedocument.wordprocessingml.document",
     js "docx") ].

(** An object literal inherits the members of [Object.prototype]; a
    bracket lookup that misses the own keys finds them. *)
Definition objectPrototype : list jsstring :=
  [ js "constructor"; js "__proto__"; js "hasOwnProperty";
    js "isPrototypeOf"; js "propertyIsEnumerable"; js "toString";
    js "toLocaleString"; js "valueOf"; js "__defineGetter__";
    js "__defineSetter__"; js "__lookupGetter__"; js "__lookupSetter__" ].

Fixpoint ownProperty (o : list (jsstring * jsstring)) (k : jsstring)
  : option jsstring :=
  match o with
  | [] => None
  | (k', v) :: o' => if str_eqb k' k then Some v else ownProperty o' k
  end.

(** The value of [mimetypeMap[k] || "bin"]: a string, or an inherited
    member (a function or the prototype object, all truthy). *)
Inductive Ext : Type :=
  | ExtString (s : jsstring)
  | ExtInherited (name : jsstring).

Definition getExtensionFromMimetype (mimetype : jsstring) : Ext :=
  let k := toLowerCase mimetype in
  match ownProperty mimetypeMap k with
  | Some v => ExtString (orElse (Some v) (js "bin"))
  | None =>
      if existsb (str_eqb k) objectPrototype then ExtInherited k
      else ExtString (js "bin")
  end.

(** How a template literal renders the extension. *)
Definition extToString (e : Ext) : jsstring :=
  match e with
  | ExtString s => s
  | ExtInherited name =>
      if str_eqb name (js "__proto__") then js "[object Object]"
      else if str_eqb name (js "constructor")
           then js "function Object() { [native code] }"
           else js "function " ++ name ++ js "() { [native code] }"
  end.

(** ** Data URL header *)

Definition notSemicolon (c : N) : bool := negb (c =? 59).

(** [/data:([^;]+);base64/] tried at the start of [s]: the capture is the
    whole run of units other than [;] after [data:], it must not be empty
    and [;base64] must follow it. *)
Definition matchHeaderAt (s : jsstring) : option jsstring :=
  if startsWith (js "data:") s then
    let rest := skipn 5 s in
    match takeWhile notSemicolon rest with
    | [] => None
    | run =>
        if startsWith (js ";base64") (dropWhile notSemicolon rest)
        then Some run else None
    end
  else None.

(** [header.match(/data:([^;]+);base64/)], giving capture group 1 of the
    leftmost match. *)
Fixpoint matchHeader (header : jsstring) : option jsstring :=
  match matchHeaderAt header with
  | Some m => Some m
  | None =>
      match header with
      | [] => None
      | _ :: h' => matchHeader h'
      end
  end.

(** The first half of [parseBase64Image]: the detected MIME type and
    [cleanBase64]. *)
Definition splitDataUrl (base64String : jsstring) : jsstring * jsstring :=
  if includes [44] base64String then
    match split 44 base64String with
    | [header; body] =>
        match matchHeader header with
        | Some m => (m, body)
        | None => (js "image/jpeg", body)
        end
    | _ => (js "image/jpeg", base64String)
    end
  else (js "image/jpeg", base64String).

Definition cleanBase64 (base64String : jsstring) : jsstring :=
  snd (splitDataUrl base64String).

Definition detectedMimetype (base64String : jsstring) : jsstring :=
  fst (splitDataUrl base64String).

(** ** Data model *)

(** The [options] object of a job. *)
Record Options : Type := {
  linkPreview : option bool;
  isViewOnce : option bool;
  sendAudioAsVoice : option bool
}.

(** The [to] field as [JSON.parse] can deliver it: absent, a string, an
    array of strings, or (outside the declared type) a number, [null], a
    boolean or an object. *)
Inductive ToField : Type :=
  | ToAbsent
  | ToStr (s : jsstring)
  | ToArr (l : list jsstring)
  | ToNum (n : N)
  | ToNull
  | ToBool (b : bool)
  | ToObject.

(** [interface WhatsAppMessage]; an absent field is [None]. *)
Record WhatsAppMessage : Type := {
  to : ToField;
  message : option jsstring;
  type : option jsstring;
  mediaUrl : option jsstring;
  base64Data : option jsstring;
  mimetype : option jsstring;
  filename : option jsstring;
  caption : option jsstring;
  options : option Options
}.

(** What [parseBase64Image] returns when it does not return [null]. *)
Record ParsedImage : Type := {
  p_mimetype : jsstring;
  p_data : jsstring;
  p_extension : Ext
}.

(** [new MessageMedia(mimetype, data, filename)]. *)
Record MessageMedia : Type := {
  m_mimetype : jsstring;
  m_data : jsstring;
  m_filename : jsstring
}.

Inductive Content : Type :=
  | TextContent (text : jsstring)
  | MediaContent (media : MessageMedia).

(** Third argument of [client.sendMessage]: [o_caption] is the [caption]
    key of [{caption, ...options}], absent when [options] is passed as it
    is. *)
Record SendOptions : Type := {
  o_caption : option jsstring;
  o_options : option Options
}.

(** One entry of [results]. *)
Record DeliveryResult : Type := {
  recipient : jsstring;
  success : bool;
  messageId : option jsstring;
  error : option jsstring
}.

(** Thrown values: an [Error] object (with its [name]) or anything else,
    kept as its [String(...)]. *)
Inductive Exn : Type :=
  | JsError (name msg : jsstring)
  | Thrown (text : jsstring).

(** [error instanceof Error ? error.message : String(error)] *)
Definition errorMessage (e : Exn) : jsstring :=
  match e with
  | JsError _ msg => msg
  | Thrown text => text
  end.

(** The rendering of a thrown value inside a template literal. *)
Definition exnToString (e : Exn) : jsstring :=
  match e with
  | JsError name [] => name
  | JsError [] msg => msg
  | JsError name msg => name ++ js ": " ++ msg
  | Thrown text => text
  end.

Definition newError (msg : jsstring) : Exn := JsError (js "Error") msg.
Definition typeError (msg : jsstring) : Exn := JsError (js "TypeError") msg.

(** What [fetch] resolves to; [arrayBuffer] may reject. *)
Record Response : Type := {
  ok : bool;
  status : N;
  statusText : jsstring;
  contentType : option jsstring;
  arrayBuffer : Exn + list N
}.

(** What [JSON.parse] returns: [null], or a value whose fields are read
    as a job (a number, string, boolean or array has none of them). *)
Inductive JsonValue : Type :=
  | JNull
  | JObject (messageData : WhatsAppMessage).

(** Calls that leave the process, in the order they are made. *)
Inductive Event : Type :=
  | EvDecode (str : jsstring)
  | EvSend (chatId : jsstring) (content : Content) (opts : SendOptions)
  | EvFetch (url : jsstring)
  | EvDelay (ms : N)
  | EvAck
  | EvNack (allUpTo requeue : bool).

(** The external collaborators, over an abstract world [W]. *)
Record Runtime (W : Type) : Type := {
  sendMessage : jsstring -> Content -> SendOptions -> W -> (Exn + jsstring) * W;
  fetch : jsstring -> W -> (Exn + Response) * W;
  dateNow : W -> N * W;
  clientInfo : W -> bool;
  JSON_parse : jsstring -> Exn + JsonValue
}.

Arguments sendMessage {W}.
Arguments fetch {W}.
Arguments dateNow {W}.
Arguments clientInfo {W}.
Arguments JSON_parse {W}.

(** Process state: the world, the trace, and whether the module-level
    [rabbitChannel] handle is set. *)
Record St (W : Type) : Type := {
  world : W;
  trace : list Event;
  rabbitChannel : bool
}.

Arguments world {W}.
Arguments trace {W}.
Arguments rabbitChannel {W}.
Arguments Build_St {W}.

(** ** State and exception monad *)

Module Monad.

Definition M (W A : Type) : Type := St W -> (Exn + A) * St W.

Definition ret {W A} (a : A) : M W A := fun st => (inr a, st).

Definition bind {W A B} (m : M W A) (k : A -> M W B) : M W B :=
  fun st =>
    match m st with
    | (inl e, st') => (inl e, st')
    | (inr a, st') => k a st'
    end.

Definition throw {W A} (e : Exn) : M W A := fun st => (inl e, st).

(** [try { m } catch (e) { h e }] *)
Definition try_catch {W A} (m : M W A) (h : Exn -> M W A) : M W A :=
  fun st =>
    match m st with
    | (inl e, st') => h e st'
    | (inr a, st') => (inr a, st')
    end.

Definition emit {W} (ev : Event) : M W unit :=
  fun st =>
    (inr tt, {| world := world st; trace := trace st ++ [ev];
                rabbitChannel := rabbitChannel st |}).

(** A call into the world that may throw. *)
Definition call {W A} (f : W -> (Exn + A) * W) : M W A :=
  fun st =>
    let (r, w') := f (world st) in
    (r, {| world := w'; trace := trace st; rabbitChannel := rabbitChannel st |}).

Definition read {W A} (f : W -> A) : M W A :=
  fun st => (inr (f (world st)), st).

End Monad.

Import Monad.

Notation "x <- m ;; k" := (bind m (fun x => k))
  (at level 61, m at next level, right associativity).
Notation "m ;;; k" := (bind m (fun _ => k))
  (at level 61, right associativity).

(** ** Dispatcher ([src/bas64.handler.ts]) *)

Section Dispatcher.

Context {W : Type} (rt : Runtime W).

(** [Buffer.from(str, "base64")], recorded in the trace. *)
Definition bufferFrom (str : jsstring) : M W (list N) :=
  emit (EvDecode str) ;;; ret (decode str).

Definition isValidBase64 (str : jsstring) : M W bool :=
  try_catch
    (if negb (base64Regex_test str) then ret false
     else bufferFrom str ;;; ret true)
    (fun _ => ret false).

Definition parseBase64Image (base64String : jsstring)
  : M W (option ParsedImage) :=
  try_catch
    (let (detected, clean) := splitDataUrl base64String in
     valid <- isValidBase64 clean ;;
     if negb valid then ret None
     else
       let extension := getExtensionFromMimetype detected in
       ret (Some {| p_mimetype := detected; p_data := clean;
                    p_extension := extension |}))
    (fun _ => ret None).

(** [recipient.includes("@c.us") ? recipient : `${recipient}@c.us`] *)
Definition phoneNumberOf (recipient : jsstring) : jsstring :=
  if includes (js "@c.us") recipient then recipient
  else recipient ++ js "@c.us".

(** [client.sendMessage(...)] followed by the read of
    [result.id._serialized]. *)
Definition clientSend (chatId : jsstring) (content : Content)
  (opts : SendOptions) : M W jsstring :=
  emit (EvSend chatId content opts) ;;;
  call (sendMessage rt chatId content opts).

(** The [if (caption) ... else ...] that ends both media branches. *)
Definition sendMedia (messageData : WhatsAppMessage) (phoneNumber : jsstring)
  (media : MessageMedia) (cap : jsstring) : M W jsstring :=
  match cap with
  | _ :: _ =>
      clientSend phoneNumber (MediaContent media)
        {| o_caption := Some cap; o_options := options messageData |}
  | [] =>
      clientSend phoneNumber (MediaContent media)
        {| o_caption := None; o_options := options messageData |}
  end.

Definition base64Branch (messageData : WhatsAppMessage) (b64 : jsstring)
  (phoneNumber : jsstring) : M W jsstring :=
  parsedImage <- parseBase64Image b64 ;;
  match parsedImage with
  | None => throw (newError (js "Failed to parse base64 image data"))
  | Some parsed =>
      try_catch
        (buffer <- bufferFrom (p_data parsed) ;;
         match buffer with
         | [] => throw (newError (js "Decoded image buffer is empty"))
         | _ :: _ => ret tt
         end)
        (fun decodeError =>
           throw (newError (js "Failed to decode base64 data: "
                            ++ exnToString decodeError))) ;;;
      name <- (if truthy (filename messageData)
               then ret (orElse (filename messageData) [])
               else
                 now <- call (fun w => let (n, w') := dateNow rt w in
                                       (inr n, w')) ;;
                 ret (js "image_" ++ decimal now ++ js "."
                      ++ extToString (p_extension parsed))) ;;
      let media :=
        {| m_mimetype := orElse (mimetype messageData) (p_mimetype parsed);
           m_data := p_data parsed;
           m_filename := name |} in
      let cap :=
        sanitizeMessage
          (Some (orElse (orOpt (caption messageData) (message messageData))
                        [])) in
      sendMedia messageData phoneNumber media cap
  end.

Definition mediaBranch (messageData : WhatsAppMessage) (url : jsstring)
  (phoneNumber : jsstring) : M W jsstring :=
  emit (EvFetch url) ;;;
  response <- call (fetch rt url) ;;
  if negb (ok response) then
    throw (newError (js "Failed to fetch media: " ++ decimal (status response)
                     ++ js " " ++ statusText response))
  else
    buffer <- (fun st => (arrayBuffer response, st)) ;;
    let base64 := encode buffer in
    let ctype := orElse (contentType response) (js "application/octet-stream") in
    let name :=
      orElse (orOpt (filename messageData) (pop (split 47 url))) (js "media") in
    let media :=
      {| m_mimetype := ctype; m_data := base64; m_filename := name |} in
    let cap := sanitizeMessage (Some (orElse (caption messageData) [])) in
    sendMedia messageData phoneNumber media cap.

Definition textBranch (messageData : WhatsAppMessage)
  (phoneNumber : jsstring) : M W jsstring :=
  match sanitizeMessage (message messageData) with
  | [] => throw (newError (js "Message is empty after sanitization"))
  | sanitizedMessage =>
      clientSend phoneNumber (TextContent sanitizedMessage)
        {| o_caption := None; o_options := options messageData |}
  end.

Definition typeIs (messageData : WhatsAppMessage) (tag : string) : bool :=
  match type messageData with
  | Some t => str_eqb t (js tag)
  | None => false
  end.

(** The [if / else if / else] over [messageData.type] and the payload
    field. *)
Definition deliver (messageData : WhatsAppMessage) (phoneNumber : jsstring)
  : M W jsstring :=
  if typeIs messageData "base64" && truthy (base64Data messageData) then
    base64Branch messageData (orElse (base64Data messageData) []) phoneNumber
  else if typeIs messageData "media" && truthy (mediaUrl messageData) then
    mediaBranch messageData (orElse (mediaUrl messageData) []) phoneNumber
  else textBranch messageData phoneNumber.

(** One turn of the [for ... of] loop: the inner [try]/[catch], which
    pushes one entry onto [results] on either path. *)
Definition iteration (messageData : WhatsAppMessage)
  (results : list DeliveryResult) (r : jsstring) : M W (list DeliveryResult) :=
  try_catch
    (let phoneNumber := phoneNumberOf r in
     id <- deliver messageData phoneNumber ;;
     let results' :=
       results ++ [ {| recipient := phoneNumber; success := true;
                       messageId := Some id; error := None |} ] in
     emit (EvDelay 1000) ;;;
     ret results')
    (fun e =>
       ret (results ++ [ {| recipient := r; success := false;
                            messageId := None;
                            error := Some (errorMessage e) |} ])).

Fixpoint forOf (messageData : WhatsAppMessage) (recipients : list jsstring)
  (results : list DeliveryResult) : M W (list DeliveryResult) :=
  match recipients with
  | [] => ret results
  | r :: rest =>
      results' <- iteration messageData results r ;;
      forOf messageData rest results'
  end.

(** [Array.isArray(to) ? to : to.split(",").map((r) => r.trim())]; on a
    value that is neither, [to.split] is not callable. *)
Definition recipientsOf (t : ToField) : Exn + list jsstring :=
  match t with
  | ToArr l => inr l
  | ToStr s => inr (map trim (split 44 s))
  | ToAbsent =>
      inl (typeError (js "Cannot read properties of undefined (reading 'split')"))
  | ToNull =>
      inl (typeError (js "Cannot read properties of null (reading 'split')"))
  | ToNum _ | ToBool _ | ToObject =>
      inl (typeError (js "messageData.to.split is not a function"))
  end.

Definition sendWhatsAppMessage (messageData : WhatsAppMessage)
  : M W (list DeliveryResult) :=
  try_catch
    (recipients <- (fun st => (recipientsOf (to messageData), st)) ;;
     forOf messageData recipients [])
    (fun e => throw e).

(** ** Queue consumer ([src/server2.ts]) *)

Definition toTruthy (t : ToField) : bool :=
  match t with
  | ToAbsent => false
  | ToStr s => truthy (Some s)
  | ToArr _ => true
  | ToNum n => negb (n =? 0)
  | ToNull => false
  | ToBool b => b
  | ToObject => true
  end.

Definition validateMessageData (messageData : WhatsAppMessage) : bool :=
  if negb (toTruthy (to messageData)) then false
  else if negb (truthy (message messageData))
          && negb (truthy (base64Data messageData))
          && negb (truthy (mediaUrl messageData))
  then false
  else true.

(** [rabbitChannel?.ack(msg)] and [rabbitChannel?.nack(msg, a, r)]. *)
Definition channelDo (ev : Event) : M W unit :=
  fun st => if rabbitChannel st then emit ev st else (inr tt, st).

(** The callback given to [rabbitChannel.consume]; [None] is the [null]
    message, [Some content] a delivery with that content. *)
Definition onMessage (msg : option jsstring) : M W unit :=
  match msg with
  | None => ret tt
  | Some content =>
      try_catch
        (parsed <- (fun st => (JSON_parse rt content, st)) ;;
         match parsed with
         | JNull =>
             (* validateMessageData reads [messageData.to] of [null] *)
             throw (typeError
                      (js "Cannot read properties of null (reading 'to')"))
         | JObject messageData =>
             if negb (validateMessageData messageData) then
               channelDo (EvNack false false)
             else
               ready <- read (clientInfo rt) ;;
               if negb ready then channelDo (EvNack false true)
               else
                 sendWhatsAppMessage messageData ;;;
                 channelDo EvAck
         end)
        (fun _ => channelDo (EvNack false false))
  end.

End Dispatcher.

(** ** Vocabulary of the statements *)

(** The C0 block, U+0000 to U+001F. *)
Definition isC0 (c : N) : bool := c <=? 31.

(** Appending events to the trace, and the events of one kind. *)
Definition addTrace {W} (evs : list Event) (st : St W) : St W :=
  {| world := world st; trace := trace st ++ evs;
     rabbitChannel := rabbitChannel st |}.

Definition isSend (ev : Event) : bool :=
  match ev with EvSend _ _ _ => true | _ => false end.

Definition isDecode (ev : Event) : bool :=
  match ev with EvDecode _ => true | _ => false end.

Definition sends {W} (st : St W) : list Event := filter isSend (trace st).

(** The descriptor [parseBase64Image] builds when the check passes. *)
Definition parsedOf (base64String : jsstring) : ParsedImage :=
  {| p_mimetype := detectedMimetype base64String;
     p_data := cleanBase64 base64String;
     p_extension := getExtensionFromMimetype (detectedMimetype base64String) |}.

(** The two shapes of an entry of [results]. *)
Definition sent (phoneNumber id : jsstring) : DeliveryResult :=
  {| recipient := phoneNumber; success := true; messageId := Some id;
     error := None |}.

Definition failed (r msg : jsstring) : DeliveryResult :=
  {| recipient := r; success := false; messageId := None; error := Some msg |}.

(** [e] is an entry for the listed recipient [r]: a success under the
    resolved address, or a failure under the address as listed. *)
Definition entryFor (r : jsstring) (e : DeliveryResult) : Prop :=
  (exists id, e = sent (phoneNumberOf r) id) \/ (exists msg, e = failed r msg).

(** The job of the end-to-end example: an encoded PNG, no caption, no
    body, any recipients and options. *)
Definition encodedPngJob (t : ToField) (o : option Options) : WhatsAppMessage :=
  {| to := t; message := None; type := Some (js "base64"); mediaUrl := None;
     base64Data := Some (js "data:image/png;base64,aGVsbG8=");
     mimetype := None; filename := None; caption := None; options := o |}.

Definition pngMedia (now : N) : MessageMedia :=
  {| m_mimetype := js "image/png"; m_data := js "aGVsbG8=";
     m_filename := js "image_" ++ decimal now ++ js ".png" |}.

(** A job tagged for a media mode whose payload field is absent or empty. *)
Definition tagWithoutPayload (m : WhatsAppMessage) : Prop :=
  (typeIs m "base64" = true /\ truthy (base64Data m) = false) \/
  (typeIs m "media" = true /\ truthy (mediaUrl m) = false).

(** A computation that leaves the [rabbitChannel] handle as it found it. *)
Definition keepsChannel {W A} (c : M W A) : Prop :=
  forall st, rabbitChannel (snd (c st)) = rabbitChannel st.

(** ** A concrete runtime *)

Module Demo.

(** The world counts the messages the transport has accepted.  The
    transport refuses chat ids that start with [bad]. *)
Definition demoSend (chatId : jsstring) (content : Content)
  (opts : SendOptions) (w : nat) : (Exn + jsstring) * nat :=
  if startsWith (js "bad") chatId
  then (inl (newError (js "invalid wid")), w)
  else (inr (js "msg" ++ decimal (N.of_nat w)), S w).

Definition demoFetch (url : jsstring) (w : nat) : (Exn + Response) * nat :=
  (inl (typeError (js "fetch failed")), w).

Definition demoNow (w : nat) : N * nat := (1700000000000 + N.of_nat w, w).

Definition job (t : ToField) (body : option jsstring) (ty : option jsstring)
  (b64 : option jsstring) : WhatsAppMessage :=
  {| to := t; message := body; type := ty; mediaUrl := None;
     base64Data := b64; mimetype := None; filename := None; caption := None;
     options := None |}.

(** The end-to-end text job of the specification. *)
Definition twoRecipients : WhatsAppMessage :=
  job (ToArr [js "15551230000"; js "bad"])
      (Some ([32; 32] ++ js "hi" ++ [0; 32])) None None.

Definition allRefused : WhatsAppMessage :=
  job (ToArr [js "bad1"; js "bad2"]) (Some (js "hi")) None None.

Definition numericTo : WhatsAppMessage :=
  job (ToNum 5) (Some (js "hi")) None None.

Definition noContent : WhatsAppMessage :=
  job (ToStr (js "15551230000")) None None None.

Definition emptyPayload : WhatsAppMessage :=
  job (ToStr (js "15551230000, 15551230001")) None (Some (js "base64"))
      (Some (js "=")).

Definition tagOnly : WhatsAppMessage :=
  job (ToArr [js "15551230000"]) (Some (js "hi")) (Some (js "base64")) None.

(** A table standing for [JSON.parse] on five message contents. *)
Definition demoParse (content : jsstring) : Exn + JsonValue :=
  if str_eqb content (js "null") then inr JNull
  else if str_eqb content (js "two") then inr (JObject twoRecipients)
  else if str_eqb content (js "refused") then inr (JObject allRefused)
  else if str_eqb content (js "numeric") then inr (JObject numericTo)
  else if str_eqb content (js "{}") then inr (JObject noContent)
  else inl (JsError (js "SyntaxError") (js "Unexpected token")).

Definition demo (ready : bool) : Runtime nat :=
  {| sendMessage := demoSend; fetch := demoFetch; dateNow := demoNow;
     clientInfo := fun _ => ready; JSON_parse := demoParse |}.

Definition st0 : St nat :=
  {| world := 0%nat; trace := []; rabbitChannel := true |}.

End Demo.

Import Demo.

(** ** Vocabulary of the further properties *)

Definition isDelay (ev : Event) : bool :=
  match ev with EvDelay _ => true | _ => false end.

Definition isFetch (ev : Event) : bool :=
  match ev with EvFetch _ => true | _ => false end.

Definition isVerdict (ev : Event) : bool :=
  match ev with EvAck | EvNack _ _ => true | _ => false end.

(** Events that reach neither the transport nor the broker. *)
Definition quiet (ev : Event) : bool :=
  match ev with EvDecode _ | EvFetch _ => true | _ => false end.

(** [l] is [m] with some elements left out, order kept. *)
Inductive Subseq {A : Type} : list A -> list A -> Prop :=
  | SubseqNil : Subseq [] []
  | SubseqSkip x l m : Subseq l m -> Subseq l (x :: m)
  | SubseqKeep x l m : Subseq l m -> Subseq (x :: l) (x :: m).

(** A text that the sanitizer leaves as it is and that is not empty. *)
Definition sanitized (s : jsstring) : Prop :=
  s <> [] /\ sanitizeMessage (Some s) = s.

(** What a transport call may carry: a sanitized text without caption
    key, or a media object whose caption, when present, is sanitized. *)
Definition wellFormedSend (content : Content) (opts : SendOptions) : Prop :=
  match content with
  | TextContent t => o_caption opts = None /\ sanitized t
  | MediaContent _ =>
      match o_caption opts with
      | None => True
      | Some c => sanitized c
      end
  end.

(** The events of one turn of the loop for the listed recipient [r],
    beside the entry it pushes: quiet events, then at most one transport
    call to the resolved address, followed by the delay exactly when the
    call succeeded. *)
Inductive Turn (o : option Options) (r : jsstring)
  : DeliveryResult -> list Event -> Prop :=
  | TurnQuiet pre msg :
      forallb quiet pre = true ->
      Turn o r (failed r msg) pre
  | TurnRefused pre content opts msg :
      forallb quiet pre = true ->
      wellFormedSend content opts -> o_options opts = o ->
      Turn o r (failed r msg) (pre ++ [EvSend (phoneNumberOf r) content opts])
  | TurnSent pre content opts id :
      forallb quiet pre = true ->
      wellFormedSend content opts -> o_options opts = o ->
      Turn o r (sent (phoneNumberOf r) id)
           (pre ++ [EvSend (phoneNumberOf r) content opts; EvDelay 1000]).

Inductive Turns (o : option Options)
  : list jsstring -> list DeliveryResult -> list Event -> Prop :=
  | TurnsNil : Turns o [] [] []
  | TurnsCons r rs e es evs evss :
      Turn o r e evs -> Turns o rs es evss ->
      Turns o (r :: rs) (e :: es) (evs ++ evss).

Definition chatIdOf (ev : Event) : jsstring :=
  match ev with EvSend chatId _ _ => chatId | _ => [] end.

(** [arr.join(sep)] for a one-unit separator. *)
Fixpoint join (sep : N) (l : list jsstring) : jsstring :=
  match l with
  | [] => []
  | [p] => p
  | p :: ps => p ++ sep :: join sep ps
  end.

(** What a delivery does to the trace: it throws after quiet events
    only, or it makes exactly one transport call, its last event, with a
    well-formed content. *)
Definition deliverShape (m : WhatsAppMessage) (phone : jsstring)
  (res : Exn + jsstring) (evs : list Event) : Prop :=
  ((exists e, res = inl e) /\ forallb quiet evs = true) \/
  (exists pre c o,
      evs = pre ++ [EvSend phone c o] /\ forallb quiet pre = true /\
      wellFormedSend c o /\ o_options o = options m).

(** The state with the world replaced. *)
Definition withWorld {W} (w : W) (st : St W) : St W :=
  {| world := w; trace := trace st; rabbitChannel := rabbitChannel st |}.

(** The media object and options of the remote-media branch, for a
    response [resp] whose body is [buffer]. *)
Definition remoteMedia (m : WhatsAppMessage) (url : jsstring)
  (resp : Response) (buffer : list N) : MessageMedia :=
  {| m_mimetype := orElse (contentType resp) (js "application/octet-stream");
     m_data := encode buffer;
     m_filename :=
       orElse (orOpt (filename m) (pop (split 47 url))) (js "media") |}.

Definition captionOpts (m : WhatsAppMessage) (cap : jsstring) : SendOptions :=
  {| o_caption := match cap with [] => None | c => Some c end;
     o_options := options m |}.

(** What the decoder needs of the encoder's digit for the sextet [v]. *)
Definition digitOk (v : N) : bool :=
  isAlphabet (digit v) && negb (digit v =? 61) &&
  match unbase64 (digit v) with
  | Some u => u =? v
  | None => false
  end.

Definition isByte (b : N) : Prop := b < 256.

(** A job that selects the remote-media mode with the reference [url]. *)
Definition remoteMode (m : WhatsAppMessage) (url : jsstring) : Prop :=
  typeIs m "media" = true /\ mediaUrl m = Some url /\ url <> [].

(** A job that selects the encoded mode with the payload [b64]. *)
Definition encodedMode (m : WhatsAppMessage) (b64 : jsstring) : Prop :=
  typeIs m "base64" = true /\ base64Data m = Some b64 /\ b64 <> [].

(** A job that selects neither media mode. *)
Definition textMode (m : WhatsAppMessage) : Prop :=
  typeIs m "base64" && truthy (base64Data m) = false /\
  typeIs m "media" && truthy (mediaUrl m) = false.

(** ** A second concrete runtime, with a reachable web *)

Module Web.

Definition pngBytes : list N := [137; 80; 78; 71].

(** References ending in [.png] are served, the others are not found. *)
Definition webFetch (url : jsstring) (w : nat) : (Exn + Response) * nat :=
  if endsWith (js ".png") url then
    (inr {| ok := true; status := 200; statusText := js "OK";
            contentType := Some (js "image/png");
            arrayBuffer := inr pngBytes |}, w)
  else
    (inr {| ok := false; status := 404; statusText := js "Not Found";
            contentType := None; arrayBuffer := inr [] |}, w).

Definition web : Runtime nat :=
  {| sendMessage := Demo.demoSend; fetch := webFetch;
     dateNow := Demo.demoNow; clientInfo := fun _ => true;
     JSON_parse := Demo.demoParse |}.

Definition remoteJob (url : jsstring) (body : option jsstring)
  : WhatsAppMessage :=
  {| to := ToArr [js "15551230000"; js "15551230001"]; message := body;
     type := Some (js "media"); mediaUrl := Some url; base64Data := None;
     mimetype := None; filename := None; caption := None; options := None |}.

End Web.

Import Web.

(** The media object of the encoded branch, for the clock reading [now]. *)
Definition encodedMedia (m : WhatsAppMessage) (b64 : jsstring) (now : N)
  : MessageMedia :=
  {| m_mimetype := orElse (mimetype m) (detectedMimetype b64);
     m_data := cleanBase64 b64;
     m_filename :=
       if truthy (filename m) then orElse (filename m) []
       else js "image_" ++ decimal now ++ js "."
            ++ extToString (getExtensionFromMimetype (detectedMimetype b64)) |}.

(** A data URL for the MIME type [mime] and the base64 body [body]. *)
Definition dataUrl (mime body : jsstring) : jsstring :=
  js "data:" ++ mime ++ js ";base64" ++ 44 :: body.

(** ** A third concrete runtime, for the consumer *)

Module Queue.

(** A payload without its type tag: valid for [validateMessageData],
    and met by the text branch. *)
Definition untagged : WhatsAppMessage :=
  Demo.job (ToStr (js "15551230000")) None None (Some (js "aGVsbG8=")).

Definition overridden : WhatsAppMessage :=
  {| to := ToArr [js "15551230000"]; message := Some (js "see this");
     type := Some (js "base64");
     mediaUrl := None; base64Data := Some (js "data:image/png;base64,aGVsbG8=");
     mimetype := Some (js "application/pdf"); filename := None;
     caption := None; options := None |}.

Definition queueParse (content : jsstring) : Exn + JsonValue :=
  if str_eqb content (js "untagged") then inr (JObject untagged)
  else Demo.demoParse content.

Definition queue : Runtime nat :=
  {| sendMessage := Demo.demoSend; fetch := Demo.demoFetch;
     dateNow := Demo.demoNow; clientInfo := fun _ => true;
     JSON_parse := queueParse |}.

(** The process after the connection has closed: the handle is unset. *)
Definition closed : St nat :=
  {| world := 0%nat; trace := []; rabbitChannel := false |}.

End Queue.

Import Queue.

(** ** Inbound commands ([runCommand] and the message handler of
    [src/server2.ts]) *)

Module Inbound.

(** More of the string primitives. *)

(** [s.indexOf(p)], [-1] when [p] does not occur. *)
Fixpoint indexOfFrom (p s : jsstring) (i : nat) : option nat :=
  if startsWith p s then Some i
  else match s with
       | [] => None
       | _ :: s' => indexOfFrom p s' (S i)
       end.

Definition indexOf (p s : jsstring) : Z :=
  match indexOfFrom p s 0 with
  | Some i => Z.of_nat i
  | None => (-1)%Z
  end.

(** [s.slice(start, stop)], negative indices counting from the end. *)
Definition slice (s : jsstring) (start stop : Z) : jsstring :=
  let len := Z.of_nat (List.length s) in
  let clamp i := if (i <? 0)%Z then Z.max (len + i) 0 else Z.min i len in
  firstn (Z.to_nat (clamp stop - clamp start)) (skipn (Z.to_nat (clamp start)) s).

(** [s.slice(start)] *)
Definition sliceFrom (s : jsstring) (start : Z) : jsstring :=
  slice s start (Z.of_nat (List.length s)).

(** [s.replace(pat, rep)] for a string pattern: the first occurrence. *)
Fixpoint replaceFirst (pat rep s : jsstring) : jsstring :=
  if startsWith pat s then rep ++ skipn (List.length pat) s
  else match s with
       | [] => []
       | c :: s' => c :: replaceFirst pat rep s'
       end.

Definition lengthOf (s : jsstring) : N := N.of_nat (List.length s).

(** The inbound message, as far as the handlers read it. *)
Record Msg : Type := {
  body : option jsstring;
  from : jsstring;
  hasMedia : bool;
  hasQuotedMsg : bool
}.

(** What [downloadMedia] resolves to. *)
Record Attachment : Type := {
  a_mimetype : jsstring;
  a_filename : option jsstring;
  a_data : jsstring
}.

(** What [getQuotedMessage] resolves to. *)
Record Quoted : Type := {
  q_id : jsstring;
  q_type : jsstring;
  q_author : option jsstring;
  q_from : jsstring;
  q_timestamp : N;
  q_hasMedia : bool;
  q_fromMe : bool
}.

Record Chat : Type := { isGroup : bool }.

Record Info : Type := {
  pushname : jsstring;
  wid_user : jsstring;
  platform : jsstring
}.

Inductive LabelId : Type :=
  | LabelNum (n : N)
  | LabelStr (s : jsstring).

Inductive Payload : Type :=
  | PText (text : jsstring)
  | PMedia (media : option Attachment).

(** Third argument of the inbound [client.sendMessage] calls. *)
Inductive SendOpt : Type :=
  | SNone
  | SCaption (c : jsstring)
  | SVoice
  | SViewOnce.

(** Calls that change something outside the process. *)
Inductive Action : Type :=
  | AReply (text : jsstring) (linkPreview : bool)
  | AQuotedReply (text : jsstring)
  | ASend (chatId : jsstring) (p : Payload) (o : SendOpt)
  | ASendSeen
  | APin
  | AArchive
  | AMute (now seconds : N)
  | ATyping
  | ARecording
  | AClearState
  | AChangeLabels (l : list LabelId)
  | ADelete (everyone : bool)
  | AEdit (text : jsstring)
  | ASetStatus (s : jsstring)
  | AOpenChatWindowAt (id : jsstring)
  | AReact (emoji : jsstring)
  | AGenerate (prompt : jsstring).

(** What the request to the text generator resolves to; [json] is the
    [response] member of the parsed body. *)
Record Generation : Type := {
  g_status : N;
  g_statusText : jsstring;
  g_json : Exn + option jsstring
}.

(** The external collaborators of the inbound side.  [perform] is the
    effect of an action; [answerOf x] stands for
    [json2md(JSON.parse(x).respuesta)]. *)
Record Client (W : Type) : Type := {
  getChat : W -> (Exn + Chat) * W;
  getChats : W -> (Exn + N) * W;
  getLabels : W -> (Exn + list jsstring) * W;
  info : W -> option Info;
  downloadMedia : W -> (Exn + option Attachment) * W;
  getQuotedMessage : W -> (Exn + Quoted) * W;
  quotedDownloadMedia : W -> (Exn + option Attachment) * W;
  newDate : W -> N;
  perform : Action -> W -> (Exn + unit) * W;
  generate : jsstring -> W -> (Exn + Generation) * W;
  answerOf : option jsstring -> Exn + jsstring
}.

Arguments getChat {W}.
Arguments getChats {W}.
Arguments getLabels {W}.
Arguments info {W}.
Arguments downloadMedia {W}.
Arguments getQuotedMessage {W}.
Arguments quotedDownloadMedia {W}.
Arguments newDate {W}.
Arguments perform {W}.
Arguments generate {W}.
Arguments answerOf {W}.

(** State: the world and the actions started so far. *)
Record ISt (W : Type) : Type := {
  iworld : W;
  actions : list Action
}.

Arguments iworld {W}.
Arguments actions {W}.
Arguments Build_ISt {W}.

Definition IM (W A : Type) : Type := ISt W -> (Exn + A) * ISt W.

Definition ireturn {W A} (a : A) : IM W A := fun st => (inr a, st).

Definition ibind {W A B} (m : IM W A) (k : A -> IM W B) : IM W B :=
  fun st =>
    match m st with
    | (inl e, st') => (inl e, st')
    | (inr a, st') => k a st'
    end.

Definition ithrow {W A} (e : Exn) : IM W A := fun st => (inl e, st).

Definition icatch {W A} (m : IM W A) (h : Exn -> IM W A) : IM W A :=
  fun st =>
    match m st with
    | (inl e, st') => h e st'
    | (inr a, st') => (inr a, st')
    end.

(** An awaited query. *)
Definition ask {W A} (f : W -> (Exn + A) * W) : IM W A :=
  fun st =>
    let (r, w') := f (iworld st) in
    (r, {| iworld := w'; actions := actions st |}).

Section Handlers.

Context {W : Type} (cl : Client W).

(** An awaited action: a rejection is thrown here. *)
Definition await (a : Action) : IM W unit :=
  fun st =>
    let (r, w') := perform cl a (iworld st) in
    (r, {| iworld := w'; actions := actions st ++ [a] |}).

(** An action whose promise is dropped: a rejection goes unseen. *)
Definition fire (a : Action) : IM W unit :=
  fun st =>
    let (_, w') := perform cl a (iworld st) in
    (inr tt, {| iworld := w'; actions := actions st ++ [a] |}).

Notation "x <~ m ;; k" := (ibind m (fun x => k))
  (at level 61, m at next level, right associativity).
Notation "m ;;~ k" := (ibind m (fun _ => k))
  (at level 61, right associativity).

Definition groupOnly : jsstring :=
  js "This command can only be used in a group!".

Definition undefinedText (o : option jsstring) : jsstring :=
  match o with
  | Some s => s
  | None => js "undefined"
  end.

Definition boolText (b : bool) : jsstring :=
  if b then js "true" else js "false".

(** The [!sendto] branch. *)
Definition cmdSendto (msg : Msg) (sanitizedBody : jsstring) : IM W unit :=
  match nth_error (split 32 sanitizedBody) 1 with
  | None =>
      ithrow (typeError
                (js "Cannot read properties of undefined (reading 'length')"))
  | Some number =>
      let messageIndex :=
        (indexOf number sanitizedBody + Z.of_nat (List.length number))%Z in
      let message :=
        sanitizeMessage
          (Some (slice sanitizedBody messageIndex
                   (Z.of_nat (List.length sanitizedBody)))) in
      let number := phoneNumberOf number in
      chat <~ ask (getChat cl) ;;
      fire ASendSeen ;;~
      match message with
      | [] => ireturn tt
      | _ :: _ => fire (ASend number (PText message) SNone)
      end
  end.

(** The [!subject], [!desc] and [!leave] branches: the group operation
    itself is commented out in the source. *)
Definition cmdGroupOnly : IM W unit :=
  chat <~ ask (getChat cl) ;;
  if isGroup chat then ireturn tt
  else fire (AReply groupOnly false).

(** The [!echo] and [!preview] branches. *)
Definition cmdReplyRest (sanitizedBody : jsstring) (n : Z) (preview : bool)
  : IM W unit :=
  match sanitizeMessage (Some (sliceFrom sanitizedBody n)) with
  | [] => ireturn tt
  | text => fire (AReply text preview)
  end.

Definition cmdInfo (msg : Msg) : IM W unit :=
  fun st =>
    match info cl (iworld st) with
    | None =>
        (inl (typeError
                (js "Cannot read properties of undefined (reading 'pushname')")),
         st)
    | Some i =>
        fire (ASend (from msg)
                (PText (js "*Connection info*" ++ [10] ++
                        js "User name: " ++ pushname i ++ [10] ++
                        js "My number: " ++ wid_user i ++ [10] ++
                        js "Platform: " ++ platform i))
                SNone) st
    end.

Definition cmdMediainfo : IM W unit :=
  attachmentData <~ ask (downloadMedia cl) ;;
  match attachmentData with
  | None =>
      ithrow (typeError
                (js "Cannot read properties of undefined (reading 'mimetype')"))
  | Some a =>
      fire (AReply (js "*Media info*" ++ [10] ++
                    js "MimeType: " ++ a_mimetype a ++ [10] ++
                    js "Filename: " ++ undefinedText (a_filename a) ++ [10] ++
                    js "Data (length): " ++ decimal (lengthOf (a_data a)))
              false)
  end.

Definition cmdQuoteinfo : IM W unit :=
  quotedMsg <~ ask (getQuotedMessage cl) ;;
  fire (AQuotedReply
          (js "ID: " ++ q_id quotedMsg ++ [10] ++
           js "Type: " ++ q_type quotedMsg ++ [10] ++
           js "Author: " ++ orElse (q_author quotedMsg) (q_from quotedMsg)
           ++ [10] ++
           js "Timestamp: " ++ decimal (q_timestamp quotedMsg) ++ [10] ++
           js "Has Media? " ++ boolText (q_hasMedia quotedMsg))).

Definition cmdResendmedia (msg : Msg) : IM W unit :=
  quotedMsg <~ ask (getQuotedMessage cl) ;;
  (if q_hasMedia quotedMsg then
     attachmentData <~ ask (quotedDownloadMedia cl) ;;
     fire (ASend (from msg) (PMedia attachmentData)
             (SCaption (js "Here's your requested media.")))
   else ireturn tt) ;;~
  if q_hasMedia quotedMsg && str_eqb (q_type quotedMsg) (js "audio") then
    audio <~ ask (quotedDownloadMedia cl) ;;
    await (ASend (from msg) (PMedia audio) SVoice)
  else ireturn tt.

Definition cmdIsviewonce (msg : Msg) : IM W unit :=
  quotedMsg <~ ask (getQuotedMessage cl) ;;
  if q_hasMedia quotedMsg then
    media <~ ask (quotedDownloadMedia cl) ;;
    await (ASend (from msg) (PMedia media) SViewOnce)
  else ireturn tt.

Definition cmdStatus (sanitizedBody : jsstring) : IM W unit :=
  match sanitizeMessage (nth_error (split 32 sanitizedBody) 1) with
  | [] => ireturn tt
  | newStatus =>
      await (ASetStatus newStatus) ;;~
      fire (AReply (js "Status was updated to *" ++ newStatus ++ js "*") false)
  end.

Definition cmdDelete (msg : Msg) : IM W unit :=
  if hasQuotedMsg msg then
    quotedMsg <~ ask (getQuotedMessage cl) ;;
    if q_fromMe quotedMsg then fire (ADelete true)
    else fire (AReply (js "I can only delete my own messages") false)
  else ireturn tt.

(** The branches that get the chat and act on it; [awaited] tells
    whether the call is awaited. *)
Definition cmdChat (awaited : bool) (a : Action) : IM W unit :=
  chat <~ ask (getChat cl) ;;
  if awaited then await a else fire a.

Definition cmdMute : IM W unit :=
  chat <~ ask (getChat cl) ;;
  (fun st => await (AMute (newDate cl (iworld st)) 20) st).

Definition cmdJumpto (msg : Msg) : IM W unit :=
  if hasQuotedMsg msg then
    quotedMsg <~ ask (getQuotedMessage cl) ;;
    fire (AOpenChatWindowAt (q_id quotedMsg))
  else ireturn tt.

Definition cmdEdit (msg : Msg) (sanitizedBody : jsstring) : IM W unit :=
  if hasQuotedMsg msg then
    quotedMsg <~ ask (getQuotedMessage cl) ;;
    if q_fromMe quotedMsg then
      match sanitizeMessage
              (Some (replaceFirst (js "!edit") [] sanitizedBody)) with
      | [] => ireturn tt
      | editText => fire (AEdit editText)
      end
    else fire (AReply (js "I can only edit my own messages") false)
  else ireturn tt.

Definition cmdAddlabels : IM W unit :=
  chat <~ ask (getChat cl) ;;
  labels <~ ask (getLabels cl) ;;
  await (AChangeLabels
           (map LabelStr labels ++ [LabelStr (js "0"); LabelStr (js "1")])).

(** [sanitizedBody === s] and [sanitizedBody.startsWith(s)] for a
    literal [s]. *)
Definition equals (sanitizedBody : jsstring) (s : string) : bool :=
  str_eqb sanitizedBody (js s).

Definition starts (sanitizedBody : jsstring) (s : string) : bool :=
  startsWith (js s) sanitizedBody.

(** The chain of [if]/[else if] of [runCommand], on the sanitized body. *)
Definition command (msg : Msg) (sanitizedBody : jsstring) : IM W unit :=
  if equals sanitizedBody "!ping reply" then fire (AReply (js "pong") false)
  else if equals sanitizedBody "!ping" then fire (ASend (from msg) (PText (js "pong")) SNone)
  else if starts sanitizedBody "!sendto " then cmdSendto msg sanitizedBody
  else if starts sanitizedBody "!subject " then cmdGroupOnly
  else if starts sanitizedBody "!echo " then cmdReplyRest sanitizedBody 6 false
  else if starts sanitizedBody "!preview " then cmdReplyRest sanitizedBody 9 true
  else if starts sanitizedBody "!desc " then cmdGroupOnly
  else if equals sanitizedBody "!leave" then cmdGroupOnly
  else if equals sanitizedBody "!chats" then
    chats <~ ask (getChats cl) ;;
    fire (ASend (from msg)
            (PText (js "The bot has " ++ decimal chats ++ js " chats open."))
            SNone)
  else if equals sanitizedBody "!info" then cmdInfo msg
  else if equals sanitizedBody "!mediainfo" && hasMedia msg then cmdMediainfo
  else if equals sanitizedBody "!quoteinfo" && hasQuotedMsg msg then cmdQuoteinfo
  else if equals sanitizedBody "!resendmedia" && hasQuotedMsg msg then cmdResendmedia msg
  else if equals sanitizedBody "!isviewonce" && hasQuotedMsg msg then cmdIsviewonce msg
  else if starts sanitizedBody "!status " then cmdStatus sanitizedBody
  else if equals sanitizedBody "!delete" then cmdDelete msg
  else if equals sanitizedBody "!pin" then cmdChat true APin
  else if equals sanitizedBody "!archive" then cmdChat true AArchive
  else if equals sanitizedBody "!mute" then cmdMute
  else if equals sanitizedBody "!typing" then cmdChat false ATyping
  else if equals sanitizedBody "!recording" then cmdChat false ARecording
  else if equals sanitizedBody "!clearstate" then cmdChat false AClearState
  else if equals sanitizedBody "!jumpto" then cmdJumpto msg
  else if equals sanitizedBody "!reaction" then fire (AReact [55357; 56397])
  else if equals sanitizedBody "!edit" then cmdEdit msg sanitizedBody
  else if equals sanitizedBody "!updatelabels" then
    cmdChat true (AChangeLabels [LabelNum 0; LabelNum 1])
  else if equals sanitizedBody "!addlabels" then cmdAddlabels
  else if equals sanitizedBody "!removelabels" then cmdChat true (AChangeLabels [])
  else ireturn tt.

Definition runCommand (msg : Msg) : IM W unit :=
  match body msg with
  | None => ireturn tt
  | Some [] => ireturn tt
  | Some b => command msg (sanitizeMessage (Some b))
  end.

(** The texts of the assistant route; [225] is a-acute and [241] is
    n-tilde. *)
Definition promptSuffix : jsstring :=
  js ". Siempre responde en espa" ++ [241] ++
  js "ol usando JSON, con la respuesta en la llave: respuesta".

Definition noAnswer : jsstring :=
  js "Lo siento, no pude generar una respuesta v" ++ [225] ++ js "lida.".

Definition badAnswer : jsstring :=
  js "Error procesando la respuesta del asistente.".

Definition unreachable : jsstring :=
  js "Error comunic" ++ [225] ++ js "ndose con el asistente.".

Definition noImages : jsstring :=
  js "Disculpa no puedo interpretar im" ++ [225] ++
  js "genes, por favor escribe tu requerimiento".

Definition say (msg : Msg) (text : jsstring) : IM W unit :=
  await (ASend (from msg) (PText text) SNone).

(** [fetch] to the generator, [POST] with the prompt in the body. *)
Definition request (prompt : jsstring) : IM W Generation :=
  fun st =>
    let (r, w') := generate cl prompt (iworld st) in
    (r, {| iworld := w'; actions := actions st ++ [AGenerate prompt] |}).

(** The [/jarvis] route of the handler. *)
Definition jarvis (msg : Msg) (b : jsstring) : IM W unit :=
  if negb (hasMedia msg) then
    icatch
      (let prompt := join 32 (tl (split 32 b)) in
       res <~ request (prompt ++ promptSuffix) ;;
       if g_status res =? 200 then
         jss <~ (fun st => (g_json res, st)) ;;
         icatch
           (text <~ (fun st => (answerOf cl jss, st)) ;;
            match sanitizeMessage (Some text) with
            | [] => say msg noAnswer
            | response => say msg response
            end)
           (fun _ => say msg badAnswer)
       else say msg (js "Error: " ++ g_statusText res))
      (fun _ => say msg unreachable)
  else say msg noImages.

(** The listener of the [message] event; the promise of [runCommand]
    is dropped. *)
Definition onInbound (msg : Msg) : IM W unit :=
  match body msg with
  | None => ireturn tt
  | Some [] => ireturn tt
  | Some b =>
      if str_eqb (hd [] (split 32 b)) (js "/jarvis") then jarvis msg b
      else fun st => (inr tt, snd (runCommand msg st))
  end.

End Handlers.

End Inbound.

Import Inbound.

(** Every action a computation starts satisfies [P]. *)
Definition emits {W A} (P : Action -> Prop) (c : IM W A) : Prop :=
  forall st, exists new,
    actions (snd (c st)) = actions st ++ new /\ Forall P new.

Definition notEdit (a : Action) : Prop :=
  match a with AEdit _ => False | _ => True end.

(** A digit [0]-[9]. *)
Definition isDigit (c : N) : bool := between 48 57 c.

(** ** A concrete chat client *)

Module Bot.

(** Every query is answered and every action succeeds; the generator
    answers [200] with a response that renders to ["hola"]. *)
Definition bot : Client nat :=
  {| getChat := fun w => (inr {| isGroup := false |}, w);
     getChats := fun w => (inr 3, w);
     getLabels := fun w => (inr [js "7"], w);
     info := fun _ => None;
     downloadMedia := fun w => (inr None, w);
     getQuotedMessage := fun w =>
       (inr {| q_id := js "Q1"; q_type := js "chat"; q_author := None;
               q_from := js "15551230000@c.us"; q_timestamp := 1700000000;
               q_hasMedia := false; q_fromMe := true |}, w);
     quotedDownloadMedia := fun w => (inr None, w);
     newDate := fun _ => 1700000000000;
     perform := fun _ w => (inr tt, S w);
     generate := fun _ w =>
       (inr {| g_status := 200; g_statusText := js "OK";
               g_json := inr (Some (js "{}")) |}, w);
     answerOf := fun _ => inr (js " hola ") |}.

Definition inbound (b : jsstring) (quoted : bool) : Msg :=
  {| body := Some b; from := js "15551230009@c.us"; hasMedia := false;
     hasQuotedMsg := quoted |}.

Definition idle : ISt nat := {| iworld := 0%nat; actions := [] |}.

End Bot.

Import Bot.

(** Two clients with the generator of [bot].  [deaf] refuses every
    action; [hoarse] refuses only the send of the text ["hola"]. *)
Definition deaf : Client nat :=
  {| getChat := getChat bot;
     getChats := getChats bot;
     getLabels := getLabels bot;
     info := info bot;
     downloadMedia := downloadMedia bot;
     getQuotedMessage := getQuotedMessage bot;
     quotedDownloadMedia := quotedDownloadMedia bot;
     newDate := newDate bot;
     perform := fun _ w => (inl (JsError (js "Error") (js "refused")), S w);
     generate := generate bot;
     answerOf := answerOf bot |}.

Definition hoarse : Client nat :=
  {| getChat := getChat bot;
     getChats := getChats bot;
     getLabels := getLabels bot;
     info := info bot;
     downloadMedia := downloadMedia bot;
     getQuotedMessage := getQuotedMessage bot;
     quotedDownloadMedia := quotedDownloadMedia bot;
     newDate := newDate bot;
     perform := fun a w =>
       match a with
       | ASend _ (PText t) _ =>
           if str_eqb t (js "hola")
           then (inl (JsError (js "Error") (js "refused")), S w)
           else (inr tt, S w)
       | _ => (inr tt, S w)
       end;
     generate := generate bot;
     answerOf := answerOf bot |}.

(** ** Jobs outside the declared type *)

(** A runtime whose parser answers the job [m] whatever the content; the
    client is ready. *)
Definition parsing (m : WhatsAppMessage) : Runtime nat :=
  {| sendMessage := demoSend; fetch := demoFetch; dateNow := demoNow;
     clientInfo := fun _ => true;
     JSON_parse := fun _ => inr (JObject m) |}.

(** A job whose [to] is [true]. *)
Definition flagged : WhatsAppMessage :=
  job (ToBool true) (Some (js "hi")) None None.

(** ** Turn by turn *)

(** [P] holds of every turn of the loop: the recipients, the entries and
    the events go together, each recipient with the entry and the events
    of its own turn, in order. *)
Inductive PerTurn (P : jsstring -> DeliveryResult -> list Event -> Prop)
  : list jsstring -> list DeliveryResult -> list Event -> Prop :=
  | PerTurnNil : PerTurn P [] [] []
  | PerTurnCons r rs e es evs evss :
      P r e evs -> PerTurn P rs es evss ->
      PerTurn P (r :: rs) (e :: es) (evs ++ evss).

(** The transport calls in the turn of [r] that pushed [e]: none, and
    then [e] is a failure; or exactly one, to the resolved address of
    [r]. *)
Definition calledInTurn (r : jsstring) (e : DeliveryResult)
  (evs : list Event) : Prop :=
  entryFor r e /\
  ((filter isSend evs = [] /\ success e = false) \/
   (exists c o, filter isSend evs = [EvSend (phoneNumberOf r) c o])).

(** The delay in the turn of [r] that pushed [e]: after a success the
    turn ends with the call to [r] and then the delay of one second,
    nothing but decodes and fetches coming before; after a failure the
    turn has no delay. *)
Definition delayedInTurn (r : jsstring) (e : DeliveryResult)
  (evs : list Event) : Prop :=
  if success e then
    exists pre c o,
      evs = pre ++ [EvSend (phoneNumberOf r) c o; EvDelay 1000] /\
      forallb quiet pre = true
  else filter isDelay evs = [].

(** [r] is the piece [p] without the white space at its two ends. *)
Definition trimmedOf (p r : jsstring) : Prop :=
  exists a b,
    p = a ++ r ++ b /\
    forallb isWhiteSpace a = true /\ forallb isWhiteSpace b = true /\
    match r with [] => True | c :: _ => isWhiteSpace c = false end /\
    match rev r with [] => True | c :: _ => isWhiteSpace c = false end.

(** The call of the text mode for the recipient [r]. *)
Definition textCall (m : WhatsAppMessage) (t : jsstring) (r : jsstring)
  : Event :=
  EvSend (phoneNumberOf r) (TextContent t)
    {| o_caption := None; o_options := options m |}.

(** A text job whose [to] is one string with a comma; the transport of
    [demo] refuses the first address. *)
Definition commaListed : WhatsAppMessage :=
  job (ToStr (js " bad@c.us , 15551230000")) (Some (js "hi")) None None.

(** * Properties *)

(** ** Sanity checks of the embedding *)

Example decode_hello : decode (js "aGVsbG8=") = js "hello".
Proof. reflexivity. Qed.

Example encode_hello : encode (js "hello") = js "aGVsbG8=".
Proof. reflexivity. Qed.

Example sanitize_hi : sanitizeMessage (Some ([32; 32] ++ js "hi" ++ [0; 32])) = js "hi".
Proof. reflexivity. Qed.

Example splitDataUrl_png :
  splitDataUrl (js "data:image/png;base64,aGVsbG8=") =
  (js "image/png", js "aGVsbG8=").
Proof. reflexivity. Qed.

Example splitDataUrl_raw :
  splitDataUrl (js "aGVsbG8=") = (js "image/jpeg", js "aGVsbG8=").
Proof. reflexivity. Qed.

Example splitDataUrl_three_parts :
  splitDataUrl (js "a,b,c") = (js "image/jpeg", js "a,b,c").
Proof. reflexivity. Qed.

(** ** Strings *)

Lemma str_eqb_refl (a : jsstring) : str_eqb a a = true.
Proof.
  induction a as [|x a IH]; simpl; [reflexivity|].
  now rewrite N.eqb_refl, IH.
Qed.

Lemma str_eqb_eq (a b : jsstring) : str_eqb a b = true <-> a = b.
Proof.
  split.
  - revert b; induction a as [|x a IH]; intros [|y b] H; simpl in H;
      try discriminate; [reflexivity|].
    apply andb_true_iff in H as [Hx Hab].
    apply N.eqb_eq in Hx. f_equal; auto.
  - intros ->. apply str_eqb_refl.
Qed.

Lemma In_dropWhile p (s : jsstring) c : In c (dropWhile p s) -> In c s.
Proof.
  induction s as [|x s IH]; simpl; [tauto|].
  destruct (p x); simpl; tauto.
Qed.

Lemma In_trimEnd (s : jsstring) c : In c (trimEnd s) -> In c s.
Proof.
  induction s as [|x s IH]; simpl; [tauto|].
  destruct (trimEnd s) as [|y t].
  - destruct (isWhiteSpace x); simpl; tauto.
  - intros [->|H]; [now left|right; apply IH; exact H].
Qed.

Lemma In_trim (s : jsstring) c : In c (trim s) -> In c s.
Proof. intros H. apply In_dropWhile with isWhiteSpace, In_trimEnd, H. Qed.

Lemma trimEnd_cons_keep c (s : jsstring) :
  isWhiteSpace c = false -> trimEnd (c :: s) = c :: trimEnd s.
Proof. intros H. simpl. rewrite H. now destruct (trimEnd s). Qed.

Lemma trimEnd_idem (s : jsstring) : trimEnd (trimEnd s) = trimEnd s.
Proof.
  induction s as [|x s IH]; simpl; [reflexivity|].
  destruct (trimEnd s) as [|y t] eqn:E.
  - destruct (isWhiteSpace x) eqn:Hx; simpl; [reflexivity|now rewrite Hx].
  - change (trimEnd (x :: y :: t)) with
      (match trimEnd (y :: t) with
       | [] => if isWhiteSpace x then [] else [x]
       | u => x :: u
       end).
    now rewrite IH.
Qed.

Lemma dropWhile_head p (s : jsstring) :
  match dropWhile p s with
  | [] => True
  | c :: _ => p c = false
  end.
Proof.
  induction s as [|x s IH]; simpl; [exact I|].
  destruct (p x) eqn:E; [exact IH|exact E].
Qed.

Lemma trimStart_trimEnd (s : jsstring) :
  match s with [] => True | c :: _ => isWhiteSpace c = false end ->
  trimStart (trimEnd s) = trimEnd s.
Proof.
  destruct s as [|c s]; [reflexivity|]. intros Hc.
  rewrite trimEnd_cons_keep by exact Hc.
  unfold trimStart. simpl. now rewrite Hc.
Qed.

Lemma trim_idem (s : jsstring) : trim (trim s) = trim s.
Proof.
  unfold trim.
  rewrite trimStart_trimEnd by apply (dropWhile_head isWhiteSpace).
  apply trimEnd_idem.
Qed.

(** A trimmed string neither starts nor ends with white space. *)
Lemma trim_head (s : jsstring) :
  match trim s with [] => True | c :: _ => isWhiteSpace c = false end.
Proof.
  unfold trim.
  pose proof (dropWhile_head isWhiteSpace s) as H. fold (trimStart s) in H.
  destruct (trimStart s) as [|c t]; [exact I|].
  now rewrite trimEnd_cons_keep.
Qed.

Lemma trimEnd_last (s : jsstring) :
  match rev (trimEnd s) with [] => True | c :: _ => isWhiteSpace c = false end.
Proof.
  induction s as [|x s IH]; simpl; [exact I|].
  destruct (trimEnd s) as [|y t].
  - destruct (isWhiteSpace x) eqn:E; simpl; [exact I|exact E].
  - simpl. simpl in IH.
    destruct (rev t ++ [y]) as [|z u] eqn:E; [now destruct (rev t)|].
    exact IH.
Qed.

Lemma trim_last (s : jsstring) :
  match rev (trim s) with [] => True | c :: _ => isWhiteSpace c = false end.
Proof. apply trimEnd_last. Qed.

Lemma removeAll_id cls (s : jsstring) :
  (forall c, In c s -> cls c = false) -> removeAll cls s = s.
Proof.
  induction s as [|x s IH]; intros H; simpl; [reflexivity|].
  rewrite (H x) by now left. simpl. f_equal. apply IH.
  intros c Hc. apply H. now right.
Qed.

Lemma In_removeAll cls (s : jsstring) c :
  In c (removeAll cls s) <-> In c s /\ cls c = false.
Proof.
  unfold removeAll. rewrite filter_In.
  now rewrite negb_true_iff.
Qed.

(** [trimEnd] agrees with stripping from the reversed string. *)
Lemma trimEnd_app_ws (s : jsstring) c :
  isWhiteSpace c = true -> trimEnd (s ++ [c]) = trimEnd s.
Proof.
  intros Hc. induction s as [|x s IH]; simpl; [now rewrite Hc|].
  now rewrite IH.
Qed.

Lemma trimEnd_app_keep (s : jsstring) c :
  isWhiteSpace c = false -> trimEnd (s ++ [c]) = s ++ [c].
Proof.
  intros Hc. induction s as [|x s IH]; simpl; [now rewrite Hc|].
  rewrite IH. now destruct (s ++ [c]) eqn:E; [destruct s|].
Qed.

Lemma trimEnd_rev (s : jsstring) :
  trimEnd s = rev (dropWhile isWhiteSpace (rev s)).
Proof.
  rewrite <- (rev_involutive s) at 1.
  induction (rev s) as [|c r IH]; simpl; [reflexivity|].
  destruct (isWhiteSpace c) eqn:Hc.
  - now rewrite trimEnd_app_ws.
  - rewrite trimEnd_app_keep by exact Hc. reflexivity.
Qed.

(** ** Sanitizer *)

(** Boolean comparisons on code units, turned into arithmetic. *)
Ltac unit_arith :=
  repeat match goal with
         | H : _ && _ = true |- _ => apply andb_true_iff in H; destruct H
         | H : _ || _ = false |- _ => apply orb_false_iff in H; destruct H
         | H : _ && _ = false |- _ => apply andb_false_iff in H
         | H : _ || _ = true |- _ => apply orb_true_iff in H
         | H : negb _ = true |- _ => apply negb_true_iff in H
         | H : negb _ = false |- _ => apply negb_false_iff in H
         | H : (_ <=? _) = true |- _ => apply N.leb_le in H
         | H : (_ <=? _) = false |- _ => apply N.leb_gt in H
         | H : (_ <? _) = true |- _ => apply N.ltb_lt in H
         | H : (_ <? _) = false |- _ => apply N.ltb_ge in H
         | H : (_ =? _) = true |- _ => apply N.eqb_eq in H
         | H : (_ =? _) = false |- _ => apply N.eqb_neq in H
         end.

Ltac unit_cases :=
  repeat (unit_arith; match goal with H : _ \/ _ |- _ => destruct H end);
  unit_arith.

Lemma isControl_spec c :
  isControl c = true <->
  (c <= 8 \/ c = 11 \/ c = 12 \/ (14 <= c /\ c <= 31) \/ (127 <= c /\ c <= 159)).
Proof.
  unfold isControl, between. split.
  - intros H. unit_cases; lia.
  - intros H.
    rewrite !orb_true_iff, !andb_true_iff, !N.leb_le, !N.eqb_eq. lia.
Qed.

Lemma sanitizeMessage_filter (s : jsstring) :
  sanitizeMessage (Some s) =
  trim (filter (fun c => negb (isControl c || isBOM c)) s).
Proof.
  assert (F : forall l : jsstring,
             removeAll isBOM (removeAll isControl l) =
             filter (fun c => negb (isControl c || isBOM c)) l).
  { induction l as [|x l IH]; simpl; [reflexivity|].
    destruct (isControl x); simpl; [exact IH|].
    destruct (isBOM x); simpl; [exact IH|]. now rewrite <- IH. }
  destruct s as [|c s]; [reflexivity|].
  unfold sanitizeMessage. now rewrite F.
Qed.

Lemma In_sanitizeMessage x c :
  In c (sanitizeMessage x) ->
  isControl c = false /\ isBOM c = false /\
  exists s, x = Some s /\ In c s.
Proof.
  destruct x as [s|]; [|intros []].
  rewrite sanitizeMessage_filter. intros H.
  apply In_trim, filter_In in H. destruct H as [Hs H].
  apply negb_true_iff, orb_false_iff in H. destruct H.
  repeat split; eauto.
Qed.

Lemma sanitizeMessage_fixpoint (out : jsstring) :
  (forall u, In u out -> isControl u = false /\ isBOM u = false) ->
  trim out = out ->
  sanitizeMessage (Some out) = out.
Proof.
  intros K T. destruct out as [|c t]; [reflexivity|].
  unfold sanitizeMessage.
  rewrite (removeAll_id isControl) by (intros u Hu; now apply K).
  rewrite (removeAll_id isBOM) by (intros u Hu; now apply K).
  exact T.
Qed.

(** C7.  Sanitizing is idempotent: a second pass over a sanitized text
    changes nothing. *)
Theorem sanitizeMessage_idempotent (x : option jsstring) :
  sanitizeMessage (Some (sanitizeMessage x)) = sanitizeMessage x.
Proof.
  apply sanitizeMessage_fixpoint.
  - intros u Hu. apply In_sanitizeMessage in Hu. tauto.
  - destruct x as [s|]; [|reflexivity].
    rewrite sanitizeMessage_filter. apply trim_idem.
Qed.

(** C4, as the code has it.  The sanitized text holds no code unit of
    U+0000-U+0008, U+000B, U+000C, U+000E-U+001F or U+007F-U+009F and no
    U+FEFF; it is the input with exactly those units dropped and then
    trimmed, so it neither starts nor ends with white space; TAB, LF and
    CR are not in the removed class. *)
Theorem sanitizeMessage_removes_listed (x : option jsstring) :
  (forall c,
      c <= 8 \/ c = 11 \/ c = 12 \/ (14 <= c /\ c <= 31) \/
      (127 <= c /\ c <= 159) \/ c = 65279 ->
      ~ In c (sanitizeMessage x)) /\
  (forall s, x = Some s ->
     sanitizeMessage x =
     trim (filter (fun c => negb (isControl c || isBOM c)) s)) /\
  match sanitizeMessage x with
  | [] => True
  | c :: _ => isWhiteSpace c = false
  end /\
  match rev (sanitizeMessage x) with
  | [] => True
  | c :: _ => isWhiteSpace c = false
  end /\
  isControl 9 = false /\ isControl 10 = false /\ isControl 13 = false.
Proof.
  split; [|split; [|split; [|split]]].
  - intros c Hc Hin. apply In_sanitizeMessage in Hin.
    destruct Hin as (Hctl & Hbom & _).
    assert (Hn : ~ (c <= 8 \/ c = 11 \/ c = 12 \/ (14 <= c /\ c <= 31) \/
                    (127 <= c /\ c <= 159))).
    { rewrite <- isControl_spec. now rewrite Hctl. }
    unfold isBOM in Hbom. apply N.eqb_neq in Hbom. tauto.
  - intros s ->. apply sanitizeMessage_filter.
  - destruct x as [s|]; [|exact I].
    rewrite sanitizeMessage_filter. apply trim_head.
  - destruct x as [s|]; [|exact I].
    rewrite sanitizeMessage_filter. apply trim_last.
  - repeat split.
Qed.

Lemma sanitizeMessage_removes_listed_witness :
  ~ In 0 (sanitizeMessage (Some (js "  hi" ++ [0; 65279; 32]))) /\
  sanitizeMessage (Some (js "  hi" ++ [0; 65279; 32])) = js "hi".
Proof.
  split.
  - apply (proj1 (sanitizeMessage_removes_listed
                    (Some (js "  hi" ++ [0; 65279; 32]))) 0).
    left. lia.
  - reflexivity.
Defined.

(** C4, as the claim words it, fails: a TAB inside the text is a C0
    control character and stays. *)
Lemma sanitizeMessage_keeps_tab :
  sanitizeMessage (Some (js "a" ++ [9] ++ js "b")) = js "a" ++ [9] ++ js "b" /\
  In 9 (sanitizeMessage (Some (js "a" ++ [9] ++ js "b"))) /\
  isC0 9 = true.
Proof. repeat split. vm_compute. tauto. Qed.

(** ** MIME table *)

Lemma ownProperty_In o k v :
  ownProperty o k = Some v -> In (k, v) o.
Proof.
  induction o as [|[k' v'] o IH]; simpl; [discriminate|].
  destruct (str_eqb k' k) eqn:E.
  - apply str_eqb_eq in E. intros [= ->]. left. now subst.
  - intros H. right. now apply IH.
Qed.

Lemma ownProperty_None o k :
  (forall v, ~ In (k, v) o) -> ownProperty o k = None.
Proof.
  intros H. destruct (ownProperty o k) as [v|] eqn:E; [|reflexivity].
  apply ownProperty_In in E. now apply H in E.
Qed.

(** Each key of the table is found under its own spelling. *)
Lemma mimetypeMap_keys :
  Forall (fun kv => getExtensionFromMimetype (fst kv) = ExtString (snd kv))
         mimetypeMap.
Proof. unfold mimetypeMap. repeat constructor. Qed.

(** C6, as the code has it.  The lookup is total and is made on the
    lower-cased MIME type: a key of the table gives its extension, so
    does any spelling that lower-cases to a key, and a string whose lower
    case is neither a key nor an inherited member gives [bin]. *)
Theorem getExtensionFromMimetype_lookup (m : jsstring) :
  (forall ext, In (m, ext) mimetypeMap ->
               getExtensionFromMimetype m = ExtString ext) /\
  (forall ext, In (toLowerCase m, ext) mimetypeMap ->
               getExtensionFromMimetype m = ExtString ext) /\
  ((forall ext, ~ In (toLowerCase m, ext) mimetypeMap) ->
   ~ In (toLowerCase m) objectPrototype ->
   getExtensionFromMimetype m = ExtString (js "bin")).
Proof.
  split; [|split].
  - intros ext H.
    exact (proj1 (Forall_forall _ _) mimetypeMap_keys (m, ext) H).
  - intros ext H. unfold getExtensionFromMimetype.
    remember (toLowerCase m) as k eqn:Ek. clear Ek.
    unfold mimetypeMap in H.
    repeat (destruct H as [H|H];
            [injection H as <- <-; vm_compute; reflexivity|]).
    destruct H.
  - intros Hkey Hproto. unfold getExtensionFromMimetype.
    rewrite ownProperty_None by exact Hkey.
    destruct (existsb (str_eqb (toLowerCase m)) objectPrototype) eqn:E;
      [|reflexivity].
    apply existsb_exists in E. destruct E as (p & Hp & Heq).
    apply str_eqb_eq in Heq. subst p. contradiction.
Qed.

Lemma getExtensionFromMimetype_lookup_witness :
  getExtensionFromMimetype (js "image/png") = ExtString (js "png") /\
  getExtensionFromMimetype (js "Image/PNG") = ExtString (js "png") /\
  getExtensionFromMimetype (js "text/plain") = ExtString (js "bin").
Proof.
  split; [|split].
  - apply (proj1 (getExtensionFromMimetype_lookup (js "image/png"))).
    vm_compute. tauto.
  - apply (proj1 (proj2 (getExtensionFromMimetype_lookup (js "Image/PNG")))).
    vm_compute. tauto.
  - apply (proj2 (proj2 (getExtensionFromMimetype_lookup (js "text/plain")))).
    + intros ext H. vm_compute in H.
      repeat (destruct H as [H|H]; [discriminate H|]). exact H.
    + intros H. vm_compute in H.
      repeat (destruct H as [H|H]; [discriminate H|]). exact H.
Defined.

(** C6, as the claim words it, fails: [IMAGE/PNG] is not a key of the
    table, yet the answer is [png], not [bin]. *)
Lemma getExtensionFromMimetype_upper_case :
  (forall ext, ~ In (js "IMAGE/PNG", ext) mimetypeMap) /\
  getExtensionFromMimetype (js "IMAGE/PNG") = ExtString (js "png") /\
  ExtString (js "png") <> ExtString (js "bin").
Proof.
  split; [|split].
  - intros ext H. vm_compute in H.
    repeat (destruct H as [H|H]; [discriminate H|]). exact H.
  - reflexivity.
  - discriminate.
Qed.

(** An inherited member is found where the table has no key. *)
Example getExtensionFromMimetype_constructor :
  getExtensionFromMimetype (js "constructor") = ExtInherited (js "constructor").
Proof. reflexivity. Qed.

(** ** Traces *)

Lemma addTrace_addTrace {W} a b (st : St W) :
  addTrace b (addTrace a st) = addTrace (a ++ b) st.
Proof. unfold addTrace. simpl. now rewrite app_assoc. Qed.

Lemma addTrace_nil {W} (st : St W) : addTrace [] st = st.
Proof. destruct st. unfold addTrace. simpl. now rewrite app_nil_r. Qed.

Lemma sends_addTrace {W} evs (st : St W) :
  sends (addTrace evs st) = sends st ++ filter isSend evs.
Proof. unfold sends, addTrace. simpl. apply filter_app. Qed.

(** ** Normalizer *)

(** On a string that passes the alphabet check, every unit before the
    padding yields a sextet, and nothing is decoded exactly when there is
    at most one such unit. *)
Lemma isAlphabet_unbase64 c :
  isAlphabet c = true -> (c =? 61) = false /\ exists v, unbase64 c = Some v.
Proof.
  unfold isAlphabet, unbase64, between. intros H. split.
  - apply N.eqb_neq. intros ->. discriminate H.
  - repeat match goal with
           | |- context [if ?b then _ else _] => destruct b eqn:?
           end; eauto.
    unit_cases; lia.
Qed.

Lemma sextets_length (s : jsstring) :
  base64Regex_test s = true ->
  List.length (sextets s) = List.length (takeWhile isAlphabet s).
Proof.
  unfold base64Regex_test.
  induction s as [|c s IH]; simpl; [reflexivity|].
  destruct (isAlphabet c) eqn:E.
  - destruct (isAlphabet_unbase64 c E) as (Hne & v & Hv).
    rewrite Hne, Hv. simpl. intros H. f_equal. now apply IH.
  - destruct (c =? 61) eqn:E61; [reflexivity|].
    apply N.eqb_neq in E61. intros H.
    destruct s as [|d [|d' [|d'' s]]]; repeat
      match type of H with
      | match ?x with _ => _ end = _ => destruct x; try discriminate H
      end; try discriminate H; exfalso; apply E61; reflexivity.
Qed.

Lemma pack_nil_iff (l : list N) : pack l = [] <-> (List.length l <= 1)%nat.
Proof.
  destruct l as [|a [|b [|c [|d r]]]]; simpl; split; intros H;
    try reflexivity; try discriminate H; try lia.
Qed.

Lemma decode_nil_iff (s : jsstring) :
  base64Regex_test s = true ->
  (decode s = [] <-> (List.length (takeWhile isAlphabet s) <= 1)%nat).
Proof.
  intros H. unfold decode. rewrite pack_nil_iff. now rewrite sextets_length.
Qed.

Section Normalizer.

Context {W : Type} (rt : Runtime W).

Lemma isValidBase64_eq str (st : St W) :
  isValidBase64 str st =
  if base64Regex_test str then (inr true, addTrace [EvDecode str] st)
  else (inr false, st).
Proof.
  unfold isValidBase64, try_catch, bufferFrom, bind, emit, ret.
  destruct (base64Regex_test str); reflexivity.
Qed.

Lemma parseBase64Image_eq s (st : St W) :
  parseBase64Image s st =
  if base64Regex_test (cleanBase64 s)
  then (inr (Some (parsedOf s)), addTrace [EvDecode (cleanBase64 s)] st)
  else (inr None, st).
Proof.
  unfold parseBase64Image, parsedOf, cleanBase64, detectedMimetype.
  destruct (splitDataUrl s) as [d c]. simpl fst. simpl snd.
  unfold try_catch, bind. rewrite isValidBase64_eq.
  destruct (base64Regex_test c); reflexivity.
Qed.

(** Where the alphabet check fails, the parse gives [null] and leaves the
    state, trace included, as it was. *)
Lemma base64Branch_invalid m b64 phone (st : St W) :
  base64Regex_test (cleanBase64 b64) = false ->
  base64Branch rt m b64 phone st =
  (inl (newError (js "Failed to parse base64 image data")), st).
Proof.
  intros H. unfold base64Branch, bind.
  rewrite parseBase64Image_eq, H. reflexivity.
Qed.

(** Where the check passes and nothing decodes, the branch stops at the
    emptiness test, after two decoder calls and before any send. *)
Lemma base64Branch_empty m b64 phone (st : St W) :
  base64Regex_test (cleanBase64 b64) = true ->
  decode (cleanBase64 b64) = [] ->
  base64Branch rt m b64 phone st =
  (inl (newError (js "Failed to decode base64 data: Error: Decoded image buffer is empty")),
   addTrace [EvDecode (cleanBase64 b64); EvDecode (cleanBase64 b64)] st).
Proof.
  intros Hv He. unfold base64Branch, bind.
  rewrite parseBase64Image_eq, Hv.
  unfold try_catch, bufferFrom, bind, emit, ret, throw. simpl.
  rewrite He. unfold addTrace. simpl. rewrite <- app_assoc. reflexivity.
Qed.

End Normalizer.

(** ** Dispatcher *)

Section DispatcherFacts.

Context {W : Type} (rt : Runtime W).

Lemma iteration_eq m results r (st : St W) :
  iteration rt m results r st =
  match deliver rt m (phoneNumberOf r) st with
  | (inr id, st') =>
      (inr (results ++ [sent (phoneNumberOf r) id]), addTrace [EvDelay 1000] st')
  | (inl e, st') => (inr (results ++ [failed r (errorMessage e)]), st')
  end.
Proof.
  unfold iteration, try_catch, bind.
  destruct (deliver rt m (phoneNumberOf r) st) as [[e|id] st']; reflexivity.
Qed.

(** One turn always returns, with exactly one entry pushed, and neither
    the entry nor the state it leaves depends on the entries before. *)
Lemma iteration_shape m r (st : St W) :
  exists e st',
    entryFor r e /\
    forall results, iteration rt m results r st = (inr (results ++ [e]), st').
Proof.
  destruct (deliver rt m (phoneNumberOf r) st) as [[x|id] st1] eqn:E.
  - exists (failed r (errorMessage x)), st1. split.
    + right. now exists (errorMessage x).
    + intros results. now rewrite iteration_eq, E.
  - exists (sent (phoneNumberOf r) id), (addTrace [EvDelay 1000] st1). split.
    + left. now exists id.
    + intros results. now rewrite iteration_eq, E.
Qed.

Lemma forOf_shape m rs (st : St W) :
  exists es st',
    Forall2 entryFor rs es /\
    forall results, forOf rt m rs results st = (inr (results ++ es), st').
Proof.
  revert st. induction rs as [|r rs IH]; intros st.
  - exists [], st. split; [constructor|].
    intros results. simpl. unfold ret. now rewrite app_nil_r.
  - destruct (iteration_shape m r st) as (e & st1 & He & Hit).
    destruct (IH st1) as (es & st2 & Hes & Hfor).
    exists (e :: es), st2. split; [now constructor|].
    intros results. simpl. unfold bind. rewrite Hit, Hfor.
    now rewrite <- app_assoc.
Qed.

(** The loop over [pre ++ r :: post] is the loop over [pre], then the
    turn of [r], then the loop over [post] from the state that turn left. *)
Lemma forOf_split m pre r post (st : St W) es st' :
  forOf rt m (pre ++ r :: post) [] st = (inr es, st') ->
  exists es1 st1 e st2 es2,
    forOf rt m pre [] st = (inr es1, st1) /\
    iteration rt m [] r st1 = (inr [e], st2) /\
    forOf rt m post [] st2 = (inr es2, st') /\
    es = es1 ++ e :: es2 /\
    List.length es1 = List.length pre.
Proof.
  revert st es. 
  assert (G : forall (st : St W) acc es,
             forOf rt m (pre ++ r :: post) acc st = (inr es, st') ->
             exists es1 st1 e st2 es2,
               forOf rt m pre [] st = (inr es1, st1) /\
               iteration rt m [] r st1 = (inr [e], st2) /\
               forOf rt m post [] st2 = (inr es2, st') /\
               es = acc ++ es1 ++ e :: es2 /\
               List.length es1 = List.length pre).
  { induction pre as [|p pre IH]; intros st acc es H.
    - simpl in H. unfold bind in H.
      destruct (iteration_shape m r st) as (e & st2 & _ & Hit).
      destruct (forOf_shape m post st2) as (es2 & st3 & _ & Hfor).
      rewrite Hit, Hfor in H. injection H as <- <-.
      exists [], st, e, st2, es2. repeat split.
      + apply (Hit []).
      + rewrite (Hfor []). reflexivity.
      + now rewrite <- app_assoc.
    - simpl in H. unfold bind in H.
      destruct (iteration_shape m p st) as (e0 & st0 & _ & Hit0).
      rewrite Hit0 in H.
      apply IH in H. destruct H as (es1 & st1 & e & st2 & es2 & H1 & H2 & H3 & H4 & H5).
      destruct (forOf_shape m pre st0) as (es1' & st1' & _ & Hfor1).
      rewrite (Hfor1 []) in H1. simpl in H1. injection H1 as <- <-.
      exists (e0 :: es1'), st1', e, st2, es2. repeat split; auto.
      + simpl. unfold bind. rewrite (Hit0 []). simpl. rewrite (Hfor1 [e0]).
        reflexivity.
      + rewrite H4. now rewrite <- app_assoc.
      + simpl. now f_equal. }
  intros st es H. apply G in H.
  destruct H as (es1 & st1 & e & st2 & es2 & H). exists es1, st1, e, st2, es2.
  exact H.
Qed.

Lemma sendWhatsAppMessage_eq m recipients (st : St W) :
  recipientsOf (to m) = inr recipients ->
  sendWhatsAppMessage rt m st = forOf rt m recipients [] st.
Proof.
  intros H. unfold sendWhatsAppMessage, try_catch, bind. rewrite H.
  destruct (forOf_shape m recipients st) as (es & st' & _ & Hfor).
  now rewrite (Hfor []).
Qed.

Lemma sendWhatsAppMessage_throws m e (st : St W) :
  recipientsOf (to m) = inl e ->
  sendWhatsAppMessage rt m st = (inl e, st).
Proof.
  intros H. unfold sendWhatsAppMessage, try_catch, bind, throw.
  now rewrite H.
Qed.

(** Shared by the statements below: dispatch returns normally, one entry
    per recipient. *)
Lemma dispatch_returns_entries
  m recipients (st : St W) :
  recipientsOf (to m) = inr recipients ->
  exists es st',
    sendWhatsAppMessage rt m st = (inr es, st') /\
    Forall2 entryFor recipients es /\
    List.length es = List.length recipients.
Proof.
  intros Hto.
  destruct (forOf_shape m recipients st) as (es & st' & Hes & Hfor).
  exists es, st'. rewrite (sendWhatsAppMessage_eq _ _ _ Hto).
  split; [apply (Hfor [])|split; [exact Hes|]].
  symmetry. eapply Forall2_length; eauto.
Qed.

(** C1.  For a job whose [to] is a string or an array, dispatch returns
    normally with one entry per recipient, in the order listed: a success
    under the resolved address or a failure under the listed one.  The
    entry of any recipient [r] is what its own turn pushes: the failure
    entry with the message of whatever its delivery threw, or else the
    success entry.  The recipients after [r] are processed, whatever
    happened at [r], exactly as the loop processes them from the state
    that turn left. *)
Theorem sendWhatsAppMessage_one_entry_per_recipient
  m recipients (st : St W) :
  recipientsOf (to m) = inr recipients ->
  exists es st',
    sendWhatsAppMessage rt m st = (inr es, st') /\
    Forall2 entryFor recipients es /\
    List.length es = List.length recipients /\
    forall pre r post, recipients = pre ++ r :: post ->
      exists es1 st1 e st2 es2,
        forOf rt m pre [] st = (inr es1, st1) /\
        iteration rt m [] r st1 = (inr [e], st2) /\
        forOf rt m post [] st2 = (inr es2, st') /\
        es = es1 ++ e :: es2 /\
        List.length es1 = List.length pre /\
        e = match fst (deliver rt m (phoneNumberOf r) st1) with
            | inl x => failed r (errorMessage x)
            | inr id => sent (phoneNumberOf r) id
            end.
Proof.
  intros Hto.
  destruct (forOf_shape m recipients st) as (es & st' & Hes & Hfor).
  exists es, st'. rewrite (sendWhatsAppMessage_eq _ _ _ Hto).
  specialize (Hfor []). simpl in Hfor.
  repeat split; auto.
  - symmetry. eapply Forall2_length; eauto.
  - intros pre r post ->.
    destruct (forOf_split _ _ _ _ _ _ _ Hfor)
      as (es1 & st1 & e & st2 & es2 & H1 & H2 & H3 & H4 & H5).
    exists es1, st1, e, st2, es2.
    split; [exact H1|]. split; [exact H2|]. split; [exact H3|].
    split; [exact H4|]. split; [exact H5|].
    rewrite iteration_eq in H2.
    destruct (deliver rt m (phoneNumberOf r) st1) as [[x|id] st3];
      simpl in H2; injection H2 as <- _; reflexivity.
Qed.

End DispatcherFacts.

Lemma split_length sep (s : jsstring) :
  List.length (split sep s) = S (count_unit sep s).
Proof.
  unfold count_unit. induction s as [|c s IH]; simpl; [reflexivity|].
  rewrite (N.eqb_sym sep c).
  destruct (c =? sep); simpl.
  - now rewrite IH.
  - destruct (split sep s) as [|p ps]; simpl in *; [discriminate|exact IH].
Qed.

Lemma startsWith_app (p s : jsstring) : startsWith p (p ++ s) = true.
Proof.
  induction p as [|x p IH]; simpl; [reflexivity|].
  now rewrite N.eqb_refl, IH.
Qed.

Lemma endsWith_app (p s : jsstring) : endsWith p (s ++ p) = true.
Proof. unfold endsWith. rewrite rev_app_distr. apply startsWith_app. Qed.

Section DispatcherModes.

Context {W : Type} (rt : Runtime W).

(** A job whose every turn fails the same way, leaving the same events. *)
Lemma forOf_all_failed m msg evs :
  (forall results r (st : St W),
      iteration rt m results r st =
      (inr (results ++ [failed r msg]), addTrace evs st)) ->
  forall rs results (st : St W),
    forOf rt m rs results st =
    (inr (results ++ map (fun r => failed r msg) rs),
     addTrace (List.concat (map (fun _ => evs) rs)) st).
Proof.
  intros Hit. induction rs as [|r rs IH]; intros results st; simpl.
  - unfold ret. now rewrite app_nil_r, addTrace_nil.
  - unfold bind. rewrite Hit, IH, addTrace_addTrace.
    now rewrite <- app_assoc.
Qed.

Lemma base64Branch_valid m b64 phone (st : St W) b bs :
  base64Regex_test (cleanBase64 b64) = true ->
  decode (cleanBase64 b64) = b :: bs ->
  base64Branch rt m b64 phone st =
  (name <- (if truthy (filename m)
            then ret (orElse (filename m) [])
            else
              now <- call (fun w => let (n, w') := dateNow rt w in (inr n, w')) ;;
              ret (js "image_" ++ decimal now ++ js "."
                   ++ extToString (p_extension (parsedOf b64)))) ;;
   sendMedia rt m phone
     {| m_mimetype := orElse (mimetype m) (p_mimetype (parsedOf b64));
        m_data := p_data (parsedOf b64);
        m_filename := name |}
     (sanitizeMessage (Some (orElse (orOpt (caption m) (message m)) []))))
    (addTrace [EvDecode (cleanBase64 b64); EvDecode (cleanBase64 b64)] st).
Proof.
  intros Hv Hd. unfold base64Branch at 1. unfold bind at 1.
  rewrite parseBase64Image_eq, Hv.
  unfold bind at 1. unfold try_catch, bufferFrom.
  unfold bind at 1. unfold bind at 1. unfold emit, ret at 1.
  cbv beta iota. change (p_data (parsedOf b64)) with (cleanBase64 b64).
  rewrite Hd. unfold ret at 1. cbv beta iota.
  f_equal. unfold addTrace. simpl. now rewrite <- app_assoc.
Qed.

Lemma encodedPngJob_iteration t o results r (st : St W) :
  exists e st',
    iteration rt (encodedPngJob t o) results r st = (inr (results ++ [e]), st') /\
    entryFor r e /\
    sends st' =
    sends st ++
    [EvSend (phoneNumberOf r)
            (MediaContent (pngMedia (fst (dateNow rt (world st)))))
            {| o_caption := None; o_options := o |}].
Proof.
  rewrite iteration_eq.
  change (deliver rt (encodedPngJob t o) (phoneNumberOf r) st) with
    (base64Branch rt (encodedPngJob t o)
       (js "data:image/png;base64,aGVsbG8=") (phoneNumberOf r) st).
  rewrite (base64Branch_valid _ _ _ _ 104 (js "ello")) by reflexivity.
  set (st1 := addTrace _ st).
  change (truthy (filename (encodedPngJob t o))) with false.
  cbv iota. unfold bind, call.
  change (world st1) with (world st).
  destruct (dateNow rt (world st)) as [now w1].
  unfold ret. cbv beta iota.
  change (sanitizeMessage _) with (@nil N).
  unfold sendMedia, clientSend, bind, emit, call. cbv beta iota.
  simpl world. simpl fst.
  match goal with
  | |- context [sendMessage rt ?a ?b ?c ?w] =>
      destruct (sendMessage rt a b c w) as [[e|id] w2]
  end.
  - eexists _, _. split; [reflexivity|]. split; [right; eexists; reflexivity|].
    unfold sends. simpl trace. rewrite !filter_app. simpl.
    rewrite app_nil_r. reflexivity.
  - eexists _, _. split; [reflexivity|]. split; [left; eexists; reflexivity|].
    unfold sends. simpl trace. rewrite !filter_app. simpl.
    rewrite !app_nil_r. reflexivity.
Qed.

(** The caption key is present exactly when the caption is not empty. *)
Lemma sendMedia_trace m phone media cap (st : St W) :
  trace (snd (sendMedia rt m phone media cap st)) =
  trace st ++
  [EvSend phone (MediaContent media)
          {| o_caption := match cap with [] => None | c => Some c end;
             o_options := options m |}].
Proof.
  unfold sendMedia, clientSend, bind, emit, call.
  destruct cap as [|c cap]; cbv beta iota; simpl world;
    match goal with
    | |- context [sendMessage rt ?a ?b ?c ?w] =>
        destruct (sendMessage rt a b c w) as [[e|id] w2]
    end; reflexivity.
Qed.

(** In the encoded branch the caption sent is the sanitized
    caption-or-body fallback, and its key is present only if that is not
    empty. *)
Lemma base64Branch_trace m b64 phone (st : St W) b bs :
  base64Regex_test (cleanBase64 b64) = true ->
  decode (cleanBase64 b64) = b :: bs ->
  exists media,
    trace (snd (base64Branch rt m b64 phone st)) =
    trace st ++
    [EvDecode (cleanBase64 b64); EvDecode (cleanBase64 b64);
     EvSend phone (MediaContent media)
       {| o_caption :=
            match sanitizeMessage
                    (Some (orElse (orOpt (caption m) (message m)) []))
            with
            | [] => None
            | cap => Some cap
            end;
          o_options := options m |}].
Proof.
  intros Hv Hd. rewrite (base64Branch_valid m b64 phone st b bs Hv Hd).
  generalize (sanitizeMessage (Some (orElse (orOpt (caption m) (message m)) []))).
  intros cap. unfold bind at 1.
  destruct (truthy (filename m)).
  - unfold ret at 1. eexists. rewrite sendMedia_trace.
    unfold addTrace. simpl trace. rewrite <- app_assoc. simpl app.
    destruct cap; reflexivity.
  - unfold bind at 1. unfold call at 1.
    destruct (dateNow rt (world (addTrace _ st))) as [now w1].
    unfold ret at 1. eexists. rewrite sendMedia_trace.
    simpl trace. rewrite <- app_assoc. simpl app.
    destruct cap; reflexivity.
Qed.

Lemma encodedPngJob_forOf t o rs : forall results (st : St W),
  exists es st' calls,
    forOf rt (encodedPngJob t o) rs results st = (inr (results ++ es), st') /\
    sends st' = sends st ++ calls /\
    Forall2 (fun r ev =>
               exists now,
                 ev = EvSend (phoneNumberOf r) (MediaContent (pngMedia now))
                             {| o_caption := None; o_options := o |})
            rs calls.
Proof.
  induction rs as [|r rs IH]; intros results st.
  - exists [], st, []. simpl. unfold ret. rewrite !app_nil_r.
    repeat split. constructor.
  - destruct (encodedPngJob_iteration t o results r st)
      as (e & st1 & Hit & _ & Hs1).
    destruct (IH (results ++ [e]) st1) as (es & st2 & calls & Hfor & Hs2 & Hc).
    eexists (e :: es), st2, (_ :: calls). simpl. unfold bind.
    rewrite Hit, Hfor, Hs2, Hs1, <- !app_assoc. simpl.
    repeat split. constructor; [|exact Hc]. eexists. reflexivity.
Qed.

(** C8.  For the encoded PNG job, whatever its recipients and options,
    dispatch makes one transport call per recipient, in order, each with
    a media object of MIME type [image/png], the payload as given and a
    file name ending in [.png], and each without a caption field. *)
Theorem encoded_png_job_sends_media_without_caption
  t o recipients (st : St W) :
  recipientsOf t = inr recipients ->
  exists es st' calls,
    sendWhatsAppMessage rt (encodedPngJob t o) st = (inr es, st') /\
    sends st' = sends st ++ calls /\
    Forall2 (fun r ev =>
               exists now,
                 ev = EvSend (phoneNumberOf r) (MediaContent (pngMedia now))
                             {| o_caption := None; o_options := o |})
            recipients calls /\
    (forall now,
       m_mimetype (pngMedia now) = js "image/png" /\
       m_data (pngMedia now) = js "aGVsbG8=" /\
       endsWith (js ".png") (m_filename (pngMedia now)) = true) /\
    (forall m b64 phone (st0 : St W) b bs,
       base64Regex_test (cleanBase64 b64) = true ->
       decode (cleanBase64 b64) = b :: bs ->
       exists media,
         trace (snd (base64Branch rt m b64 phone st0)) =
         trace st0 ++
         [EvDecode (cleanBase64 b64); EvDecode (cleanBase64 b64);
          EvSend phone (MediaContent media)
            {| o_caption :=
                 match sanitizeMessage
                         (Some (orElse (orOpt (caption m) (message m)) []))
                 with
                 | [] => None
                 | cap => Some cap
                 end;
               o_options := options m |}]).
Proof.
  intros Hto.
  destruct (encodedPngJob_forOf t o recipients [] st)
    as (es & st' & calls & Hfor & Hs & Hc).
  exists es, st', calls.
  rewrite (sendWhatsAppMessage_eq rt (encodedPngJob t o) recipients st Hto).
  split; [exact Hfor|]. split; [exact Hs|]. split; [exact Hc|]. split.
  - intros now. repeat split.
    unfold pngMedia, m_filename. rewrite app_assoc. apply endsWith_app.
  - intros m b64 phone st0 b bs Hv Hd. eapply base64Branch_trace; eauto.
Qed.

Lemma typeIs_media_not_base64 m :
  typeIs m "media" = true -> typeIs m "base64" = false.
Proof.
  unfold typeIs. destruct (type m) as [ty|]; [|discriminate].
  intros H. apply str_eqb_eq in H. now subst ty.
Qed.

Lemma deliver_tagWithoutPayload m phone (st : St W) :
  tagWithoutPayload m -> deliver rt m phone st = textBranch rt m phone st.
Proof.
  intros [[Ht Hp]|[Ht Hp]]; unfold deliver.
  - rewrite Ht, Hp. simpl.
    destruct (typeIs m "media" && truthy (mediaUrl m)) eqn:E; [|reflexivity].
    apply andb_true_iff in E. destruct E as [E _].
    apply typeIs_media_not_base64 in E. congruence.
  - rewrite (typeIs_media_not_base64 _ Ht), Ht, Hp. reflexivity.
Qed.

Lemma concat_nils {A B} (l : list A) :
  List.concat (map (fun _ => @nil B) l) = [].
Proof. induction l; simpl; auto. Qed.

(** C10.  A media tag without its payload selects the text branch: the
    turn of every recipient is the text turn, which fails with the
    empty-after-sanitization error and sends nothing when the sanitized
    [message] is empty, and otherwise sends the sanitized [message] as
    plain text. *)
Theorem tag_without_payload_is_text m :
  tagWithoutPayload m ->
  (forall phone (st : St W),
      deliver rt m phone st = textBranch rt m phone st) /\
  (sanitizeMessage (message m) = [] ->
   forall recipients (st : St W),
     recipientsOf (to m) = inr recipients ->
     sendWhatsAppMessage rt m st =
     (inr (map (fun r => failed r (js "Message is empty after sanitization"))
               recipients), st)) /\
  (forall c s, sanitizeMessage (message m) = c :: s ->
   forall phone (st : St W),
     deliver rt m phone st =
     clientSend rt phone (TextContent (c :: s))
       {| o_caption := None; o_options := options m |} st).
Proof.
  intros Htag. split; [|split].
  - intros phone st. now apply deliver_tagWithoutPayload.
  - intros Hempty recipients st Hto.
    rewrite (sendWhatsAppMessage_eq rt m recipients st Hto).
    rewrite (forOf_all_failed m
               (js "Message is empty after sanitization") []).
    + now rewrite concat_nils, addTrace_nil.
    + intros results r st0. rewrite iteration_eq.
      rewrite deliver_tagWithoutPayload by exact Htag.
      unfold textBranch. rewrite Hempty. unfold throw.
      now rewrite addTrace_nil.
  - intros c s Hs phone st.
    rewrite deliver_tagWithoutPayload by exact Htag.
    unfold textBranch. now rewrite Hs.
Qed.

Lemma no_send_among_decodes {A} c (l : list A) :
  filter isSend (List.concat (map (fun _ => [EvDecode c; EvDecode c]) l)) = [].
Proof. induction l; simpl; auto. Qed.

(** C3, as the code has it.  For a job that selects the encoded mode
    with a payload that passes the alphabet check and decodes to no
    byte, the parse itself succeeds; it is the dispatcher that then
    records, for every recipient, the failure "Failed to decode base64
    data: Error: Decoded image buffer is empty", and no transport call
    is made. *)
Theorem empty_decode_fails_in_dispatch m b64 recipients (st : St W) :
  typeIs m "base64" = true ->
  base64Data m = Some b64 ->
  b64 <> [] ->
  base64Regex_test (cleanBase64 b64) = true ->
  decode (cleanBase64 b64) = [] ->
  recipientsOf (to m) = inr recipients ->
  fst (parseBase64Image b64 st) = inr (Some (parsedOf b64)) /\
  exists st',
    sendWhatsAppMessage rt m st =
    (inr (map (fun r =>
                 failed r (js "Failed to decode base64 data: Error: Decoded image buffer is empty"))
              recipients), st') /\
    sends st' = sends st /\
    world st' = world st.
Proof.
  intros Ht Hd Hne Hv He Hto. split.
  - now rewrite parseBase64Image_eq, Hv.
  - rewrite (sendWhatsAppMessage_eq rt m recipients st Hto).
    rewrite (forOf_all_failed m
               (js "Failed to decode base64 data: Error: Decoded image buffer is empty")
               [EvDecode (cleanBase64 b64); EvDecode (cleanBase64 b64)]).
    + eexists. split; [reflexivity|]. split; [|reflexivity].
      rewrite sends_addTrace, no_send_among_decodes. apply app_nil_r.
    + intros results r st0. rewrite iteration_eq. unfold deliver.
      rewrite Ht, Hd.
      assert (Htr : truthy (Some b64) = true)
        by (destruct b64; [contradiction|reflexivity]).
      assert (Hor : orElse (Some b64) [] = b64)
        by (destruct b64; reflexivity).
      rewrite Htr, Hor. cbn [andb].
      rewrite (base64Branch_empty rt) by assumption.
      reflexivity.
Qed.

(** C5.  A body that fails the alphabet check makes [isValidBase64]
    answer [false] and [parseBase64Image] return [null], and both leave
    the state, with its trace of decoder calls, untouched: the decoder
    is not run on it. *)
Theorem invalid_base64_rejected_before_decode s (st : St W) :
  base64Regex_test (cleanBase64 s) = false ->
  isValidBase64 (cleanBase64 s) st = (inr false, st) /\
  parseBase64Image s st = (inr None, st) /\
  filter isDecode (trace (snd (parseBase64Image s st))) =
  filter isDecode (trace st).
Proof.
  intros H. rewrite isValidBase64_eq, parseBase64Image_eq, H.
  repeat split.
Qed.

End DispatcherModes.

(** ** Queue consumer *)

Section Consumer.

Context {W : Type} (rt : Runtime W).

Lemma keeps_ret {A} (a : A) : keepsChannel (W := W) (ret a).
Proof. intros st. reflexivity. Qed.

Lemma keeps_throw {A} e : keepsChannel (W := W) (A := A) (throw e).
Proof. intros st. reflexivity. Qed.

Lemma keeps_emit ev : keepsChannel (W := W) (emit ev).
Proof. intros st. reflexivity. Qed.

Lemma keeps_call {A} (f : W -> (Exn + A) * W) : keepsChannel (call f).
Proof. intros st. unfold call. now destruct (f (world st)). Qed.

Lemma keeps_pure {A} (x : Exn + A) : keepsChannel (W := W) (fun st => (x, st)).
Proof. intros st. reflexivity. Qed.

Lemma keeps_bind {A B} (c : M W A) (k : A -> M W B) :
  keepsChannel c -> (forall a, keepsChannel (k a)) -> keepsChannel (bind c k).
Proof.
  intros Hc Hk st. unfold bind. specialize (Hc st).
  destruct (c st) as [[e|a] st1]; simpl in *; [exact Hc|].
  now rewrite Hk.
Qed.

Lemma keeps_try_catch {A} (c : M W A) (h : Exn -> M W A) :
  keepsChannel c -> (forall e, keepsChannel (h e)) ->
  keepsChannel (try_catch c h).
Proof.
  intros Hc Hh st. unfold try_catch. specialize (Hc st).
  destruct (c st) as [[e|a] st1]; simpl in *; [|exact Hc].
  now rewrite Hh.
Qed.

Ltac keeps :=
  repeat first
    [ apply keeps_ret | apply keeps_throw | apply keeps_emit
    | apply keeps_call | apply keeps_pure
    | apply keeps_bind; [|intros ?] | apply keeps_try_catch; [|intros ?]
    | match goal with
      | |- keepsChannel (if ?b then _ else _) => destruct b
      | |- keepsChannel (match ?x with _ => _ end) => destruct x
      end ].

Lemma keeps_deliver m phone : keepsChannel (deliver rt m phone).
Proof.
  unfold deliver, base64Branch, mediaBranch, textBranch, parseBase64Image,
    isValidBase64, bufferFrom, sendMedia, clientSend.
  keeps.
Qed.

Lemma keeps_forOf m rs : forall results, keepsChannel (forOf rt m rs results).
Proof.
  induction rs as [|r rs IH]; intros results; simpl.
  - apply keeps_ret.
  - apply keeps_bind; [|intros a; apply IH].
    unfold iteration. apply keeps_try_catch; [|intros e; apply keeps_ret].
    apply keeps_bind; [apply keeps_deliver|intros id].
    apply keeps_bind; [apply keeps_emit|intros _; apply keeps_ret].
Qed.

Lemma keeps_sendWhatsAppMessage m : keepsChannel (sendWhatsAppMessage rt m).
Proof.
  unfold sendWhatsAppMessage.
  apply keeps_try_catch; [|intros e; apply keeps_throw].
  apply keeps_bind; [apply keeps_pure|intros rs; apply keeps_forOf].
Qed.

Lemma channelDo_live ev (st : St W) :
  rabbitChannel st = true -> channelDo ev st = (inr tt, addTrace [ev] st).
Proof. intros H. unfold channelDo. now rewrite H. Qed.

(** C2.  With the channel handle set, the consumer callback answers each
    delivery with exactly one broker verdict.  Content that does not
    parse, that parses to [null], or whose job fails
    [validateMessageData] is nacked without requeue and nothing else
    happens; a valid job met while [client.info] is unset is nacked with
    requeue and nothing else happens; a valid job whose dispatch returns,
    whatever its entries, is acked after the dispatch; a valid job whose
    dispatch throws is nacked without requeue. *)
Theorem consumer_routing content (st : St W) :
  rabbitChannel st = true ->
  (forall e, JSON_parse rt content = inl e ->
     onMessage rt (Some content) st = (inr tt, addTrace [EvNack false false] st)) /\
  (JSON_parse rt content = inr JNull ->
     onMessage rt (Some content) st = (inr tt, addTrace [EvNack false false] st)) /\
  (forall m, JSON_parse rt content = inr (JObject m) ->
     validateMessageData m = false ->
     onMessage rt (Some content) st = (inr tt, addTrace [EvNack false false] st)) /\
  (forall m, JSON_parse rt content = inr (JObject m) ->
     validateMessageData m = true ->
     clientInfo rt (world st) = false ->
     onMessage rt (Some content) st = (inr tt, addTrace [EvNack false true] st)) /\
  (forall m es st', JSON_parse rt content = inr (JObject m) ->
     validateMessageData m = true ->
     clientInfo rt (world st) = true ->
     sendWhatsAppMessage rt m st = (inr es, st') ->
     onMessage rt (Some content) st = (inr tt, addTrace [EvAck] st')) /\
  (forall m e st', JSON_parse rt content = inr (JObject m) ->
     validateMessageData m = true ->
     clientInfo rt (world st) = true ->
     sendWhatsAppMessage rt m st = (inl e, st') ->
     onMessage rt (Some content) st = (inr tt, addTrace [EvNack false false] st')).
Proof.
  intros Hch.
  assert (K : forall m, rabbitChannel (snd (sendWhatsAppMessage rt m st)) = true).
  { intros m. now rewrite keeps_sendWhatsAppMessage. }
  unfold onMessage, try_catch, bind, throw, read.
  repeat split.
  - intros e ->. now apply channelDo_live.
  - intros ->. now apply channelDo_live.
  - intros m -> Hv. cbv beta iota. rewrite Hv. cbn [negb].
    now rewrite channelDo_live.
  - intros m -> Hv Hr. cbv beta iota. rewrite Hv. cbn [negb]. cbv beta iota.
    rewrite Hr. cbn [negb]. cbv beta iota.
    now rewrite channelDo_live.
  - intros m es st' -> Hv Hr Hs. cbv beta iota. rewrite Hv. cbn [negb]. cbv beta iota.
    rewrite Hr. cbn [negb]. cbv beta iota.
    specialize (K m). rewrite Hs in *. cbn [snd] in K.
    now rewrite channelDo_live.
  - intros m e st' -> Hv Hr Hs. cbv beta iota. rewrite Hv. cbn [negb]. cbv beta iota.
    rewrite Hr. cbn [negb]. cbv beta iota.
    specialize (K m). rewrite Hs in *. cbn [snd] in K.
    now apply channelDo_live.
Qed.

End Consumer.

Example twoRecipients_results :
  fst (sendWhatsAppMessage (demo true) twoRecipients st0) =
  inr [ sent (js "15551230000@c.us") (js "msg0");
        failed (js "bad") (js "invalid wid") ].
Proof. reflexivity. Qed.

(** A refused recipient in first place does not stop the loop. *)
Example refused_first_results :
  fst (sendWhatsAppMessage (demo true)
         (job (ToStr (js "bad, 15551230000")) (Some (js "hi")) None None) st0) =
  inr [ failed (js "bad") (js "invalid wid");
        sent (js "15551230000@c.us") (js "msg0") ].
Proof. reflexivity. Qed.

Example twoRecipients_trace :
  trace (snd (sendWhatsAppMessage (demo true) twoRecipients st0)) =
  [ EvSend (js "15551230000@c.us") (TextContent (js "hi"))
           {| o_caption := None; o_options := None |};
    EvDelay 1000;
    EvSend (js "bad@c.us") (TextContent (js "hi"))
           {| o_caption := None; o_options := None |} ].
Proof. reflexivity. Qed.

Lemma sendWhatsAppMessage_one_entry_per_recipient_witness :
  exists es st',
    sendWhatsAppMessage (demo true) twoRecipients st0 = (inr es, st') /\
    Forall2 entryFor [js "15551230000"; js "bad"] es /\
    List.length es = 2%nat.
Proof.
  destruct (sendWhatsAppMessage_one_entry_per_recipient
              (demo true) twoRecipients [js "15551230000"; js "bad"] st0
              eq_refl)
    as (es & st' & H1 & H2 & H3 & _).
  exists es, st'. repeat split; assumption.
Defined.

Lemma consumer_routing_witness :
  onMessage (demo true) (Some (js "{")) st0 =
    (inr tt, addTrace [EvNack false false] st0) /\
  onMessage (demo true) (Some (js "null")) st0 =
    (inr tt, addTrace [EvNack false false] st0) /\
  onMessage (demo true) (Some (js "{}")) st0 =
    (inr tt, addTrace [EvNack false false] st0) /\
  onMessage (demo false) (Some (js "two")) st0 =
    (inr tt, addTrace [EvNack false true] st0) /\
  onMessage (demo true) (Some (js "refused")) st0 =
    (inr tt,
     addTrace [EvAck] (snd (sendWhatsAppMessage (demo true) allRefused st0))) /\
  onMessage (demo true) (Some (js "numeric")) st0 =
    (inr tt, addTrace [EvNack false false] st0).
Proof.
  split; [|split; [|split; [|split; [|split]]]].
  - destruct (consumer_routing (demo true) (js "{") st0 eq_refl) as (H & _).
    eapply H. reflexivity.
  - destruct (consumer_routing (demo true) (js "null") st0 eq_refl)
      as (_ & H & _).
    apply H. reflexivity.
  - destruct (consumer_routing (demo true) (js "{}") st0 eq_refl)
      as (_ & _ & H & _).
    apply (H noContent); reflexivity.
  - destruct (consumer_routing (demo false) (js "two") st0 eq_refl)
      as (_ & _ & _ & H & _).
    apply (H twoRecipients); reflexivity.
  - destruct (consumer_routing (demo true) (js "refused") st0 eq_refl)
      as (_ & _ & _ & _ & H & _).
    apply (H allRefused
             [failed (js "bad1") (js "invalid wid");
              failed (js "bad2") (js "invalid wid")]); reflexivity.
  - destruct (consumer_routing (demo true) (js "numeric") st0 eq_refl)
      as (_ & _ & _ & _ & _ & H).
    apply (H numericTo
             (typeError (js "messageData.to.split is not a function")));
      reflexivity.
Defined.

(** C3, as the claim words it, fails: a data URL with an empty body
    passes the alphabet check, decodes to no byte, and
    [parseBase64Image] still returns a descriptor. *)
Lemma parseBase64Image_accepts_empty_decode :
  base64Regex_test (cleanBase64 (js "data:image/png;base64,")) = true /\
  decode (cleanBase64 (js "data:image/png;base64,")) = [] /\
  fst (parseBase64Image (js "data:image/png;base64,") st0) =
  inr (Some {| p_mimetype := js "image/png"; p_data := [];
               p_extension := ExtString (js "png") |}).
Proof. split; [|split]; reflexivity. Qed.

Lemma empty_decode_fails_in_dispatch_witness :
  exists st',
    sendWhatsAppMessage (demo true) emptyPayload st0 =
    (inr [ failed (js "15551230000")
             (js "Failed to decode base64 data: Error: Decoded image buffer is empty");
           failed (js "15551230001")
             (js "Failed to decode base64 data: Error: Decoded image buffer is empty") ],
     st') /\
    sends st' = [].
Proof.
  destruct (empty_decode_fails_in_dispatch (demo true) emptyPayload (js "=")
              [js "15551230000"; js "15551230001"] st0)
    as (_ & st' & H1 & H2 & _); try reflexivity.
  - discriminate.
  - exists st'. split; [exact H1|exact H2].
Defined.

Lemma invalid_base64_rejected_before_decode_witness :
  parseBase64Image (js "data:image/png;base64,aGVs*G8=") st0 = (inr None, st0).
Proof.
  apply (invalid_base64_rejected_before_decode
           (js "data:image/png;base64,aGVs*G8=") st0).
  reflexivity.
Defined.

Lemma encoded_png_job_sends_media_without_caption_witness :
  exists es st' calls,
    sendWhatsAppMessage (demo true)
      (encodedPngJob (ToArr [js "15551230000"]) None) st0 = (inr es, st') /\
    sends st' = calls /\
    Forall2 (fun r ev =>
               exists now,
                 ev = EvSend (phoneNumberOf r) (MediaContent (pngMedia now))
                             {| o_caption := None; o_options := None |})
            [js "15551230000"] calls.
Proof.
  destruct (encoded_png_job_sends_media_without_caption (demo true)
              (ToArr [js "15551230000"]) None [js "15551230000"] st0 eq_refl)
    as (es & st' & calls & H1 & H2 & H3 & _).
  exists es, st', calls. split; [exact H1|]. split; [exact H2|exact H3].
Defined.

Example encoded_png_job_call :
  sends (snd (sendWhatsAppMessage (demo true)
                (encodedPngJob (ToArr [js "15551230000"]) None) st0)) =
  [ EvSend (js "15551230000@c.us")
      (MediaContent {| m_mimetype := js "image/png"; m_data := js "aGVsbG8=";
                       m_filename := js "image_1700000000000.png" |})
      {| o_caption := None; o_options := None |} ].
Proof. reflexivity. Qed.

Lemma tag_without_payload_is_text_witness :
  deliver (demo true) tagOnly (js "15551230000@c.us") st0 =
  clientSend (demo true) (js "15551230000@c.us") (TextContent (js "hi"))
    {| o_caption := None; o_options := None |} st0.
Proof.
  refine (proj2 (proj2 (tag_without_payload_is_text (demo true) tagOnly _))
            104 [105] eq_refl _ st0).
  left. split; reflexivity.
Defined.

(** * Further properties *)

(** ** Strings, again *)

Lemma Subseq_refl {A} (l : list A) : Subseq l l.
Proof. induction l; [apply SubseqNil|now apply SubseqKeep]. Qed.

Lemma Subseq_nil {A} (l : list A) : Subseq [] l.
Proof. induction l; [apply SubseqNil|now apply SubseqSkip]. Qed.

Lemma Subseq_trans {A} (l m n : list A) :
  Subseq l m -> Subseq m n -> Subseq l n.
Proof.
  intros H1 H2. revert l H1.
  induction H2; intros k H1.
  - exact H1.
  - apply SubseqSkip. auto.
  - inversion H1; subst; [apply SubseqSkip|apply SubseqKeep]; auto.
Qed.

Lemma Subseq_length {A} (l m : list A) :
  Subseq l m -> (List.length l <= List.length m)%nat.
Proof. induction 1; simpl; lia. Qed.

Lemma Subseq_app {A} (l1 m1 l2 m2 : list A) :
  Subseq l1 m1 -> Subseq l2 m2 -> Subseq (l1 ++ l2) (m1 ++ m2).
Proof.
  induction 1; simpl; intros H2.
  - exact H2.
  - apply SubseqSkip. auto.
  - apply SubseqKeep. auto.
Qed.

Lemma Subseq_filter {A} (p : A -> bool) (l : list A) : Subseq (filter p l) l.
Proof.
  induction l as [|x l IH]; simpl; [apply SubseqNil|].
  destruct (p x); [apply SubseqKeep|apply SubseqSkip]; exact IH.
Qed.

Lemma Subseq_dropWhile p (s : jsstring) : Subseq (dropWhile p s) s.
Proof.
  induction s as [|c s IH]; simpl; [apply SubseqNil|].
  destruct (p c); [apply SubseqSkip; exact IH|apply Subseq_refl].
Qed.

Lemma Subseq_trimEnd (s : jsstring) : Subseq (trimEnd s) s.
Proof.
  induction s as [|c s IH]; simpl; [apply SubseqNil|].
  destruct (trimEnd s) as [|y t].
  - destruct (isWhiteSpace c); [apply SubseqSkip; exact IH|].
    apply SubseqKeep. exact IH.
  - apply SubseqKeep. exact IH.
Qed.

Lemma includes_self (p : jsstring) : includes p p = true.
Proof.
  destruct p as [|x p]; [reflexivity|].
  simpl. rewrite N.eqb_refl. simpl.
  pose proof (startsWith_app p []) as H. rewrite app_nil_r in H.
  now rewrite H.
Qed.

Lemma includes_app_r (p s : jsstring) : includes p (s ++ p) = true.
Proof.
  induction s as [|c s IH]; simpl app; [apply includes_self|].
  simpl. rewrite IH. apply orb_true_r.
Qed.

Lemma trimStart_fix (s : jsstring) :
  match s with [] => True | c :: _ => isWhiteSpace c = false end ->
  trimStart s = s.
Proof.
  destruct s as [|c s]; [reflexivity|]. intros H.
  unfold trimStart. simpl. now rewrite H.
Qed.

Lemma trimEnd_fix (s : jsstring) :
  match rev s with [] => True | c :: _ => isWhiteSpace c = false end ->
  trimEnd s = s.
Proof.
  intros H. rewrite trimEnd_rev.
  destruct (rev s) as [|c r] eqn:E.
  - simpl. apply (f_equal (@rev N)) in E. rewrite rev_involutive in E.
    now rewrite E.
  - simpl. rewrite H. rewrite <- E. apply rev_involutive.
Qed.

(** A second sanitizing pass changes nothing. *)
Lemma sanitize_twice (x : option jsstring) :
  sanitizeMessage (Some (sanitizeMessage x)) = sanitizeMessage x.
Proof.
  apply sanitizeMessage_fixpoint.
  - intros u Hu. apply In_sanitizeMessage in Hu. tauto.
  - destruct x as [s|]; [|reflexivity].
    rewrite sanitizeMessage_filter. apply trim_idem.
Qed.

(** ** Sanitizer: what it keeps *)

(** X1.  The texts the sanitizer leaves alone are exactly those without a unit
    of the removed classes and without white space at either end. *)
Theorem sanitizeMessage_fixed_points (s : jsstring) :
  sanitizeMessage (Some s) = s <->
  (forall c, In c s -> isControl c = false /\ isBOM c = false) /\
  match s with [] => True | c :: _ => isWhiteSpace c = false end /\
  match rev s with [] => True | c :: _ => isWhiteSpace c = false end.
Proof.
  split.
  - intros H. split; [|split].
    + intros c Hc. rewrite <- H in Hc.
      apply In_sanitizeMessage in Hc. tauto.
    + pose proof (trim_head (filter (fun c => negb (isControl c || isBOM c)) s))
        as T.
      rewrite <- sanitizeMessage_filter, H in T. exact T.
    + pose proof (trim_last (filter (fun c => negb (isControl c || isBOM c)) s))
        as T.
      rewrite <- sanitizeMessage_filter, H in T. exact T.
  - intros (K & Hh & Hl). apply sanitizeMessage_fixpoint; [exact K|].
    unfold trim. rewrite trimStart_fix by exact Hh. now apply trimEnd_fix.
Qed.

Lemma sanitizeMessage_fixed_points_witness :
  sanitizeMessage (Some (js "hi there")) = js "hi there".
Proof.
  apply (proj2 (sanitizeMessage_fixed_points (js "hi there"))).
  split; [|split; reflexivity].
  intros c Hc. vm_compute in Hc.
  repeat (destruct Hc as [<-|Hc]; [split; reflexivity|]). destruct Hc.
Defined.

(** X2.  Sanitizing only deletes: the result is the input with some units
    left out, in the same order, so it is never longer. *)
Theorem sanitizeMessage_only_deletes (s : jsstring) :
  Subseq (sanitizeMessage (Some s)) s /\
  (List.length (sanitizeMessage (Some s)) <= List.length s)%nat.
Proof.
  assert (H : Subseq (sanitizeMessage (Some s)) s).
  { rewrite sanitizeMessage_filter. unfold trim, trimStart.
    eapply Subseq_trans; [apply Subseq_trimEnd|].
    eapply Subseq_trans; [apply Subseq_dropWhile|].
    apply Subseq_filter. }
  split; [exact H|]. now apply Subseq_length.
Qed.

(** ** Address resolution *)

(** X3.  The resolved address always contains [@c.us]; resolving twice is
    resolving once; an address that has [@c.us] anywhere is kept as it
    is, and any other gets the suffix appended. *)
Theorem phoneNumberOf_resolved (r : jsstring) :
  includes (js "@c.us") (phoneNumberOf r) = true /\
  phoneNumberOf (phoneNumberOf r) = phoneNumberOf r /\
  (phoneNumberOf r = r \/ phoneNumberOf r = r ++ js "@c.us").
Proof.
  assert (H : includes (js "@c.us") (phoneNumberOf r) = true).
  { unfold phoneNumberOf.
    destruct (includes (js "@c.us") r) eqn:E; [exact E|].
    apply includes_app_r. }
  split; [exact H|]. split.
  - unfold phoneNumberOf at 1. now rewrite H.
  - unfold phoneNumberOf. destruct (includes (js "@c.us") r); auto.
Qed.

(** ** Dispatcher: the shape of every turn *)

Lemma quiet_filter (p : Event -> bool) (pre : list Event) :
  (forall ev, quiet ev = true -> p ev = false) ->
  forallb quiet pre = true -> filter p pre = [].
Proof.
  intros Hp. induction pre as [|ev pre IH]; simpl; [reflexivity|].
  intros H. apply andb_true_iff in H. destruct H as [H1 H2].
  rewrite (Hp ev H1). now apply IH.
Qed.

Lemma quiet_not_send ev : quiet ev = true -> isSend ev = false.
Proof. now destruct ev. Qed.

Lemma quiet_not_delay ev : quiet ev = true -> isDelay ev = false.
Proof. now destruct ev. Qed.

Lemma quiet_not_verdict ev : quiet ev = true -> isVerdict ev = false.
Proof. now destruct ev. Qed.

Lemma sanitized_of_sanitize x c t :
  sanitizeMessage x = c :: t -> sanitized (c :: t).
Proof.
  intros E. split; [discriminate|].
  rewrite <- E. apply sanitize_twice.
Qed.

Section Turns.

Context {W : Type} (rt : Runtime W).

Lemma clientSend_eq phone c o (st : St W) :
  clientSend rt phone c o st =
  (fst (sendMessage rt phone c o (world st)),
   {| world := snd (sendMessage rt phone c o (world st));
      trace := trace st ++ [EvSend phone c o];
      rabbitChannel := rabbitChannel st |}).
Proof.
  unfold clientSend, bind, emit, call. cbv beta iota. simpl world.
  now destruct (sendMessage rt phone c o (world st)).
Qed.

Lemma sendMedia_eq m phone media cap (st : St W) :
  sendMedia rt m phone media cap st =
  clientSend rt phone (MediaContent media) (captionOpts m cap) st.
Proof. now destruct cap. Qed.

Lemma send_shape m phone pre c o (st0 st : St W) res st' :
  trace st = trace st0 ++ pre ->
  forallb quiet pre = true ->
  wellFormedSend c o -> o_options o = options m ->
  clientSend rt phone c o st = (res, st') ->
  exists evs,
    trace st' = trace st0 ++ evs /\ deliverShape m phone res evs.
Proof.
  intros Ht Hq Hw Ho. rewrite clientSend_eq. intros [= <- <-]. simpl.
  exists (pre ++ [EvSend phone c o]). split.
  - now rewrite Ht, app_assoc.
  - right. exists pre, c, o. auto.
Qed.

Lemma captionOpts_wellFormed m media x :
  wellFormedSend (MediaContent media) (captionOpts m (sanitizeMessage x)).
Proof.
  unfold captionOpts. simpl.
  destruct (sanitizeMessage x) as [|c t] eqn:E; [exact I|].
  eapply sanitized_of_sanitize; eauto.
Qed.

Lemma throw_shape m phone pre (st0 st' : St W) e :
  trace st' = trace st0 ++ pre -> forallb quiet pre = true ->
  exists evs,
    trace st' = trace st0 ++ evs /\ deliverShape m phone (inl e) evs.
Proof.
  intros Ht Hq. exists pre. split; [exact Ht|].
  left. split; [eexists; reflexivity|exact Hq].
Qed.

Lemma textBranch_shape m phone (st : St W) res st' :
  textBranch rt m phone st = (res, st') ->
  exists evs, trace st' = trace st ++ evs /\ deliverShape m phone res evs.
Proof.
  unfold textBranch.
  destruct (sanitizeMessage (message m)) as [|c t] eqn:E.
  - intros [= <- <-]. apply (throw_shape m phone []); auto.
    now rewrite app_nil_r.
  - apply (send_shape m phone []); auto.
    + now rewrite app_nil_r.
    + split; [reflexivity|]. eapply sanitized_of_sanitize; eauto.
Qed.

Lemma mediaBranch_eq m url phone (st : St W) :
  mediaBranch rt m url phone st =
  match fetch rt url (world st) with
  | (inl e, w1) => (inl e, withWorld w1 (addTrace [EvFetch url] st))
  | (inr resp, w1) =>
      if ok resp then
        match arrayBuffer resp with
        | inl e => (inl e, withWorld w1 (addTrace [EvFetch url] st))
        | inr buffer =>
            clientSend rt phone (MediaContent (remoteMedia m url resp buffer))
              (captionOpts m (sanitizeMessage (Some (orElse (caption m) []))))
              (withWorld w1 (addTrace [EvFetch url] st))
        end
      else
        (inl (newError (js "Failed to fetch media: " ++ decimal (status resp)
                        ++ js " " ++ statusText resp)),
         withWorld w1 (addTrace [EvFetch url] st))
  end.
Proof.
  unfold mediaBranch, bind, emit, call, throw. cbv beta iota. simpl world.
  destruct (fetch rt url (world st)) as [[e|resp] w1]; [reflexivity|].
  destruct (ok resp); cbn [negb]; cbv iota; [|reflexivity].
  destruct (arrayBuffer resp) as [e|buffer]; [reflexivity|].
  rewrite sendMedia_eq. reflexivity.
Qed.

Lemma mediaBranch_shape m url phone (st : St W) res st' :
  mediaBranch rt m url phone st = (res, st') ->
  exists evs, trace st' = trace st ++ evs /\ deliverShape m phone res evs.
Proof.
  rewrite mediaBranch_eq.
  destruct (fetch rt url (world st)) as [[e|resp] w1].
  - intros [= <- <-]. now apply (throw_shape m phone [EvFetch url]).
  - destruct (ok resp).
    + destruct (arrayBuffer resp) as [e|buffer].
      * intros [= <- <-]. now apply (throw_shape m phone [EvFetch url]).
      * apply (send_shape m phone [EvFetch url]); auto.
        apply captionOpts_wellFormed.
    + intros [= <- <-]. now apply (throw_shape m phone [EvFetch url]).
Qed.

Lemma base64Branch_shape m b64 phone (st : St W) res st' :
  base64Branch rt m b64 phone st = (res, st') ->
  exists evs, trace st' = trace st ++ evs /\ deliverShape m phone res evs.
Proof.
  destruct (base64Regex_test (cleanBase64 b64)) eqn:Hv.
  - destruct (decode (cleanBase64 b64)) as [|b bs] eqn:Hd.
    + rewrite (base64Branch_empty rt) by assumption.
      intros [= <- <-].
      now apply (throw_shape m phone
                   [EvDecode (cleanBase64 b64); EvDecode (cleanBase64 b64)]).
    + rewrite (base64Branch_valid rt m b64 phone st b bs Hv Hd).
      set (d := cleanBase64 b64).
      unfold bind at 1.
      destruct (truthy (filename m)).
      * unfold ret at 1. rewrite sendMedia_eq.
        apply (send_shape m phone [EvDecode d; EvDecode d]); auto.
        apply captionOpts_wellFormed.
      * unfold bind at 1. unfold call at 1.
        destruct (dateNow rt (world (addTrace [EvDecode d; EvDecode d] st)))
          as [now w1].
        unfold ret at 1. rewrite sendMedia_eq.
        apply (send_shape m phone [EvDecode d; EvDecode d]); auto.
        apply captionOpts_wellFormed.
  - rewrite (base64Branch_invalid rt) by assumption.
    intros [= <- <-]. apply (throw_shape m phone []); auto.
    now rewrite app_nil_r.
Qed.

Lemma deliver_shape m phone (st : St W) res st' :
  deliver rt m phone st = (res, st') ->
  exists evs, trace st' = trace st ++ evs /\ deliverShape m phone res evs.
Proof.
  unfold deliver.
  destruct (typeIs m "base64" && truthy (base64Data m));
    [apply base64Branch_shape|].
  destruct (typeIs m "media" && truthy (mediaUrl m));
    [apply mediaBranch_shape|apply textBranch_shape].
Qed.

Lemma iteration_turn m r (st : St W) :
  exists e evs st',
    (forall results,
        iteration rt m results r st = (inr (results ++ [e]), st')) /\
    trace st' = trace st ++ evs /\
    Turn (options m) r e evs.
Proof.
  destruct (deliver rt m (phoneNumberOf r) st) as [[x|id] st1] eqn:E;
    destruct (deliver_shape m (phoneNumberOf r) st _ _ E) as (evs & Ht & Hs).
  - exists (failed r (errorMessage x)), evs, st1.
    split; [intros results; now rewrite iteration_eq, E|].
    split; [exact Ht|].
    destruct Hs as [[_ Hq]|(pre & c & o & -> & Hq & Hw & Ho)].
    + now apply TurnQuiet.
    + now apply TurnRefused.
  - destruct Hs as [[[e He] _]|(pre & c & o & -> & Hq & Hw & Ho)];
      [discriminate|].
    exists (sent (phoneNumberOf r) id),
      (pre ++ [EvSend (phoneNumberOf r) c o; EvDelay 1000]),
      (addTrace [EvDelay 1000] st1).
    split; [intros results; now rewrite iteration_eq, E|].
    split.
    + simpl. rewrite Ht, <- !app_assoc. reflexivity.
    + now apply TurnSent.
Qed.

Lemma forOf_turns m rs : forall (st : St W),
  exists es evs st',
    (forall results,
        forOf rt m rs results st = (inr (results ++ es), st')) /\
    trace st' = trace st ++ evs /\
    Turns (options m) rs es evs.
Proof.
  induction rs as [|r rs IH]; intros st.
  - exists [], [], st. split; [|split].
    + intros results. simpl. unfold ret. now rewrite app_nil_r.
    + now rewrite app_nil_r.
    + constructor.
  - destruct (iteration_turn m r st) as (e & evs & st1 & Hit & Ht1 & Hturn).
    destruct (IH st1) as (es & evss & st2 & Hfor & Ht2 & Hturns).
    exists (e :: es), (evs ++ evss), st2. split; [|split].
    + intros results. simpl. unfold bind. rewrite Hit, Hfor.
      now rewrite <- app_assoc.
    + now rewrite Ht2, Ht1, app_assoc.
    + now constructor.
Qed.

(** Dispatch as a sequence of turns, one per recipient. *)
Lemma dispatch_turns m rs (st : St W) :
  recipientsOf (to m) = inr rs ->
  exists es evs st',
    sendWhatsAppMessage rt m st = (inr es, st') /\
    trace st' = trace st ++ evs /\
    Turns (options m) rs es evs.
Proof.
  intros Hto. destruct (forOf_turns m rs st) as (es & evs & st' & Hfor & H).
  exists es, evs, st'. split; [|exact H].
  rewrite (sendWhatsAppMessage_eq rt m rs st Hto). apply (Hfor []).
Qed.

End Turns.

Lemma Turn_sends o r e evs :
  Turn o r e evs ->
  Subseq (map chatIdOf (filter isSend evs)) [phoneNumberOf r] /\
  (if success e then List.length (filter isSend evs) = 1%nat else True) /\
  List.length (filter isDelay evs) = (if success e then 1%nat else 0%nat) /\
  filter isVerdict evs = [] /\
  Forall (fun ev => match ev with
                    | EvSend _ c opts => wellFormedSend c opts /\ o_options opts = o
                    | EvDelay ms => ms = 1000
                    | _ => True
                    end) evs.
Proof.
  assert (Q : forall pre, forallb quiet pre = true ->
              Forall (fun ev => match ev with
                    | EvSend _ c opts => wellFormedSend c opts /\ o_options opts = o
                    | EvDelay ms => ms = 1000
                    | _ => True
                    end) pre).
  { induction pre as [|ev pre IH]; simpl; intros H; constructor.
    - apply andb_true_iff in H. destruct H as [H _]. now destruct ev.
    - apply IH. apply andb_true_iff in H. tauto. }
  intros [pre msg Hq|pre c opts msg Hq Hw Ho|pre c opts id Hq Hw Ho];
    rewrite ?filter_app,
      ?(quiet_filter isSend _ quiet_not_send Hq),
      ?(quiet_filter isDelay _ quiet_not_delay Hq),
      ?(quiet_filter isVerdict _ quiet_not_verdict Hq); simpl.
  - repeat split; auto. apply Subseq_nil.
  - repeat split; auto; [apply Subseq_refl|].
    apply Forall_app. split; [auto|]. repeat constructor; auto.
  - repeat split; auto; [apply Subseq_refl|].
    apply Forall_app. split; [auto|]. repeat constructor; auto.
Qed.

Lemma Turns_facts o rs es evs :
  Turns o rs es evs ->
  Subseq (map chatIdOf (filter isSend evs)) (map phoneNumberOf rs) /\
  (List.length (filter success es) <= List.length (filter isSend evs))%nat /\
  List.length (filter isDelay evs) = List.length (filter success es) /\
  filter isVerdict evs = [] /\
  Forall (fun ev => match ev with
                    | EvSend _ c opts => wellFormedSend c opts /\ o_options opts = o
                    | EvDelay ms => ms = 1000
                    | _ => True
                    end) evs.
Proof.
  induction 1 as [|r rs e es evs evss Ht Hts IH].
  - simpl. repeat split; auto. apply SubseqNil.
  - destruct (Turn_sends o r e evs Ht) as (T1 & T2 & T3 & T4 & T5).
    destruct IH as (I1 & I2 & I3 & I4 & I5).
    rewrite !filter_app, !map_app, !length_app, T4, I4. simpl.
    split; [|split; [|split; [|split]]].
    + apply (Subseq_app _ [phoneNumberOf r]); assumption.
    + destruct (success e); simpl; lia.
    + destruct (success e); simpl; lia.
    + reflexivity.
    + apply Forall_app. now split.
Qed.

Lemma Turns_PerTurn o (P : jsstring -> DeliveryResult -> list Event -> Prop)
  rs es evs :
  (forall r e ev, Turn o r e ev -> P r e ev) ->
  Turns o rs es evs -> PerTurn P rs es evs.
Proof.
  intros H. induction 1; constructor; auto.
Qed.

Lemma Turns_length o rs es evs :
  Turns o rs es evs -> List.length es = List.length rs.
Proof. induction 1; simpl; congruence. Qed.

Lemma Turn_called o r e evs : Turn o r e evs -> calledInTurn r e evs.
Proof.
  intros [pre msg Hq|pre c opts msg Hq Hw Ho|pre c opts id Hq Hw Ho];
    unfold calledInTurn;
    rewrite ?filter_app, ?(quiet_filter isSend _ quiet_not_send Hq); simpl.
  - split; [right; now exists msg|]. now left.
  - split; [right; now exists msg|]. right. now exists c, opts.
  - split; [left; now exists id|]. right. now exists c, opts.
Qed.

Lemma Turn_delayed o r e evs : Turn o r e evs -> delayedInTurn r e evs.
Proof.
  intros [pre msg Hq|pre c opts msg Hq Hw Ho|pre c opts id Hq Hw Ho];
    unfold delayedInTurn; simpl.
  - apply (quiet_filter isDelay _ quiet_not_delay Hq).
  - rewrite filter_app, (quiet_filter isDelay _ quiet_not_delay Hq).
    reflexivity.
  - now exists pre, c, opts.
Qed.

(** ** Dispatcher: what reaches the transport *)

Section DispatchInvariants.

Context {W : Type} (rt : Runtime W).

(** X4.  Turn by turn, dispatch makes at most one transport call per
    recipient, inside the turn of that recipient and to its resolved
    address; the turn of a success entry has exactly one call, and a
    turn without call ends in a failure entry.  So the chat ids called
    are, in order, those of a part of the listed recipients. *)
Theorem dispatch_calls_only_listed_recipients m rs (st : St W) :
  recipientsOf (to m) = inr rs ->
  exists es evs st',
    sendWhatsAppMessage rt m st = (inr es, st') /\
    trace st' = trace st ++ evs /\
    PerTurn calledInTurn rs es evs /\
    Subseq (map chatIdOf (filter isSend evs)) (map phoneNumberOf rs).
Proof.
  intros Hto.
  destruct (dispatch_turns rt m rs st Hto) as (es & evs & st' & H1 & H2 & H3).
  destruct (Turns_facts _ _ _ _ H3) as (F1 & _).
  exists es, evs, st'. repeat split; auto.
  apply (Turns_PerTurn (options m)); [|exact H3].
  intros r e ev. apply Turn_called.
Qed.

(** X5.  The fixed delay of one second follows each successful send, the
    last one included, and nothing else: the turn of a success entry
    ends with the call to its recipient and then the delay, with only
    decodes and fetches before; the turn of a failure entry has no
    delay, also when its call was made and refused. *)
Theorem dispatch_delays_after_each_success m rs (st : St W) :
  recipientsOf (to m) = inr rs ->
  exists es evs st',
    sendWhatsAppMessage rt m st = (inr es, st') /\
    trace st' = trace st ++ evs /\
    PerTurn delayedInTurn rs es evs /\
    (forall ms, In (EvDelay ms) evs -> ms = 1000).
Proof.
  intros Hto.
  destruct (dispatch_turns rt m rs st Hto) as (es & evs & st' & H1 & H2 & H3).
  destruct (Turns_facts _ _ _ _ H3) as (_ & _ & _ & _ & F5).
  exists es, evs, st'. repeat split; auto.
  - apply (Turns_PerTurn (options m)); [|exact H3].
    intros r e ev. apply Turn_delayed.
  - intros ms Hin. rewrite Forall_forall in F5. exact (F5 _ Hin).
Qed.

(** X6.  Whatever the job, a text handed to the transport is not empty and is
    a fixed point of the sanitizer, a caption key is present only with
    such a text, a plain text never comes with a caption key, and the
    job's [options] are passed on. *)
Theorem dispatch_sends_only_sanitized m rs (st : St W) :
  recipientsOf (to m) = inr rs ->
  exists es evs st',
    sendWhatsAppMessage rt m st = (inr es, st') /\
    trace st' = trace st ++ evs /\
    forall chatId content opts,
      In (EvSend chatId content opts) evs ->
      wellFormedSend content opts /\ o_options opts = options m.
Proof.
  intros Hto.
  destruct (dispatch_turns rt m rs st Hto) as (es & evs & st' & H1 & H2 & H3).
  destruct (Turns_facts _ _ _ _ H3) as (_ & _ & _ & _ & F5).
  exists es, evs, st'. repeat split; auto;
    rewrite Forall_forall in F5; apply (F5 _ H).
Qed.

End DispatchInvariants.

Lemma dispatch_calls_only_listed_recipients_witness :
  exists es evs st',
    sendWhatsAppMessage (demo true) twoRecipients st0 = (inr es, st') /\
    trace st' = trace st0 ++ evs /\
    PerTurn calledInTurn [js "15551230000"; js "bad"] es evs /\
    Subseq (map chatIdOf (filter isSend evs))
      [js "15551230000@c.us"; js "bad@c.us"].
Proof.
  exact (dispatch_calls_only_listed_recipients (demo true) twoRecipients
           [js "15551230000"; js "bad"] st0 eq_refl).
Defined.

Lemma dispatch_delays_after_each_success_witness :
  exists es evs st',
    sendWhatsAppMessage (demo true) twoRecipients st0 = (inr es, st') /\
    trace st' = trace st0 ++ evs /\
    PerTurn delayedInTurn [js "15551230000"; js "bad"] es evs /\
    (forall ms, In (EvDelay ms) evs -> ms = 1000).
Proof.
  exact (dispatch_delays_after_each_success (demo true) twoRecipients
           [js "15551230000"; js "bad"] st0 eq_refl).
Defined.

Lemma dispatch_sends_only_sanitized_witness :
  exists es evs st',
    sendWhatsAppMessage (demo true) twoRecipients st0 = (inr es, st') /\
    trace st' = trace st0 ++ evs /\
    forall chatId content opts,
      In (EvSend chatId content opts) evs ->
      wellFormedSend content opts /\ o_options opts = None.
Proof.
  exact (dispatch_sends_only_sanitized (demo true) twoRecipients
           [js "15551230000"; js "bad"] st0 eq_refl).
Defined.

(** ** Splitting and joining *)

Lemma split_nonempty sep (s : jsstring) : split sep s <> [].
Proof.
  destruct s as [|c s]; simpl; [discriminate|].
  destruct (c =? sep); [discriminate|].
  destruct (split sep s); discriminate.
Qed.

(** Joining the pieces of a split with the separator gives the string
    back. *)
Lemma join_split sep (s : jsstring) : join sep (split sep s) = s.
Proof.
  induction s as [|c s IH]; [reflexivity|].
  simpl split. destruct (c =? sep) eqn:E.
  - apply N.eqb_eq in E. subst c.
    pose proof (split_nonempty sep s) as Hne.
    destruct (split sep s) as [|p ps]; [contradiction|].
    change (join sep ([] :: p :: ps)) with (sep :: join sep (p :: ps)).
    now rewrite IH.
  - pose proof (split_nonempty sep s) as Hne.
    destruct (split sep s) as [|p ps]; [contradiction|].
    destruct ps as [|q ps]; simpl in *; now rewrite <- IH.
Qed.

Lemma split_no_sep sep (s : jsstring) :
  Forall (fun p => ~ In sep p) (split sep s).
Proof.
  induction s as [|c s IH]; simpl; [repeat constructor; auto|].
  destruct (c =? sep) eqn:E.
  - constructor; auto.
  - destruct (split sep s) as [|p ps]; [repeat constructor|].
    + intros [H|[]]. subst. now rewrite N.eqb_refl in E.
    + inversion IH; subst. constructor; auto.
      intros [H|H]; [|contradiction].
      subst. now rewrite N.eqb_refl in E.
Qed.

Lemma split_without_sep sep (s : jsstring) :
  ~ In sep s -> split sep s = [s].
Proof.
  induction s as [|c s IH]; intros H; [reflexivity|].
  simpl. destruct (c =? sep) eqn:E.
  - apply N.eqb_eq in E. subst. exfalso. apply H. now left.
  - rewrite IH; [reflexivity|]. intros K. apply H. now right.
Qed.

Lemma split_app_sep sep (h b : jsstring) :
  ~ In sep h -> split sep (h ++ sep :: b) = h :: split sep b.
Proof.
  induction h as [|c h IH]; intros H; simpl.
  - now rewrite N.eqb_refl.
  - destruct (c =? sep) eqn:E.
    + apply N.eqb_eq in E. subst. exfalso. apply H. now left.
    + rewrite IH; [reflexivity|]. intros K. apply H. now right.
Qed.

Lemma pop_snoc (l : list jsstring) x : pop (l ++ [x]) = Some x.
Proof. unfold pop. now rewrite rev_app_distr. Qed.

Lemma join_snoc sep (l : list jsstring) x :
  l <> [] -> join sep (l ++ [x]) = join sep l ++ sep :: x.
Proof.
  induction l as [|p l IH]; [contradiction|]. intros _.
  destruct l as [|q l]; [reflexivity|].
  change (join sep ((p :: q :: l) ++ [x]))
    with (p ++ sep :: join sep ((q :: l) ++ [x])).
  rewrite IH by discriminate.
  change (join sep (p :: q :: l)) with (p ++ sep :: join sep (q :: l)).
  now rewrite <- app_assoc.
Qed.

(** The last piece of a split: it has no separator, and the string is
    that piece alone or ends with the separator followed by it. *)
Lemma pop_split sep (s : jsstring) :
  exists l,
    pop (split sep s) = Some l /\ ~ In sep l /\
    (s = l \/ exists pre, s = pre ++ sep :: l).
Proof.
  pose proof (split_nonempty sep s) as Hne.
  pose proof (join_split sep s) as Hj.
  pose proof (split_no_sep sep s) as Hf.
  destruct (exists_last Hne) as (init & l & E). rewrite E in *.
  exists l. split; [apply pop_snoc|]. split.
  - apply Forall_app in Hf. destruct Hf as [_ Hf]. now inversion Hf.
  - destruct init as [|p init]; [left; now rewrite <- Hj|].
    right. rewrite join_snoc in Hj by discriminate. eauto.
Qed.

(** ** Base64 of the runtime and the alphabet check *)

Lemma digit_ok v : v < 64 -> digitOk v = true.
Proof.
  intros H.
  assert (A : forallb digitOk (map N.of_nat (seq 0 64)) = true)
    by (vm_compute; reflexivity).
  rewrite forallb_forall in A. apply A.
  apply in_map_iff. exists (N.to_nat v). split; [apply N2Nat.id|].
  apply in_seq. lia.
Qed.

Lemma digit_facts v :
  v < 64 ->
  isAlphabet (digit v) = true /\ (digit v =? 61) = false /\
  unbase64 (digit v) = Some v.
Proof.
  intros H. pose proof (digit_ok v H) as K. unfold digitOk in K.
  apply andb_true_iff in K. destruct K as [K K3].
  apply andb_true_iff in K. destruct K as [K1 K2].
  apply negb_true_iff in K2.
  destruct (unbase64 (digit v)) as [u|]; [|discriminate].
  apply N.eqb_eq in K3. subst u. auto.
Qed.

Lemma sextets_digit v (s : jsstring) :
  v < 64 -> sextets (digit v :: s) = v :: sextets s.
Proof.
  intros H. destruct (digit_facts v H) as (_ & H2 & H3).
  simpl. now rewrite H2, H3.
Qed.

Lemma dropWhile_digit v (s : jsstring) :
  v < 64 -> dropWhile isAlphabet (digit v :: s) = dropWhile isAlphabet s.
Proof.
  intros H. destruct (digit_facts v H) as (H1 & _). simpl. now rewrite H1.
Qed.

Ltac byte_arith :=
  unfold isByte in *; zify; Z.to_euclidean_division_equations; lia.

Lemma sextet_bounds a b c :
  isByte a -> isByte b -> isByte c ->
  a / 4 < 64 /\ (a mod 4) * 16 + b / 16 < 64 /\
  (b mod 16) * 4 + c / 64 < 64 /\ c mod 64 < 64 /\
  (b mod 16) * 4 < 64 /\ (a mod 4) * 16 < 64.
Proof. intros. repeat split; byte_arith. Qed.

Lemma pack_three a b c (r : list N) :
  isByte a -> isByte b -> isByte c ->
  pack (a / 4 :: (a mod 4) * 16 + b / 16 :: (b mod 16) * 4 + c / 64
        :: c mod 64 :: r) = a :: b :: c :: pack r.
Proof.
  intros. simpl. f_equal; [byte_arith|]. f_equal; [byte_arith|].
  f_equal. byte_arith.
Qed.

Lemma pack_two a b :
  isByte a -> isByte b ->
  pack [a / 4; (a mod 4) * 16 + b / 16; (b mod 16) * 4] = [a; b].
Proof.
  intros. simpl. f_equal; [byte_arith|]. f_equal. byte_arith.
Qed.

Lemma pack_one a :
  isByte a -> pack [a / 4; (a mod 4) * 16] = [a].
Proof. intros. simpl. f_equal. byte_arith. Qed.

(** What the runtime encodes passes the alphabet check of
    [isValidBase64] and decodes to the bytes encoded. *)
Lemma encode_roundtrip (bs : list N) :
  Forall isByte bs ->
  base64Regex_test (encode bs) = true /\ decode (encode bs) = bs.
Proof.
  assert (G : forall n bs, (List.length bs <= n)%nat -> Forall isByte bs ->
              match dropWhile isAlphabet (encode bs) with
              | [] | [61] | [61; 61] => True
              | _ => False
              end /\ pack (sextets (encode bs)) = bs).
  { induction n as [|n IH]; intros l Hl Hb.
    - destruct l; [simpl; auto|simpl in Hl; lia].
    - destruct l as [|a [|b [|c r]]].
      + simpl. auto.
      + inversion Hb; subst.
        destruct (sextet_bounds a a a) as (S1 & _ & _ & _ & _ & S6); auto.
        change (encode [a]) with
          [digit (a / 4); digit ((a mod 4) * 16); 61; 61].
        rewrite !dropWhile_digit, !sextets_digit by assumption.
        split; [exact I|]. now apply pack_one.
      + inversion Hb as [|? ? Ha Hb']; subst. inversion Hb'; subst.
        destruct (sextet_bounds a b b) as (S1 & S2 & _ & _ & S5 & _); auto.
        change (encode [a; b]) with
          [digit (a / 4); digit ((a mod 4) * 16 + b / 16);
           digit ((b mod 16) * 4); 61].
        rewrite !dropWhile_digit, !sextets_digit by assumption.
        split; [exact I|]. now apply pack_two.
      + inversion Hb as [|? ? Ha Hb']; subst.
        inversion Hb' as [|? ? Hb0 Hb'']; subst.
        inversion Hb'' as [|? ? Hc Hr]; subst.
        destruct (sextet_bounds a b c) as (S1 & S2 & S3 & S4 & _ & _); auto.
        change (encode (a :: b :: c :: r)) with
          (digit (a / 4) :: digit ((a mod 4) * 16 + b / 16)
           :: digit ((b mod 16) * 4 + c / 64) :: digit (c mod 64)
           :: encode r).
        rewrite !dropWhile_digit, !sextets_digit by assumption.
        destruct (IH r) as (I1 & I2); [simpl in Hl; lia|exact Hr|].
        split; [exact I1|].
        rewrite pack_three by assumption. now rewrite I2. }
  intros Hb. destruct (G (List.length bs) bs (le_n _) Hb) as (G1 & G2).
  split; [|exact G2].
  unfold base64Regex_test.
  destruct (dropWhile isAlphabet (encode bs)) as [|x [|y [|z t]]];
    try reflexivity;
    repeat match type of G1 with
           | match ?x with _ => _ end => destruct x; try contradiction
           end; try reflexivity; contradiction.
Qed.

(** ** Dispatcher: the remote-media mode *)

Section RemoteMedia.

Context {W : Type} (rt : Runtime W).

Lemma deliver_remoteMode m url phone (st : St W) :
  remoteMode m url ->
  deliver rt m phone st = mediaBranch rt m url phone st.
Proof.
  intros (Ht & Hu & Hne). unfold deliver.
  rewrite (typeIs_media_not_base64 m Ht), Ht, Hu.
  destruct url as [|c url]; [contradiction|]. reflexivity.
Qed.

Lemma deliver_encodedMode m b64 phone (st : St W) :
  encodedMode m b64 ->
  deliver rt m phone st = base64Branch rt m b64 phone st.
Proof.
  intros (Ht & Hb & Hne). unfold deliver. rewrite Ht, Hb.
  destruct b64 as [|c b64]; [contradiction|]. reflexivity.
Qed.

Lemma deliver_textMode m phone (st : St W) :
  textMode m -> deliver rt m phone st = textBranch rt m phone st.
Proof. intros (H1 & H2). unfold deliver. now rewrite H1, H2. Qed.

(** X7.  A fetch that throws, a response that is not [ok] and a body that
    cannot be read each fail the recipient of that turn only: the entry
    carries the thrown message, or "Failed to fetch media: " with the
    status and status text, the reference has been fetched once, and
    nothing is sent. *)
Theorem failed_fetch_fails_the_recipient m url r results (st : St W) :
  remoteMode m url ->
  (forall e w1,
      fetch rt url (world st) = (inl e, w1) ->
      iteration rt m results r st =
      (inr (results ++ [failed r (errorMessage e)]),
       withWorld w1 (addTrace [EvFetch url] st))) /\
  (forall resp w1,
      fetch rt url (world st) = (inr resp, w1) -> ok resp = false ->
      iteration rt m results r st =
      (inr (results ++
            [failed r (js "Failed to fetch media: " ++ decimal (status resp)
                       ++ js " " ++ statusText resp)]),
       withWorld w1 (addTrace [EvFetch url] st))) /\
  (forall resp w1 e,
      fetch rt url (world st) = (inr resp, w1) -> ok resp = true ->
      arrayBuffer resp = inl e ->
      iteration rt m results r st =
      (inr (results ++ [failed r (errorMessage e)]),
       withWorld w1 (addTrace [EvFetch url] st))).
Proof.
  intros Hm. split; [|split].
  - intros e w1 Hf.
    rewrite iteration_eq, (deliver_remoteMode m url) by exact Hm.
    now rewrite mediaBranch_eq, Hf.
  - intros resp w1 Hf Hok.
    rewrite iteration_eq, (deliver_remoteMode m url) by exact Hm.
    now rewrite mediaBranch_eq, Hf, Hok.
  - intros resp w1 e Hf Hok Hb.
    rewrite iteration_eq, (deliver_remoteMode m url) by exact Hm.
    now rewrite mediaBranch_eq, Hf, Hok, Hb.
Qed.

(** X8.  With a response that is [ok], the call carries the content type of
    the response (or [application/octet-stream]), the body encoded in
    base64, which passes the alphabet check of [isValidBase64] and
    decodes to the body, and a file name that is never empty; the caption
    is the sanitized [caption] field and never the [message]. *)
Theorem remote_media_call m url phone (st : St W) resp w1 buffer :
  remoteMode m url ->
  fetch rt url (world st) = (inr resp, w1) ->
  ok resp = true ->
  arrayBuffer resp = inr buffer ->
  Forall isByte buffer ->
  deliver rt m phone st =
  clientSend rt phone (MediaContent (remoteMedia m url resp buffer))
    (captionOpts m (sanitizeMessage (Some (orElse (caption m) []))))
    (withWorld w1 (addTrace [EvFetch url] st)) /\
  base64Regex_test (m_data (remoteMedia m url resp buffer)) = true /\
  decode (m_data (remoteMedia m url resp buffer)) = buffer /\
  m_mimetype (remoteMedia m url resp buffer) <> [] /\
  m_filename (remoteMedia m url resp buffer) <> [].
Proof.
  intros Hm Hf Hok Hb Hbytes.
  split; [|split; [|split; [|split]]].
  - rewrite (deliver_remoteMode m url) by exact Hm.
    now rewrite mediaBranch_eq, Hf, Hok, Hb.
  - apply encode_roundtrip, Hbytes.
  - apply encode_roundtrip, Hbytes.
  - simpl. destruct (contentType resp) as [[|c t]|]; discriminate.
  - simpl.
    destruct (orOpt (filename m) (pop (split 47 url))) as [[|c t]|];
      discriminate.
Qed.

(** X9.  Without a [filename] in the job, the file name sent is what follows
    the last slash of the reference, and so holds no slash, or [media]
    when nothing follows it. *)
Theorem remote_media_filename m url resp buffer :
  truthy (filename m) = false ->
  exists l,
    ~ In 47 l /\ (url = l \/ exists pre, url = pre ++ 47 :: l) /\
    m_filename (remoteMedia m url resp buffer) =
    match l with [] => js "media" | _ => l end.
Proof.
  intros Hf. destruct (pop_split 47 url) as (l & Hp & Hn & Hs).
  exists l. split; [exact Hn|]. split; [exact Hs|].
  simpl. unfold orOpt. rewrite Hf, Hp. now destruct l.
Qed.

End RemoteMedia.

Section PerRecipient.

Context {W : Type} (rt : Runtime W).

(** A property of the events of each turn holds of the chunks of the
    whole loop. *)
Lemma forOf_chunks m (P : jsstring -> list Event -> Prop) :
  (forall r (st : St W),
      exists e evs st',
        (forall results,
            iteration rt m results r st = (inr (results ++ [e]), st')) /\
        trace st' = trace st ++ evs /\ P r evs) ->
  forall rs (st : St W),
    exists es chunks st',
      (forall results,
          forOf rt m rs results st = (inr (results ++ es), st')) /\
      trace st' = trace st ++ List.concat chunks /\
      Forall2 P rs chunks.
Proof.
  intros Hit. induction rs as [|r rs IH]; intros st.
  - exists [], [], st. split; [|split].
    + intros results. simpl. unfold ret. now rewrite app_nil_r.
    + simpl. now rewrite app_nil_r.
    + constructor.
  - destruct (Hit r st) as (e & evs & st1 & H1 & Ht1 & HP).
    destruct (IH st1) as (es & chunks & st2 & H2 & Ht2 & HPs).
    exists (e :: es), (evs :: chunks), st2. split; [|split].
    + intros results. simpl. unfold bind. rewrite H1, H2.
      now rewrite <- app_assoc.
    + simpl. now rewrite Ht2, Ht1, app_assoc.
    + now constructor.
Qed.

Lemma remote_iteration_fetch m url r (st : St W) :
  remoteMode m url ->
  exists e evs st',
    (forall results,
        iteration rt m results r st = (inr (results ++ [e]), st')) /\
    trace st' = trace st ++ evs /\ filter isFetch evs = [EvFetch url].
Proof.
  intros Hm.
  assert (E : forall results,
             iteration rt m results r st =
             match mediaBranch rt m url (phoneNumberOf r) st with
             | (inr id, st') =>
                 (inr (results ++ [sent (phoneNumberOf r) id]),
                  addTrace [EvDelay 1000] st')
             | (inl e, st') =>
                 (inr (results ++ [failed r (errorMessage e)]), st')
             end).
  { intros results. rewrite iteration_eq.
    now rewrite (deliver_remoteMode rt m url) by exact Hm. }
  rewrite mediaBranch_eq in E.
  destruct (fetch rt url (world st)) as [[e|resp] w1].
  - eexists _, [EvFetch url], _. split; [exact E|]. split; reflexivity.
  - destruct (ok resp).
    + destruct (arrayBuffer resp) as [e|buffer].
      * eexists _, [EvFetch url], _. split; [exact E|]. split; reflexivity.
      * rewrite clientSend_eq in E.
        match type of E with
        | context [sendMessage rt ?a ?b ?c ?w] =>
            destruct (sendMessage rt a b c w) as [[e|id] w2]
        end; simpl in E.
        -- eexists _, [EvFetch url; EvSend _ _ _], _.
           split; [exact E|]. split; [|reflexivity].
           simpl. now rewrite <- app_assoc.
        -- eexists _, [EvFetch url; EvSend _ _ _; EvDelay 1000], _.
           split; [exact E|]. split; [|reflexivity].
           simpl. now rewrite <- !app_assoc.
    + eexists _, [EvFetch url], _. split; [exact E|]. split; reflexivity.
Qed.

(** X10.  In the remote-media mode the reference is fetched anew for every
    recipient: a job with [n] recipients makes [n] fetches of the same
    reference, whatever the outcome of each. *)
Theorem remote_media_fetched_per_recipient m url rs (st : St W) :
  remoteMode m url ->
  recipientsOf (to m) = inr rs ->
  exists es evs st',
    sendWhatsAppMessage rt m st = (inr es, st') /\
    trace st' = trace st ++ evs /\
    filter isFetch evs = map (fun _ => EvFetch url) rs.
Proof.
  intros Hm Hto.
  destruct (forOf_chunks m (fun _ evs => filter isFetch evs = [EvFetch url])
              (fun r st => remote_iteration_fetch m url r st Hm) rs st)
    as (es & chunks & st' & Hfor & Ht & HP).
  exists es, (List.concat chunks), st'.
  rewrite (sendWhatsAppMessage_eq rt m rs st Hto).
  split; [apply (Hfor [])|]. split; [exact Ht|].
  clear -HP. induction HP as [|r evs rs chunks H _ IH]; [reflexivity|].
  simpl. now rewrite filter_app, H, IH.
Qed.

End PerRecipient.

Lemma remote_media_fetched_per_recipient_witness :
  exists es evs st',
    sendWhatsAppMessage web (remoteJob (js "http://h/a.png") None) st0 =
      (inr es, st') /\
    trace st' = trace st0 ++ evs /\
    filter isFetch evs =
      [EvFetch (js "http://h/a.png"); EvFetch (js "http://h/a.png")].
Proof.
  apply (remote_media_fetched_per_recipient web
           (remoteJob (js "http://h/a.png") None) (js "http://h/a.png")
           [js "15551230000"; js "15551230001"] st0).
  - repeat split. discriminate.
  - reflexivity.
Defined.

Lemma failed_fetch_fails_the_recipient_witness :
  iteration web (remoteJob (js "http://h/missing") None) []
    (js "15551230000") st0 =
  (inr [failed (js "15551230000") (js "Failed to fetch media: 404 Not Found")],
   withWorld 0%nat (addTrace [EvFetch (js "http://h/missing")] st0)).
Proof.
  refine (proj1 (proj2 (failed_fetch_fails_the_recipient web
            (remoteJob (js "http://h/missing") None) (js "http://h/missing")
            (js "15551230000") [] st0 _)) _ 0%nat eq_refl eq_refl).
  repeat split. discriminate.
Defined.

Lemma remote_media_call_witness :
  decode (m_data (remoteMedia (remoteJob (js "http://h/a.png") (Some (js "hi")))
                    (js "http://h/a.png")
                    {| ok := true; status := 200; statusText := js "OK";
                       contentType := Some (js "image/png");
                       arrayBuffer := inr pngBytes |} pngBytes)) = pngBytes.
Proof.
  refine (proj1 (proj2 (proj2 (remote_media_call web
            (remoteJob (js "http://h/a.png") (Some (js "hi")))
            (js "http://h/a.png") (js "15551230000@c.us") st0 _ 0%nat pngBytes
            _ eq_refl eq_refl eq_refl _)))).
  - repeat split. discriminate.
  - unfold pngBytes, isByte. repeat constructor.
Defined.

Lemma remote_media_filename_witness :
  exists l,
    ~ In 47 l /\
    (js "http://h/a.png" = l \/ exists pre, js "http://h/a.png" = pre ++ 47 :: l) /\
    m_filename (remoteMedia (remoteJob (js "http://h/a.png") None)
                  (js "http://h/a.png")
                  {| ok := true; status := 200; statusText := js "OK";
                     contentType := None; arrayBuffer := inr pngBytes |}
                  pngBytes) =
    match l with [] => js "media" | _ => l end.
Proof.
  apply (remote_media_filename (remoteJob (js "http://h/a.png") None)).
  reflexivity.
Defined.

Example remote_media_trace :
  trace (snd (sendWhatsAppMessage web
                (remoteJob (js "http://h/a.png") (Some (js "hi"))) st0)) =
  [ EvFetch (js "http://h/a.png");
    EvSend (js "15551230000@c.us")
      (MediaContent {| m_mimetype := js "image/png"; m_data := js "iVBORw==";
                       m_filename := js "a.png" |})
      {| o_caption := None; o_options := None |};
    EvDelay 1000;
    EvFetch (js "http://h/a.png");
    EvSend (js "15551230001@c.us")
      (MediaContent {| m_mimetype := js "image/png"; m_data := js "iVBORw==";
                       m_filename := js "a.png" |})
      {| o_caption := None; o_options := None |};
    EvDelay 1000 ].
Proof. reflexivity. Qed.

(** ** Normalizer: what a parsed payload is *)

Lemma In_takeWhile p (s : jsstring) c :
  In c (takeWhile p s) -> p c = true /\ In c s.
Proof.
  induction s as [|x s IH]; simpl; [tauto|].
  destruct (p x) eqn:E; simpl; [|tauto].
  intros [<-|H]; [auto|]. destruct (IH H). auto.
Qed.

Lemma takeWhile_app_stop p (s r : jsstring) c :
  (forall x, In x s -> p x = true) -> p c = false ->
  takeWhile p (s ++ c :: r) = s /\ dropWhile p (s ++ c :: r) = c :: r.
Proof.
  intros Hs Hc. induction s as [|x s IH]; simpl.
  - now rewrite Hc.
  - rewrite (Hs x) by now left.
    destruct IH as [I1 I2]; [intros y Hy; apply Hs; now right|].
    now rewrite I1, I2.
Qed.

Lemma includes_unit c (s : jsstring) : In c s -> includes [c] s = true.
Proof.
  induction s as [|x s IH]; [intros []|].
  intros [->|H]; simpl.
  - now rewrite N.eqb_refl.
  - rewrite (IH H). apply orb_true_r.
Qed.

Lemma count_unit_In c (s : jsstring) : (1 <= count_unit c s)%nat -> In c s.
Proof.
  unfold count_unit. intros H.
  destruct (filter (N.eqb c) s) as [|x t] eqn:E; [simpl in H; lia|].
  assert (K : In x (filter (N.eqb c) s)) by (rewrite E; now left).
  apply filter_In in K. destruct K as [K1 K2].
  apply N.eqb_eq in K2. now subst.
Qed.

(** The alphabet check lets through alphabet units and [=] only. *)
Lemma base64Regex_units (s : jsstring) :
  base64Regex_test s = true ->
  forall c, In c s -> isAlphabet c = true \/ c = 61.
Proof.
  unfold base64Regex_test.
  induction s as [|x s IH]; [intros _ c []|].
  simpl. destruct (isAlphabet x) eqn:E.
  - intros H c [<-|Hc]; [now left|]. now apply IH.
  - intros H c Hc.
    assert (K : forall y, In y (x :: s) -> y = 61).
    { destruct s as [|y [|z t]];
        repeat match type of H with
               | match ?u with _ => _ end = _ => destruct u; try discriminate H
               end; try discriminate H;
        intros u Hu; simpl in Hu; intuition. }
    right. now apply K.
Qed.

Lemma base64Regex_no_comma (s : jsstring) :
  base64Regex_test s = true -> ~ In 44 s.
Proof.
  intros H K. destruct (base64Regex_units s H 44 K); discriminate.
Qed.

Lemma matchHeaderAt_some (s run : jsstring) :
  matchHeaderAt s = Some run ->
  run <> [] /\ forall c, In c run -> c <> 59 /\ In c s.
Proof.
  unfold matchHeaderAt.
  destruct (startsWith (js "data:") s); [|discriminate].
  destruct (takeWhile notSemicolon (skipn 5 s)) as [|x t] eqn:E;
    [discriminate|].
  destruct (startsWith (js ";base64") (dropWhile notSemicolon (skipn 5 s)));
    [|discriminate].
  intros [= <-]. split; [discriminate|].
  intros c Hc. rewrite <- E in Hc. apply In_takeWhile in Hc.
  destruct Hc as [Hp Hin]. split.
  - intros ->. discriminate Hp.
  - rewrite <- (firstn_skipn 5 s). apply in_or_app. now right.
Qed.

Lemma matchHeader_at (h m : jsstring) :
  matchHeaderAt h = Some m -> matchHeader h = Some m.
Proof.
  destruct h as [|x h]; [intros H; discriminate H|]. intros H.
  change (matchHeader (x :: h))
    with (match matchHeaderAt (x :: h) with
          | Some m => Some m
          | None => matchHeader h
          end).
  now rewrite H.
Qed.

Lemma matchHeader_some (h mt : jsstring) :
  matchHeader h = Some mt ->
  mt <> [] /\ forall c, In c mt -> c <> 59 /\ In c h.
Proof.
  induction h as [|x h IH].
  - intros H. discriminate H.
  - change (matchHeader (x :: h))
      with (match matchHeaderAt (x :: h) with
            | Some m => Some m
            | None => matchHeader h
            end).
    destruct (matchHeaderAt (x :: h)) as [r|] eqn:E.
    + intros [= <-]. now apply matchHeaderAt_some.
    + intros H. destruct (IH H) as [H1 H2]. split; [exact H1|].
      intros c Hc. destruct (H2 c Hc). split; [assumption|now right].
Qed.

(** What [splitDataUrl] separates: the body is the end of the payload,
    and the detected type is the default or a non-empty capture of the
    header with neither [;] nor [,]. *)
Lemma splitDataUrl_parts (s : jsstring) :
  (exists pre, s = pre ++ cleanBase64 s) /\
  (detectedMimetype s = js "image/jpeg" \/
   (detectedMimetype s <> [] /\
    forall c, In c (detectedMimetype s) -> c <> 59 /\ c <> 44)).
Proof.
  unfold cleanBase64, detectedMimetype, splitDataUrl.
  destruct (includes [44] s); [|split; [now exists []|now left]].
  pose proof (join_split 44 s) as J.
  pose proof (split_no_sep 44 s) as F.
  destruct (split 44 s) as [|h [|b [|x t]]];
    try (split; [now exists []|now left]).
  simpl in J. inversion F as [|? ? Hh _]; subst.
  destruct (matchHeader h) as [mt|] eqn:E; simpl.
  - split; [exists (h ++ [44]); now rewrite <- app_assoc|].
    right. destruct (matchHeader_some h mt E) as [H1 H2].
    split; [exact H1|]. intros c Hc. destruct (H2 c Hc) as [K1 K2].
    split; [exact K1|]. intros ->. contradiction.
  - split; [exists (h ++ [44]); now rewrite <- app_assoc|now left].
Qed.

Section NormalizerFacts.

Context {W : Type}.

(** X11.  Whenever [parseBase64Image] returns a descriptor, its data is the
    end of the payload, holds only alphabet units and [=] (so no comma
    and no header), the decoder has been run on it exactly once, its
    MIME type is the default or a capture without [;] and [,], and its
    extension is the one of that MIME type. *)
Theorem parseBase64Image_descriptor s (st st' : St W) p :
  parseBase64Image s st = (inr (Some p), st') ->
  st' = addTrace [EvDecode (p_data p)] st /\
  base64Regex_test (p_data p) = true /\
  (forall c, In c (p_data p) -> isAlphabet c = true \/ c = 61) /\
  (exists pre, s = pre ++ p_data p) /\
  (p_mimetype p = js "image/jpeg" \/
   (p_mimetype p <> [] /\
    forall c, In c (p_mimetype p) -> c <> 59 /\ c <> 44)) /\
  p_extension p = getExtensionFromMimetype (p_mimetype p).
Proof.
  rewrite parseBase64Image_eq.
  destruct (base64Regex_test (cleanBase64 s)) eqn:Hv; [|discriminate].
  intros [= <- <-]. simpl.
  destruct (splitDataUrl_parts s) as [P1 P2].
  repeat split; auto. now apply base64Regex_units.
Qed.

(** X12.  A payload with two commas or more is never split: the whole of it
    is taken as the body, fails the alphabet check, and the parse gives
    [null] without a decoder call. *)
Theorem parseBase64Image_two_commas s (st : St W) :
  (2 <= count_unit 44 s)%nat ->
  parseBase64Image s st = (inr None, st).
Proof.
  intros H.
  assert (Hc : cleanBase64 s = s).
  { unfold cleanBase64, splitDataUrl.
    destruct (includes [44] s); [|reflexivity].
    pose proof (split_length 44 s) as L.
    destruct (split 44 s) as [|h [|b [|x t]]]; try reflexivity.
    simpl in L. lia. }
  rewrite parseBase64Image_eq, Hc.
  destruct (base64Regex_test s) eqn:Hv; [|reflexivity].
  exfalso. apply (base64Regex_no_comma s Hv).
  apply count_unit_In. lia.
Qed.

(** X13.  Parsing a data URL gives back its parts: for a MIME type that is not
    empty and has neither [;] nor [,], and a body that passes the
    alphabet check, the descriptor holds that MIME type, that body and
    the extension of that MIME type. *)
Theorem parseBase64Image_dataUrl mime body (st : St W) :
  mime <> [] ->
  (forall c, In c mime -> c <> 59 /\ c <> 44) ->
  base64Regex_test body = true ->
  parseBase64Image (dataUrl mime body) st =
  (inr (Some {| p_mimetype := mime; p_data := body;
                p_extension := getExtensionFromMimetype mime |}),
   addTrace [EvDecode body] st).
Proof.
  intros Hne Hm Hb.
  assert (Hs : splitDataUrl (dataUrl mime body) = (mime, body)).
  { unfold splitDataUrl, dataUrl.
    set (h := js "data:" ++ mime ++ js ";base64").
    replace (js "data:" ++ mime ++ js ";base64" ++ 44 :: body)
      with (h ++ 44 :: body) by (unfold h; now rewrite <- !app_assoc).
    rewrite includes_unit by (apply in_or_app; right; now left).
    assert (Hh : ~ In 44 h).
    { unfold h. intros K. apply in_app_or in K. destruct K as [K|K].
      - vm_compute in K. intuition discriminate.
      - apply in_app_or in K. destruct K as [K|K].
        + destruct (Hm 44 K). congruence.
        + vm_compute in K. intuition discriminate. }
    rewrite split_app_sep by exact Hh.
    rewrite split_without_sep by now apply base64Regex_no_comma.
    assert (M : matchHeader h = Some mime).
    { assert (A : matchHeaderAt h = Some mime).
      { unfold matchHeaderAt, h. rewrite startsWith_app.
        change (skipn 5 (js "data:" ++ mime ++ js ";base64"))
          with (mime ++ 59 :: js "base64").
        destruct (takeWhile_app_stop notSemicolon mime (js "base64") 59)
          as [T1 T2]; [|reflexivity|].
        - intros x Hx. destruct (Hm x Hx) as [K _].
          unfold notSemicolon. now apply negb_true_iff, N.eqb_neq.
        - rewrite T1, T2. destruct mime; [contradiction|reflexivity]. }
      now apply matchHeader_at. }
    now rewrite M. }
  rewrite parseBase64Image_eq. unfold parsedOf, cleanBase64, detectedMimetype.
  rewrite Hs. simpl. now rewrite Hb.
Qed.

End NormalizerFacts.

Lemma parseBase64Image_descriptor_witness :
  exists pre, js "data:image/png;base64,aGVsbG8=" = pre ++ js "aGVsbG8=".
Proof.
  refine (proj1 (proj2 (proj2 (proj2
    (parseBase64Image_descriptor (js "data:image/png;base64,aGVsbG8=") st0
       (addTrace [EvDecode (js "aGVsbG8=")] st0)
       {| p_mimetype := js "image/png"; p_data := js "aGVsbG8=";
          p_extension := ExtString (js "png") |} eq_refl))))).
Defined.

Lemma parseBase64Image_two_commas_witness :
  parseBase64Image (js "data:image/png;base64,aGVs,bG8=") st0 = (inr None, st0).
Proof.
  apply parseBase64Image_two_commas. vm_compute. lia.
Defined.

Lemma parseBase64Image_dataUrl_witness :
  parseBase64Image (dataUrl (js "image/gif") (js "R0lGOA==")) st0 =
  (inr (Some {| p_mimetype := js "image/gif"; p_data := js "R0lGOA==";
                p_extension := ExtString (js "gif") |}),
   addTrace [EvDecode (js "R0lGOA==")] st0).
Proof.
  apply (parseBase64Image_dataUrl (js "image/gif") (js "R0lGOA==") st0).
  - discriminate.
  - intros c Hc. vm_compute in Hc.
    repeat (destruct Hc as [<-|Hc]; [split; discriminate|]). destruct Hc.
  - reflexivity.
Defined.

(** ** Dispatcher: the encoded mode *)

Section EncodedMode.

Context {W : Type} (rt : Runtime W).

(** X14.  The three outcomes of the encoded branch.  A body that fails the
    alphabet check fails the recipient with the parse error, before any
    decoder call.  A body that passes with at most one alphabet unit
    decodes to nothing and fails the recipient with the empty-buffer
    error.  Any other body is sent: the data is the body without its
    data-URL header, the MIME type is the job's override or else the
    detected one, and a derived file name takes its extension from the
    detected type, never from the override; the clock is read only when
    the file name is derived. *)
Theorem encoded_mode_outcomes m b64 phone (st : St W) :
  encodedMode m b64 ->
  (base64Regex_test (cleanBase64 b64) = false ->
   deliver rt m phone st =
   (inl (newError (js "Failed to parse base64 image data")), st)) /\
  (base64Regex_test (cleanBase64 b64) = true ->
   (List.length (takeWhile isAlphabet (cleanBase64 b64)) <= 1)%nat ->
   deliver rt m phone st =
   (inl (newError (js "Failed to decode base64 data: Error: Decoded image buffer is empty")),
    addTrace [EvDecode (cleanBase64 b64); EvDecode (cleanBase64 b64)] st)) /\
  (base64Regex_test (cleanBase64 b64) = true ->
   (2 <= List.length (takeWhile isAlphabet (cleanBase64 b64)))%nat ->
   deliver rt m phone st =
   clientSend rt phone
     (MediaContent (encodedMedia m b64 (fst (dateNow rt (world st)))))
     (captionOpts m
        (sanitizeMessage
           (Some (orElse (orOpt (caption m) (message m)) []))))
     (if truthy (filename m)
      then addTrace [EvDecode (cleanBase64 b64); EvDecode (cleanBase64 b64)] st
      else withWorld (snd (dateNow rt (world st)))
             (addTrace [EvDecode (cleanBase64 b64); EvDecode (cleanBase64 b64)]
                st))).
Proof.
  intros Hm. split; [|split].
  - intros Hv. rewrite (deliver_encodedMode rt m b64) by exact Hm.
    now apply base64Branch_invalid.
  - intros Hv Hl. rewrite (deliver_encodedMode rt m b64) by exact Hm.
    apply base64Branch_empty; [exact Hv|]. now apply decode_nil_iff.
  - intros Hv Hl. rewrite (deliver_encodedMode rt m b64) by exact Hm.
    destruct (decode (cleanBase64 b64)) as [|b bs] eqn:Hd.
    { apply decode_nil_iff in Hd; [lia|exact Hv]. }
    rewrite (base64Branch_valid rt m b64 phone st b bs Hv Hd).
    unfold encodedMedia. unfold bind at 1.
    destruct (truthy (filename m)).
    + unfold ret at 1. now rewrite sendMedia_eq.
    + unfold bind at 1. unfold call at 1.
      change (world (addTrace [EvDecode (cleanBase64 b64);
                               EvDecode (cleanBase64 b64)] st))
        with (world st).
      destruct (dateNow rt (world st)) as [now w1].
      unfold ret at 1. now rewrite sendMedia_eq.
Qed.

End EncodedMode.

Lemma encoded_mode_outcomes_witness :
  deliver queue overridden (js "15551230000@c.us") st0 =
  clientSend queue (js "15551230000@c.us")
    (MediaContent {| m_mimetype := js "application/pdf";
                     m_data := js "aGVsbG8=";
                     m_filename := js "image_1700000000000.png" |})
    {| o_caption := Some (js "see this"); o_options := None |}
    (addTrace [EvDecode (js "aGVsbG8="); EvDecode (js "aGVsbG8=")] st0).
Proof.
  refine (proj2 (proj2 (encoded_mode_outcomes queue overridden
            (js "data:image/png;base64,aGVsbG8=") (js "15551230000@c.us")
            st0 _)) eq_refl _).
  - repeat split. discriminate.
  - vm_compute. lia.
Defined.

(** ** Queue consumer: verdicts *)

Section Verdicts.

Context {W : Type} (rt : Runtime W).

(** Dispatch itself never acknowledges or rejects. *)
Lemma dispatch_no_verdict m (st : St W) :
  filter isVerdict (trace (snd (sendWhatsAppMessage rt m st))) =
  filter isVerdict (trace st).
Proof.
  destruct (recipientsOf (to m)) as [e|rs] eqn:Hto.
  - now rewrite (sendWhatsAppMessage_throws rt m e st Hto).
  - destruct (dispatch_turns rt m rs st Hto) as (es & evs & st' & H1 & H2 & H3).
    destruct (Turns_facts _ _ _ _ H3) as (_ & _ & _ & F4 & _).
    rewrite H1. simpl. now rewrite H2, filter_app, F4, app_nil_r.
Qed.

(** The callback on a job that parses, is valid and meets a ready
    client. *)
Lemma onMessage_dispatch content m (st : St W) :
  JSON_parse rt content = inr (JObject m) ->
  validateMessageData m = true ->
  clientInfo rt (world st) = true ->
  onMessage rt (Some content) st =
  match sendWhatsAppMessage rt m st with
  | (inr _, st') => channelDo EvAck st'
  | (inl _, st') => channelDo (EvNack false false) st'
  end.
Proof.
  intros Hp Hv Hr. unfold onMessage, try_catch, bind, read.
  rewrite Hp. cbv beta iota. rewrite Hv. cbn [negb]. cbv beta iota.
  rewrite Hr. cbn [negb]. cbv beta iota.
  destruct (sendWhatsAppMessage rt m st) as [[e|es] st']; [reflexivity|].
  unfold channelDo. destruct (rabbitChannel st'); reflexivity.
Qed.

(** The callback in the other cases: one [channelDo] on the state as it
    was. *)
Lemma onMessage_early content (st : St W) :
  (forall m, JSON_parse rt content = inr (JObject m) ->
             validateMessageData m = true ->
             clientInfo rt (world st) = false) ->
  exists requeue,
    onMessage rt (Some content) st = channelDo (EvNack false requeue) st.
Proof.
  intros H. unfold onMessage, try_catch, bind, read, throw.
  destruct (JSON_parse rt content) as [e|[|m]].
  - now exists false.
  - now exists false.
  - cbv beta iota. destruct (validateMessageData m) eqn:Hv; cbn [negb];
      cbv beta iota.
    + rewrite (H m eq_refl Hv). cbn [negb]. cbv beta iota.
      exists true. unfold channelDo. destruct (rabbitChannel st); reflexivity.
    + exists false. unfold channelDo. destruct (rabbitChannel st); reflexivity.
Qed.

(** X15.  A job that [validateMessageData] accepts and that meets a ready
    client is acknowledged exactly when its [to] is a string or an
    array, and then with one entry per recipient.  For any other [to]
    that passes the validation (a number other than zero, [true], an
    object) the split throws before the loop: the delivery is
    dead-lettered and nothing else is done. *)
Theorem valid_job_is_acknowledged content m (st : St W) :
  rabbitChannel st = true ->
  JSON_parse rt content = inr (JObject m) ->
  validateMessageData m = true ->
  clientInfo rt (world st) = true ->
  match to m with
  | ToStr _ | ToArr _ =>
      exists rs es st',
        recipientsOf (to m) = inr rs /\
        sendWhatsAppMessage rt m st = (inr es, st') /\
        List.length es = List.length rs /\
        onMessage rt (Some content) st = (inr tt, addTrace [EvAck] st')
  | _ =>
      toTruthy (to m) = true /\
      onMessage rt (Some content) st =
      (inr tt, addTrace [EvNack false false] st)
  end.
Proof.
  intros Hch Hp Hv Hr.
  rewrite (onMessage_dispatch content m st Hp Hv Hr).
  assert (Ht : toTruthy (to m) = true).
  { unfold validateMessageData in Hv.
    destruct (toTruthy (to m)); [reflexivity|discriminate]. }
  pose proof (keeps_sendWhatsAppMessage rt m st) as K.
  assert (A : forall rs, recipientsOf (to m) = inr rs ->
              exists rs es st',
                recipientsOf (to m) = inr rs /\
                sendWhatsAppMessage rt m st = (inr es, st') /\
                List.length es = List.length rs /\
                match sendWhatsAppMessage rt m st with
                | (inr _, st') => channelDo EvAck st'
                | (inl _, st') => channelDo (EvNack false false) st'
                end = (inr tt, addTrace [EvAck] st')).
  { intros rs Hrs.
    destruct (dispatch_returns_entries rt m rs st Hrs)
      as (es & st' & H1 & _ & H3).
    exists rs, es, st'. rewrite H1 in *. simpl in K.
    repeat split; auto. apply channelDo_live. congruence. }
  assert (B : forall e, recipientsOf (to m) = inl e ->
              toTruthy (to m) = true /\
              match sendWhatsAppMessage rt m st with
              | (inr _, st') => channelDo EvAck st'
              | (inl _, st') => channelDo (EvNack false false) st'
              end = (inr tt, addTrace [EvNack false false] st)).
  { intros e He. split; [exact Ht|].
    rewrite (sendWhatsAppMessage_throws rt m e st He).
    now apply channelDo_live. }
  destruct (to m) as [|s|l|n| |b|] eqn:Eto;
    try (eapply A; reflexivity); try (eapply B; reflexivity).
Qed.

(** X16.  A valid job can be acknowledged without anything having been sent:
    when neither media mode is selected and the [message] sanitizes to
    the empty text, every recipient gets the empty-after-sanitization
    failure, no call is made, and the only effect of the delivery is the
    ack. *)
Theorem empty_text_is_acknowledged_unsent content m rs (st : St W) :
  rabbitChannel st = true ->
  JSON_parse rt content = inr (JObject m) ->
  validateMessageData m = true ->
  clientInfo rt (world st) = true ->
  textMode m ->
  sanitizeMessage (message m) = [] ->
  recipientsOf (to m) = inr rs ->
  sendWhatsAppMessage rt m st =
  (inr (map (fun r => failed r (js "Message is empty after sanitization")) rs),
   st) /\
  onMessage rt (Some content) st = (inr tt, addTrace [EvAck] st).
Proof.
  intros Hch Hp Hv Hr Hmode Hempty Hto.
  assert (D : sendWhatsAppMessage rt m st =
              (inr (map (fun r => failed r
                           (js "Message is empty after sanitization")) rs),
               st)).
  { rewrite (sendWhatsAppMessage_eq rt m rs st Hto).
    rewrite (forOf_all_failed rt m
               (js "Message is empty after sanitization") []).
    - now rewrite concat_nils, addTrace_nil.
    - intros results r st1. rewrite iteration_eq.
      rewrite deliver_textMode by exact Hmode.
      unfold textBranch. rewrite Hempty. unfold throw.
      now rewrite addTrace_nil. }
  split; [exact D|].
  rewrite (onMessage_dispatch content m st Hp Hv Hr), D.
  now apply channelDo_live.
Qed.

(** X17.  With the channel handle set, every delivery is answered by exactly
    one verdict, and the verdict is the last thing the callback does. *)
Theorem one_verdict_per_delivery content (st : St W) :
  rabbitChannel st = true ->
  exists evs v,
    trace (snd (onMessage rt (Some content) st)) = trace st ++ evs ++ [v] /\
    isVerdict v = true /\ filter isVerdict evs = [].
Proof.
  intros Hch.
  destruct (JSON_parse rt content) as [e|[|m]] eqn:Hp.
  1,2: destruct (onMessage_early content st) as [q Hq];
       [intros m Hm; rewrite Hp in Hm; discriminate|];
       rewrite Hq, channelDo_live by exact Hch;
       exists [], (EvNack false q); repeat split.
  destruct (validateMessageData m && clientInfo rt (world st)) eqn:E.
  - apply andb_true_iff in E. destruct E as [Hv Hr].
    rewrite (onMessage_dispatch content m st Hp Hv Hr).
    pose proof (keeps_sendWhatsAppMessage rt m st) as K.
    pose proof (dispatch_no_verdict m st) as V.
    destruct (recipientsOf (to m)) as [x|rs] eqn:Hto.
    + rewrite (sendWhatsAppMessage_throws rt m x st Hto).
      rewrite channelDo_live by exact Hch.
      exists [], (EvNack false false). repeat split.
    + destruct (dispatch_turns rt m rs st Hto)
        as (es & evs & st' & H1 & H2 & H3).
      destruct (Turns_facts _ _ _ _ H3) as (_ & _ & _ & F4 & _).
      rewrite H1 in *. simpl in K.
      rewrite channelDo_live by congruence.
      exists evs, EvAck. simpl. rewrite H2, <- app_assoc. repeat split.
      exact F4.
  - destruct (onMessage_early content st) as [q Hq].
    + intros m' Hm' Hv. rewrite Hp in Hm'. injection Hm' as <-.
      rewrite Hv in E. simpl in E. exact E.
    + rewrite Hq, channelDo_live by exact Hch.
      exists [], (EvNack false q). repeat split.
Qed.

(** X18.  With the channel handle unset, no delivery gets a verdict, yet a
    valid job that meets a ready client is dispatched all the same. *)
Theorem unset_channel_gives_no_verdict content (st : St W) :
  rabbitChannel st = false ->
  filter isVerdict (trace (snd (onMessage rt (Some content) st))) =
  filter isVerdict (trace st) /\
  (forall m, JSON_parse rt content = inr (JObject m) ->
             validateMessageData m = true ->
             clientInfo rt (world st) = true ->
             snd (onMessage rt (Some content) st) =
             snd (sendWhatsAppMessage rt m st)).
Proof.
  intros Hch.
  assert (D : forall m, JSON_parse rt content = inr (JObject m) ->
              validateMessageData m = true ->
              clientInfo rt (world st) = true ->
              snd (onMessage rt (Some content) st) =
              snd (sendWhatsAppMessage rt m st)).
  { intros m Hp Hv Hr. rewrite (onMessage_dispatch content m st Hp Hv Hr).
    pose proof (keeps_sendWhatsAppMessage rt m st) as K.
    destruct (sendWhatsAppMessage rt m st) as [[e|es] st']; simpl in *;
      unfold channelDo; rewrite K, Hch; reflexivity. }
  split; [|exact D].
  destruct (JSON_parse rt content) as [e|[|m]] eqn:Hp.
  1,2: destruct (onMessage_early content st) as [q Hq];
       [intros m Hm; rewrite Hp in Hm; discriminate|];
       rewrite Hq; unfold channelDo; rewrite Hch; reflexivity.
  destruct (validateMessageData m && clientInfo rt (world st)) eqn:E.
  - apply andb_true_iff in E. destruct E as [Hv Hr].
    rewrite (D m eq_refl Hv Hr). apply dispatch_no_verdict.
  - destruct (onMessage_early content st) as [q Hq].
    + intros m' Hm' Hv. rewrite Hp in Hm'. injection Hm' as <-.
      rewrite Hv in E. simpl in E. exact E.
    + rewrite Hq. unfold channelDo. rewrite Hch. reflexivity.
Qed.

End Verdicts.

Lemma valid_job_is_acknowledged_witness :
  (exists st',
      onMessage (demo true) (Some (js "refused")) st0 =
      (inr tt, addTrace [EvAck] st')) /\
  onMessage (parsing flagged) (Some (js "flagged")) st0 =
  (inr tt, addTrace [EvNack false false] st0).
Proof.
  split.
  - destruct (valid_job_is_acknowledged (demo true) (js "refused") allRefused
                st0 eq_refl eq_refl eq_refl eq_refl)
      as (rs & es & st' & _ & _ & _ & H).
    exists st'. exact H.
  - exact (proj2 (valid_job_is_acknowledged (parsing flagged) (js "flagged")
                    flagged st0 eq_refl eq_refl eq_refl eq_refl)).
Defined.

Lemma empty_text_is_acknowledged_unsent_witness :
  onMessage queue (Some (js "untagged")) st0 = (inr tt, addTrace [EvAck] st0).
Proof.
  refine (proj2 (empty_text_is_acknowledged_unsent queue (js "untagged")
                   untagged [js "15551230000"] st0
                   eq_refl eq_refl eq_refl eq_refl _ eq_refl eq_refl)).
  split; reflexivity.
Defined.

Lemma one_verdict_per_delivery_witness :
  exists evs v,
    trace (snd (onMessage (demo true) (Some (js "two")) st0)) =
    trace st0 ++ evs ++ [v] /\
    isVerdict v = true /\ filter isVerdict evs = [].
Proof.
  exact (one_verdict_per_delivery (demo true) (js "two") st0 eq_refl).
Defined.

Lemma unset_channel_gives_no_verdict_witness :
  filter isVerdict (trace (snd (onMessage (demo true) (Some (js "two")) closed)))
  = [] /\
  snd (onMessage (demo true) (Some (js "two")) closed) =
  snd (sendWhatsAppMessage (demo true) twoRecipients closed).
Proof.
  destruct (unset_channel_gives_no_verdict (demo true) (js "two") closed
              eq_refl) as [H1 H2].
  split; [exact H1|]. apply H2; reflexivity.
Defined.

(** ** Inbound commands *)

Lemma startsWith_eq (p s : jsstring) :
  startsWith p s = true -> s = p ++ skipn (List.length p) s.
Proof.
  revert s. induction p as [|x p IH]; intros s H; [reflexivity|].
  destruct s as [|y s]; [discriminate|]. simpl in H.
  apply andb_true_iff in H. destruct H as [H1 H2].
  apply N.eqb_eq in H1. subst y. simpl. f_equal. now apply IH.
Qed.

Section InboundFacts.

Context {W : Type} (cl : Client W).

Lemma emits_ireturn {A} P (a : A) : emits (W := W) P (ireturn a).
Proof. intros st. exists []. simpl. now rewrite app_nil_r. Qed.

Lemma emits_ithrow {A} P e : emits (W := W) (A := A) P (ithrow e).
Proof. intros st. exists []. simpl. now rewrite app_nil_r. Qed.

Lemma emits_pure {A} P (x : Exn + A) : emits (W := W) P (fun st => (x, st)).
Proof. intros st. exists []. simpl. now rewrite app_nil_r. Qed.

Lemma emits_ask {A} P (f : W -> (Exn + A) * W) : emits P (ask f).
Proof.
  intros st. exists []. unfold ask. destruct (f (iworld st)). simpl.
  now rewrite app_nil_r.
Qed.

Lemma emits_fire (P : Action -> Prop) a : P a -> emits P (fire cl a).
Proof.
  intros H st. exists [a]. unfold fire.
  destruct (perform cl a (iworld st)). simpl. auto.
Qed.

Lemma emits_await (P : Action -> Prop) a : P a -> emits P (await cl a).
Proof.
  intros H st. exists [a]. unfold await.
  destruct (perform cl a (iworld st)). simpl. auto.
Qed.

Lemma emits_ibind {A B} P (c : IM W A) (k : A -> IM W B) :
  emits P c -> (forall a, emits P (k a)) -> emits P (ibind c k).
Proof.
  intros Hc Hk st. unfold ibind. destruct (Hc st) as (n1 & E1 & F1).
  destruct (c st) as [[e|a] st1]; simpl in *; [eauto|].
  destruct (Hk a st1) as (n2 & E2 & F2).
  exists (n1 ++ n2). rewrite E2, E1, app_assoc. split; [reflexivity|].
  apply Forall_app. auto.
Qed.

Lemma emits_icatch {A} P (c : IM W A) (h : Exn -> IM W A) :
  emits P c -> (forall e, emits P (h e)) -> emits P (icatch c h).
Proof.
  intros Hc Hh st. unfold icatch. destruct (Hc st) as (n1 & E1 & F1).
  destruct (c st) as [[e|a] st1]; simpl in *; [|eauto].
  destruct (Hh e st1) as (n2 & E2 & F2).
  exists (n1 ++ n2). rewrite E2, E1, app_assoc. split; [reflexivity|].
  apply Forall_app. auto.
Qed.

Lemma emits_request P prompt :
  P (AGenerate prompt) -> emits P (request cl prompt).
Proof.
  intros H st. exists [AGenerate prompt]. unfold request.
  destruct (generate cl prompt (iworld st)). simpl. auto.
Qed.

End InboundFacts.

Ltac emits_step :=
  first
    [ apply emits_ireturn | apply emits_ithrow | apply emits_pure
    | apply emits_ask
    | apply emits_fire; exact I | apply emits_await; exact I
    | apply emits_request; exact I
    | apply emits_ibind; [|intros ?] | apply emits_icatch; [|intros ?]
    | match goal with
      | |- emits _ (if ?b then _ else _) => destruct b
      | |- emits _ (match ?x with _ => _ end) => destruct x
      end ].

Section InboundTheorems.

Context {W : Type} (cl : Client W).

(** [runCommand] is the chain of commands on the sanitized body; an
    empty or missing body sanitizes to the empty text, which is no
    command. *)
Lemma runCommand_eq msg (st : ISt W) :
  runCommand cl msg st = command cl msg (sanitizeMessage (body msg)) st.
Proof.
  unfold runCommand. destruct (body msg) as [[|c b]|]; reflexivity.
Qed.

Lemma cmdEdit_notEdit msg : emits notEdit (cmdEdit cl msg (js "!edit")).
Proof.
  unfold cmdEdit.
  change (sanitizeMessage (Some (replaceFirst (js "!edit") [] (js "!edit"))))
    with (@nil N).
  repeat emits_step.
Qed.

Lemma command_notEdit msg sb : emits notEdit (command cl msg sb).
Proof.
  unfold command.
  repeat match goal with
         | |- emits _ (if ?b then _ else _) => destruct b eqn:?
         end;
    try match goal with
        | H : equals sb "!edit" = true |- emits _ (cmdEdit _ _ _) =>
            apply str_eqb_eq in H; rewrite H; apply cmdEdit_notEdit
        end;
    unfold cmdSendto, cmdGroupOnly, cmdReplyRest, cmdMediainfo, cmdQuoteinfo,
      cmdResendmedia, cmdIsviewonce, cmdStatus, cmdDelete, cmdChat,
      cmdJumpto, cmdAddlabels;
    try solve [repeat emits_step].
  - (* !info *)
    intros st. unfold cmdInfo. destruct (info cl (iworld st)).
    + apply emits_fire. exact I.
    + exists []. simpl. now rewrite app_nil_r.
  - (* !mute *)
    unfold cmdMute. apply emits_ibind; [apply emits_ask|].
    intros chat st. apply emits_await. exact I.
Qed.

(** X19.  The [!edit] command can never edit: its branch is entered only when
    the sanitized body is exactly [!edit], so the text left after the
    command word is always empty, and no other command edits either.
    Whatever the message and the client, [runCommand] and the message
    listener start no edit. *)
Theorem edit_is_never_started msg (st : ISt W) :
  (forall text,
      In (AEdit text) (actions (snd (runCommand cl msg st))) ->
      In (AEdit text) (actions st)) /\
  (forall text,
      In (AEdit text) (actions (snd (onInbound cl msg st))) ->
      In (AEdit text) (actions st)).
Proof.
  assert (R : emits notEdit (runCommand cl msg)).
  { intros st1. rewrite runCommand_eq. apply command_notEdit. }
  assert (K : forall (c : IM W unit) st1 text,
             emits notEdit c ->
             In (AEdit text) (actions (snd (c st1))) ->
             In (AEdit text) (actions st1)).
  { intros c st1 text Hc Hin. destruct (Hc st1) as (new & E & F).
    rewrite E in Hin. apply in_app_or in Hin. destruct Hin as [H|H]; auto.
    rewrite Forall_forall in F. destruct (F _ H). }
  split; intros text; apply K; [exact R|].
  unfold onInbound. destruct (body msg) as [[|c b]|]; try apply emits_ireturn.
  destruct (str_eqb (hd [] (split 32 (c :: b))) (js "/jarvis")).
  - unfold jarvis, say. repeat emits_step.
  - intros st1. destruct (R st1) as (new & E & F). exists new. auto.
Qed.

End InboundTheorems.

Lemma equals_not_bang c (t : jsstring) (s : string) :
  c <> 33 -> equals (c :: t) (String "!" s) = false.
Proof.
  intros H. unfold equals.
  change (js (String "!" s)) with (33 :: js s).
  cbn [str_eqb]. apply N.eqb_neq in H. now rewrite H.
Qed.

Lemma starts_not_bang c (t : jsstring) (s : string) :
  c <> 33 -> starts (c :: t) (String "!" s) = false.
Proof.
  intros H. unfold starts.
  change (js (String "!" s)) with (33 :: js s).
  cbn [startsWith]. apply N.eqb_neq in H. rewrite N.eqb_sym in H.
  now rewrite H.
Qed.

Lemma sliceFrom_app (p r : jsstring) :
  sliceFrom (p ++ r) (Z.of_nat (List.length p)) = r.
Proof.
  unfold sliceFrom, slice. rewrite length_app.
  replace (Z.of_nat (List.length p) <? 0)%Z with false
    by (symmetry; apply Z.ltb_ge; lia).
  replace (Z.of_nat (List.length p + List.length r) <? 0)%Z with false
    by (symmetry; apply Z.ltb_ge; lia).
  rewrite Z.min_id, Z.min_l by lia.
  rewrite Nat2Z.id.
  replace (Z.to_nat (Z.of_nat (List.length p + List.length r)
                     - Z.of_nat (List.length p)))
    with (List.length r) by lia.
  rewrite skipn_app, skipn_all, Nat.sub_diag. simpl. apply firstn_all.
Qed.

Lemma dropWhile_last p (s : jsstring) l r :
  rev s = l :: r -> p l = false -> exists r', rev (dropWhile p s) = l :: r'.
Proof.
  revert r. induction s as [|c s IH]; intros r H Hl; [discriminate|].
  simpl. destruct (p c) eqn:E; [|eauto].
  simpl in H. destruct (rev s) as [|x t] eqn:Er.
  - simpl in H. injection H as -> _. congruence.
  - simpl in H. injection H as -> _. eapply IH; eauto.
Qed.

(** A text whose last unit is not white space keeps it under [trim]. *)
Lemma trim_keeps_last (s : jsstring) l r :
  rev s = l :: r -> isWhiteSpace l = false ->
  exists r', rev (trim s) = l :: r'.
Proof.
  intros H Hl. unfold trim, trimStart.
  destruct (dropWhile_last isWhiteSpace s l r H Hl) as (r' & E).
  exists r'. rewrite trimEnd_fix; [exact E|]. now rewrite E.
Qed.

(** What is known of a sanitized text that starts with the words [p]
    ending in a space: the rest is not empty, is left by the sanitizer
    but for the trim, and its trim is not empty. *)
Lemma sanitized_rest x (p rest : jsstring) :
  sanitizeMessage x = p ++ 32 :: rest ->
  sanitizeMessage (Some rest) = trim rest /\ trim rest <> [].
Proof.
  intros H.
  assert (K : forall u, In u rest -> isControl u = false /\ isBOM u = false).
  { intros u Hu.
    assert (Hin : In u (sanitizeMessage x))
      by (rewrite H; apply in_or_app; right; now right).
    apply In_sanitizeMessage in Hin. tauto. }
  assert (L : match rev (sanitizeMessage x) with
              | [] => True
              | c :: _ => isWhiteSpace c = false
              end).
  { destruct x as [s|]; [|exact I].
    rewrite sanitizeMessage_filter. apply trim_last. }
  rewrite H in L. rewrite rev_app_distr in L. simpl in L.
  destruct (rev rest) as [|l r] eqn:Er.
  - simpl in L. vm_compute in L. discriminate L.
  - simpl in L.
    destruct (trim_keeps_last rest l r Er L) as (r' & E).
    assert (Hne : rest <> []) by (intros ->; discriminate Er).
    split.
    + destruct rest as [|c t]; [contradiction|].
      unfold sanitizeMessage.
      rewrite (removeAll_id isControl) by (intros u Hu; now apply K).
      rewrite (removeAll_id isBOM) by (intros u Hu; now apply K).
      reflexivity.
    + intros T. rewrite T in E. discriminate E.
Qed.

Section InboundCommands.

Context {W : Type} (cl : Client W).

(** X20.  A message whose sanitized body does not start with [!] runs no
    command: [runCommand] starts no action, asks nothing and returns;
    and unless the first word of the raw body is [/jarvis], the whole
    listener does nothing. *)
Theorem plain_text_is_ignored msg (st : ISt W) :
  match sanitizeMessage (body msg) with
  | 33 :: _ => False
  | _ => True
  end ->
  runCommand cl msg st = (inr tt, st) /\
  (str_eqb (hd [] (split 32 (orElse (body msg) []))) (js "/jarvis") = false ->
   onInbound cl msg st = (inr tt, st)).
Proof.
  intros H.
  assert (R : runCommand cl msg st = (inr tt, st)).
  { rewrite runCommand_eq.
    destruct (sanitizeMessage (body msg)) as [|c t]; [reflexivity|].
    assert (Hc : c <> 33) by (intros ->; exact H).
    unfold command.
    rewrite !(equals_not_bang c t) by exact Hc.
    rewrite !(starts_not_bang c t) by exact Hc.
    reflexivity. }
  split; [exact R|]. intros Hj. unfold onInbound.
  destruct (body msg) as [[|c b]|] eqn:Eb; try reflexivity.
  simpl orElse in Hj. rewrite Hj.
  unfold runCommand in R. rewrite Eb in R.
  unfold runCommand. rewrite Eb. now rewrite R.
Qed.

Lemma command_echo msg rest (st : ISt W) :
  command cl msg (js "!echo " ++ rest) st =
  cmdReplyRest cl (js "!echo " ++ rest) 6 false st.
Proof. reflexivity. Qed.

Lemma command_preview msg rest (st : ISt W) :
  command cl msg (js "!preview " ++ rest) st =
  cmdReplyRest cl (js "!preview " ++ rest) 9 true st.
Proof. reflexivity. Qed.

(** X21.  [!echo] and [!preview] always reply: since the sanitized body is
    trimmed, what follows the command word is never empty, so the test
    on the text never fails; the reply is the rest, trimmed. *)
Theorem echo_always_replies msg rest (st : ISt W) :
  (sanitizeMessage (body msg) = js "!echo " ++ rest ->
   trim rest <> [] /\
   runCommand cl msg st = fire cl (AReply (trim rest) false) st) /\
  (sanitizeMessage (body msg) = js "!preview " ++ rest ->
   trim rest <> [] /\
   runCommand cl msg st = fire cl (AReply (trim rest) true) st).
Proof.
  split; intros H.
  - destruct (sanitized_rest (body msg) (js "!echo") rest) as [S1 S2];
      [rewrite H; reflexivity|].
    split; [exact S2|].
    rewrite runCommand_eq, H, command_echo. unfold cmdReplyRest.
    replace (sliceFrom (js "!echo " ++ rest) 6) with rest
      by (symmetry; apply (sliceFrom_app (js "!echo ") rest)).
    rewrite S1.
    destruct (trim rest); [contradiction|reflexivity].
  - destruct (sanitized_rest (body msg) (js "!preview") rest) as [S1 S2];
      [rewrite H; reflexivity|].
    split; [exact S2|].
    rewrite runCommand_eq, H, command_preview. unfold cmdReplyRest.
    replace (sliceFrom (js "!preview " ++ rest) 9) with rest
      by (symmetry; apply (sliceFrom_app (js "!preview ") rest)).
    rewrite S1.
    destruct (trim rest); [contradiction|reflexivity].
Qed.

End InboundCommands.

Lemma plain_text_is_ignored_witness :
  onInbound bot (inbound (js " /jarvis hola") false) idle = (inr tt, idle).
Proof.
  apply (plain_text_is_ignored bot (inbound (js " /jarvis hola") false) idle).
  - exact I.
  - reflexivity.
Defined.

Lemma echo_always_replies_witness :
  runCommand bot (inbound ([65279] ++ js "!echo   hi ") false) idle =
  fire bot (AReply (js "hi") false) idle.
Proof.
  apply (proj1 (echo_always_replies bot
                  (inbound ([65279] ++ js "!echo   hi ") false)
                  (js "  hi") idle)).
  reflexivity.
Defined.

Lemma indexOfFrom_eq (p s : jsstring) i :
  indexOfFrom p s i =
  if startsWith p s then Some i
  else match s with
       | [] => None
       | _ :: s' => indexOfFrom p s' (S i)
       end.
Proof. destruct s; reflexivity. Qed.

Lemma indexOfFrom_skip d (n' pre s : jsstring) i :
  ~ In d pre ->
  indexOfFrom (d :: n') (pre ++ s) i =
  indexOfFrom (d :: n') s (List.length pre + i).
Proof.
  revert i. induction pre as [|c pre IH]; intros i H; [reflexivity|].
  simpl app. rewrite indexOfFrom_eq. cbn [startsWith].
  assert (E : (d =? c) = false)
    by (apply N.eqb_neq; intros ->; apply H; now left).
  rewrite E. cbn [andb]. rewrite IH by (intros K; apply H; now right).
  simpl List.length. f_equal. lia.
Qed.

(** The first occurrence of a word whose first unit does not occur
    before it. *)
Lemma indexOf_word d (n' pre rest : jsstring) :
  ~ In d pre ->
  indexOf (d :: n') (pre ++ (d :: n') ++ rest) = Z.of_nat (List.length pre).
Proof.
  intros H. unfold indexOf. rewrite indexOfFrom_skip by exact H.
  rewrite indexOfFrom_eq, startsWith_app. f_equal. lia.
Qed.

Lemma split_second sep (h w rest : jsstring) :
  ~ In sep h -> ~ In sep w ->
  rest = [] \/ (exists r, rest = sep :: r) ->
  nth_error (split sep (h ++ sep :: w ++ rest)) 1 = Some w.
Proof.
  intros Hh Hw [->|[r ->]]; rewrite split_app_sep by exact Hh;
    cbn [nth_error].
  - rewrite app_nil_r, split_without_sep by exact Hw. reflexivity.
  - rewrite split_app_sep by exact Hw. reflexivity.
Qed.

Lemma sanitizeMessage_clean (w : jsstring) :
  (forall u, In u w -> isControl u = false /\ isBOM u = false) ->
  sanitizeMessage (Some w) = trim w.
Proof.
  intros K. destruct w as [|c t]; [reflexivity|].
  unfold sanitizeMessage.
  rewrite (removeAll_id isControl) by (intros u Hu; now apply K).
  rewrite (removeAll_id isBOM) by (intros u Hu; now apply K).
  reflexivity.
Qed.

Lemma sanitizeMessage_space (r : jsstring) :
  sanitizeMessage (Some (32 :: r)) = sanitizeMessage (Some r).
Proof. rewrite !sanitizeMessage_filter. reflexivity. Qed.

Section InboundWords.

Context {W : Type} (cl : Client W).

Lemma fire_eq a (st : ISt W) :
  fire cl a st =
  (inr tt, {| iworld := snd (perform cl a (iworld st));
              actions := actions st ++ [a] |}).
Proof. unfold fire. now destruct (perform cl a (iworld st)). Qed.

Lemma await_eq a (st : ISt W) :
  await cl a st =
  (fst (perform cl a (iworld st)),
   {| iworld := snd (perform cl a (iworld st));
      actions := actions st ++ [a] |}).
Proof. unfold await. now destruct (perform cl a (iworld st)). Qed.

Lemma ask_eq {A} (f : W -> (Exn + A) * W) (st : ISt W) :
  ask f st =
  (fst (f (iworld st)),
   {| iworld := snd (f (iworld st)); actions := actions st |}).
Proof. unfold ask. now destruct (f (iworld st)). Qed.

Lemma command_sendto msg rest (st : ISt W) :
  command cl msg (js "!sendto " ++ rest) st =
  cmdSendto cl msg (js "!sendto " ++ rest) st.
Proof. reflexivity. Qed.

Lemma command_status msg rest (st : ISt W) :
  command cl msg (js "!status " ++ rest) st =
  cmdStatus cl (js "!status " ++ rest) st.
Proof. reflexivity. Qed.

(** What [cmdSendto] starts, once the number and the message are
    known. *)
Lemma cmdSendto_actions msg sb number message (st : ISt W) :
  nth_error (split 32 sb) 1 = Some number ->
  sanitizeMessage
    (Some (slice sb (indexOf number sb + Z.of_nat (List.length number))
             (Z.of_nat (List.length sb)))) = message ->
  message <> [] ->
  actions (snd (cmdSendto cl msg sb st)) =
  actions st ++
  match fst (getChat cl (iworld st)) with
  | inl _ => []
  | inr _ => [ASendSeen; ASend (phoneNumberOf number) (PText message) SNone]
  end.
Proof.
  intros Hn Hm Hne. unfold cmdSendto. rewrite Hn. cbv zeta. rewrite Hm.
  unfold ibind. rewrite ask_eq.
  destruct (fst (getChat cl (iworld st))) as [e|chat].
  - simpl. now rewrite app_nil_r.
  - rewrite fire_eq. destruct message as [|c t]; [contradiction|].
    rewrite fire_eq. simpl. now rewrite <- app_assoc.
Qed.

(** X22.  [!sendto <number> <text>]: when the first unit of the number is
    not one of the units of the command word (a digit never is), the
    chat is marked as seen and the trimmed text after the number is sent
    to the number, completed with [@c.us]; nothing is started when the
    chat cannot be had. *)
Theorem sendto_sends_text_after_number msg d n' r (st : ISt W) :
  sanitizeMessage (body msg) = js "!sendto " ++ (d :: n') ++ 32 :: r ->
  ~ In 32 (d :: n') ->
  ~ In d (js "!sendto ") ->
  trim r <> [] /\
  actions (snd (runCommand cl msg st)) =
  actions st ++
  match fst (getChat cl (iworld st)) with
  | inl _ => []
  | inr _ =>
      [ASendSeen; ASend (phoneNumberOf (d :: n')) (PText (trim r)) SNone]
  end.
Proof.
  intros H Hsp Hd.
  destruct (sanitized_rest (body msg) (js "!sendto " ++ d :: n') r)
    as [S1 S2]; [rewrite H; now rewrite <- app_assoc|].
  split; [exact S2|].
  rewrite runCommand_eq, H, command_sendto.
  apply cmdSendto_actions.
  - apply (split_second 32 (js "!sendto") (d :: n') (32 :: r)).
    + vm_compute. intuition discriminate.
    + exact Hsp.
    + right. now exists r.
  - rewrite (indexOf_word d n' (js "!sendto ") (32 :: r)) by exact Hd.
    rewrite <- Nat2Z.inj_add, <- length_app.
    rewrite (app_assoc (js "!sendto ") (d :: n') (32 :: r)).
    pose proof (sliceFrom_app (js "!sendto " ++ d :: n') (32 :: r)) as E.
    unfold sliceFrom in E. rewrite E.
    now rewrite sanitizeMessage_space.
  - exact S2.
Qed.

(** X23.  [!sendto] followed by two spaces: the number is the empty word, it
    is found at index 0, and the whole command line is sent to the chat
    [@c.us]. *)
Theorem sendto_double_space_sends_the_command msg r (st : ISt W) :
  sanitizeMessage (body msg) = js "!sendto " ++ 32 :: r ->
  actions (snd (runCommand cl msg st)) =
  actions st ++
  match fst (getChat cl (iworld st)) with
  | inl _ => []
  | inr _ =>
      [ASendSeen;
       ASend (js "@c.us") (PText (js "!sendto " ++ 32 :: r)) SNone]
  end.
Proof.
  intros H. rewrite runCommand_eq, H, command_sendto.
  apply (cmdSendto_actions msg (js "!sendto " ++ 32 :: r) []).
  - change (js "!sendto " ++ 32 :: r)
      with (js "!sendto" ++ 32 :: [] ++ 32 :: r).
    apply split_second.
    + vm_compute. intuition discriminate.
    + intros [].
    + right. now exists r.
  - rewrite <- H.
    replace (indexOf [] (sanitizeMessage (body msg)) + Z.of_nat (List.length (@nil N)))%Z
      with 0%Z
      by (unfold indexOf; rewrite indexOfFrom_eq; reflexivity).
    pose proof (sliceFrom_app [] (sanitizeMessage (body msg))) as E.
    unfold sliceFrom in E.
    change ([] ++ sanitizeMessage (body msg))
      with (sanitizeMessage (body msg)) in E.
    change (Z.of_nat (List.length (@nil N))) with 0%Z in E.
    rewrite E. apply sanitize_twice.
  - discriminate.
Qed.

(** X24.  [!status]: only the first word after the command is used, the
    words after it are dropped; the confirmation is sent once the change
    of status went through. *)
Theorem status_takes_the_first_word msg w rest (st : ISt W) :
  sanitizeMessage (body msg) = js "!status " ++ w ++ rest ->
  ~ In 32 w ->
  rest = [] \/ (exists r, rest = 32 :: r) ->
  actions (snd (runCommand cl msg st)) =
  actions st ++
  match trim w with
  | [] => []
  | s =>
      ASetStatus s ::
      match fst (perform cl (ASetStatus s) (iworld st)) with
      | inl _ => []
      | inr _ =>
          [AReply (js "Status was updated to *" ++ s ++ js "*") false]
      end
  end.
Proof.
  intros H Hw Hr. rewrite runCommand_eq, H, command_status.
  unfold cmdStatus.
  change (js "!status " ++ w ++ rest)
    with (js "!status" ++ 32 :: w ++ rest).
  rewrite (split_second 32 (js "!status") w rest);
    [|vm_compute; intuition discriminate|exact Hw|exact Hr].
  rewrite sanitizeMessage_clean.
  2:{ intros u Hu.
      assert (Hin : In u (sanitizeMessage (body msg))).
      { rewrite H. apply in_or_app. right. apply in_or_app. now left. }
      apply In_sanitizeMessage in Hin. tauto. }
  destruct (trim w) as [|c t]; [simpl; now rewrite app_nil_r|].
  unfold ibind. rewrite await_eq.
  destruct (fst (perform cl (ASetStatus (c :: t)) (iworld st))).
  - reflexivity.
  - rewrite fire_eq. simpl. now rewrite <- app_assoc.
Qed.

End InboundWords.

Lemma sendto_sends_text_after_number_witness :
  actions (snd (runCommand bot
                  (inbound (js "!sendto 15551230001  hello there ") false)
                  idle)) =
  [ASendSeen;
   ASend (js "15551230001@c.us") (PText (js "hello there")) SNone].
Proof.
  apply (proj2 (sendto_sends_text_after_number bot
                  (inbound (js "!sendto 15551230001  hello there ") false)
                  49 (js "5551230001") (js " hello there") idle
                  eq_refl
                  ltac:(vm_compute; intuition discriminate)
                  ltac:(vm_compute; intuition discriminate))).
Defined.

Lemma sendto_double_space_sends_the_command_witness :
  actions (snd (runCommand bot
                  (inbound (js "!sendto  15551230001 hello") false) idle)) =
  [ASendSeen;
   ASend (js "@c.us") (PText (js "!sendto  15551230001 hello")) SNone].
Proof.
  apply (sendto_double_space_sends_the_command bot
           (inbound (js "!sendto  15551230001 hello") false)
           (js "15551230001 hello") idle eq_refl).
Defined.

Lemma status_takes_the_first_word_witness :
  actions (snd (runCommand bot
                  (inbound (js "!status out of office") false) idle)) =
  [ASetStatus (js "out");
   AReply (js "Status was updated to *out*") false].
Proof.
  apply (status_takes_the_first_word bot
           (inbound (js "!status out of office") false)
           (js "out") (js " of office") idle eq_refl).
  - vm_compute. intuition discriminate.
  - right. now exists (js "of office").
Defined.

Section InboundAssistant.

Context {W : Type} (cl : Client W).

Lemma onInbound_jarvis msg p (st : ISt W) :
  body msg = Some (js "/jarvis" ++ 32 :: p) ->
  onInbound cl msg st = jarvis cl msg (js "/jarvis" ++ 32 :: p) st.
Proof.
  intros H. unfold onInbound. rewrite H.
  change (js "/jarvis" ++ 32 :: p) with (47 :: js "jarvis" ++ 32 :: p).
  cbv beta iota.
  change (47 :: js "jarvis" ++ 32 :: p) with (js "/jarvis" ++ 32 :: p).
  rewrite split_app_sep by (vm_compute; intuition discriminate).
  reflexivity.
Qed.

(** The prompt of the [/jarvis] route is the text after the first
    space. *)
Lemma jarvis_prompt (p : jsstring) :
  join 32 (tl (split 32 (js "/jarvis" ++ 32 :: p))) = p.
Proof.
  rewrite split_app_sep by (vm_compute; intuition discriminate).
  apply join_split.
Qed.

Lemma say_eq msg text (st : ISt W) :
  say cl msg text st =
  (fst (perform cl (ASend (from msg) (PText text) SNone) (iworld st)),
   {| iworld := snd (perform cl (ASend (from msg) (PText text) SNone)
                       (iworld st));
      actions := actions st ++ [ASend (from msg) (PText text) SNone] |}).
Proof. apply await_eq. Qed.

(** X25.  [/jarvis <prompt>]: when the sends go through, the sender gets
    exactly one message and it is not empty, whatever the generator
    does; the generator is asked once, with the text after the first
    space followed by the fixed instruction, and not at all for a
    message with media. *)
Theorem jarvis_replies_once msg p (st : ISt W) :
  body msg = Some (js "/jarvis" ++ 32 :: p) ->
  (forall text w,
     fst (perform cl (ASend (from msg) (PText text) SNone) w) = inr tt) ->
  exists text,
    text <> [] /\
    fst (onInbound cl msg st) = inr tt /\
    actions (snd (onInbound cl msg st)) =
    actions st ++
    (if hasMedia msg then [] else [AGenerate (p ++ promptSuffix)]) ++
    [ASend (from msg) (PText text) SNone].
Proof.
  intros Hb Hs. rewrite (onInbound_jarvis msg p st Hb).
  unfold jarvis. destruct (hasMedia msg); cbn [negb].
  - exists noImages. rewrite say_eq, Hs.
    split; [intros E; vm_compute in E; discriminate E|].
    split; reflexivity.
  - cbv zeta. rewrite jarvis_prompt.
    unfold icatch, ibind, request.
    destruct (generate cl (p ++ promptSuffix) (iworld st)) as [[e|res] w'].
    + exists unreachable. rewrite say_eq, Hs.
      split; [intros E; vm_compute in E; discriminate E|].
      split; [reflexivity|]. simpl. now rewrite <- app_assoc.
    + destruct (g_status res =? 200).
      * destruct (g_json res) as [e|jss].
        -- exists unreachable. rewrite say_eq, Hs.
           split; [intros E; vm_compute in E; discriminate E|].
           split; [reflexivity|]. simpl. now rewrite <- app_assoc.
        -- destruct (answerOf cl jss) as [e|text].
           ++ exists badAnswer. rewrite say_eq, Hs.
              split; [intros E; vm_compute in E; discriminate E|].
              split; [reflexivity|]. simpl. now rewrite <- app_assoc.
           ++ destruct (sanitizeMessage (Some text)) as [|c t].
              ** exists noAnswer. rewrite say_eq, Hs.
                 split; [intros E; vm_compute in E; discriminate E|].
                 split; [reflexivity|]. simpl. now rewrite <- app_assoc.
              ** exists (c :: t). rewrite say_eq, Hs.
                 split; [discriminate|].
                 split; [reflexivity|]. simpl. now rewrite <- app_assoc.
      * exists (js "Error: " ++ g_statusText res). rewrite say_eq, Hs.
        split; [intros E; vm_compute in E; discriminate E|].
        split; [reflexivity|]. simpl. now rewrite <- app_assoc.
Qed.

(** X26.  [/jarvis]: when the send of the generated answer is refused, the
    refusal is taken for a failure to read the answer: the next action
    is the send of the text that blames the processing of the answer.
    If that send goes through the listener ends there; if it is refused
    too, the text that blames the connection to the assistant is sent,
    and the listener ends as that last send does. *)
Theorem jarvis_refused_answer_is_blamed_on_parsing
  msg p res jss text r e w' (st : ISt W) :
  body msg = Some (js "/jarvis" ++ 32 :: p) ->
  hasMedia msg = false ->
  generate cl (p ++ promptSuffix) (iworld st) = (inr res, w') ->
  g_status res = 200 ->
  g_json res = inr jss ->
  answerOf cl jss = inr text ->
  sanitizeMessage (Some text) = r ->
  r <> [] ->
  fst (perform cl (ASend (from msg) (PText r) SNone) w') = inl e ->
  let answer := ASend (from msg) (PText r) SNone in
  let blame := ASend (from msg) (PText badAnswer) SNone in
  let lost := ASend (from msg) (PText unreachable) SNone in
  let started := actions st ++ [AGenerate (p ++ promptSuffix); answer; blame] in
  let w1 := snd (perform cl answer w') in
  let w2 := snd (perform cl blame w1) in
  onInbound cl msg st =
  match fst (perform cl blame w1) with
  | inr _ => (inr tt, {| iworld := w2; actions := started |})
  | inl _ =>
      (fst (perform cl lost w2),
       {| iworld := snd (perform cl lost w2);
          actions := started ++ [lost] |})
  end.
Proof.
  intros Hb Hm Hg H200 Hj Ha Hr Hne He.
  rewrite (onInbound_jarvis msg p st Hb).
  unfold jarvis. rewrite Hm. cbn [negb]. cbv zeta. rewrite jarvis_prompt.
  unfold icatch, ibind, request. rewrite Hg, H200. cbn [N.eqb Pos.eqb].
  rewrite Hj, Ha, Hr. destruct r as [|c t]; [contradiction|].
  rewrite say_eq. cbn [iworld]. rewrite He.
  rewrite say_eq. cbn [iworld actions].
  destruct (fst (perform cl (ASend (from msg) (PText badAnswer) SNone)
                   (snd (perform cl (ASend (from msg) (PText (c :: t)) SNone)
                           w'))))
    as [e2|[]].
  - rewrite say_eq. cbn [iworld actions]. rewrite <- !app_assoc. reflexivity.
  - rewrite <- !app_assoc. reflexivity.
Qed.

End InboundAssistant.

Lemma jarvis_replies_once_witness :
  exists text,
    text <> [] /\
    fst (onInbound bot (inbound (js "/jarvis  hola  mundo") false) idle) =
    inr tt /\
    actions (snd (onInbound bot (inbound (js "/jarvis  hola  mundo") false)
                    idle)) =
    [] ++ [AGenerate (js " hola  mundo" ++ promptSuffix)] ++
    [ASend (js "15551230009@c.us") (PText text) SNone].
Proof.
  apply (jarvis_replies_once bot
           (inbound (js "/jarvis  hola  mundo") false)
           (js " hola  mundo") idle eq_refl).
  intros text w. reflexivity.
Defined.

Lemma jarvis_refused_answer_is_blamed_on_parsing_witness :
  onInbound deaf (inbound (js "/jarvis hola") false) idle =
  (inl (JsError (js "Error") (js "refused")),
   {| iworld := 3%nat;
      actions :=
        [AGenerate (js "hola" ++ promptSuffix);
         ASend (js "15551230009@c.us") (PText (js "hola")) SNone;
         ASend (js "15551230009@c.us") (PText badAnswer) SNone;
         ASend (js "15551230009@c.us") (PText unreachable) SNone] |}) /\
  onInbound hoarse (inbound (js "/jarvis hola") false) idle =
  (inr tt,
   {| iworld := 2%nat;
      actions :=
        [AGenerate (js "hola" ++ promptSuffix);
         ASend (js "15551230009@c.us") (PText (js "hola")) SNone;
         ASend (js "15551230009@c.us") (PText badAnswer) SNone] |}).
Proof.
  split.
  - exact (jarvis_refused_answer_is_blamed_on_parsing deaf
             (inbound (js "/jarvis hola") false) (js "hola")
             {| g_status := 200; g_statusText := js "OK";
                g_json := inr (Some (js "{}")) |}
             (Some (js "{}")) (js " hola ") (js "hola")
             (JsError (js "Error") (js "refused")) 0%nat idle
             eq_refl eq_refl eq_refl eq_refl eq_refl eq_refl eq_refl
             ltac:(discriminate) eq_refl).
  - exact (jarvis_refused_answer_is_blamed_on_parsing hoarse
             (inbound (js "/jarvis hola") false) (js "hola")
             {| g_status := 200; g_statusText := js "OK";
                g_json := inr (Some (js "{}")) |}
             (Some (js "{}")) (js " hola ") (js "hola")
             (JsError (js "Error") (js "refused")) 0%nat idle
             eq_refl eq_refl eq_refl eq_refl eq_refl eq_refl eq_refl
             ltac:(discriminate) eq_refl).
Defined.


(** ** A [to] given as one string *)

Lemma takeWhile_dropWhile p (s : jsstring) :
  s = takeWhile p s ++ dropWhile p s /\ forallb p (takeWhile p s) = true.
Proof.
  induction s as [|c s [IH1 IH2]]; simpl; [now split|].
  destruct (p c) eqn:E; simpl; [|now split].
  rewrite E, IH2. split; [now rewrite <- IH1|reflexivity].
Qed.

Lemma trimEnd_tail (s : jsstring) :
  exists b, s = trimEnd s ++ b /\ forallb isWhiteSpace b = true.
Proof.
  induction s as [|c s (b & IH1 & IH2)]; [now exists []|].
  simpl. destruct (trimEnd s) as [|y t].
  - simpl in IH1. subst b. destruct (isWhiteSpace c) eqn:E.
    + exists (c :: s). simpl. now rewrite E, IH2.
    + now exists s.
  - exists b. split; [|exact IH2]. simpl. f_equal. exact IH1.
Qed.

(** [trim] takes the white space off both ends, and nothing else. *)
Lemma trim_trimmedOf (p : jsstring) : trimmedOf p (trim p).
Proof.
  destruct (takeWhile_dropWhile isWhiteSpace p) as [H1 H2].
  destruct (trimEnd_tail (dropWhile isWhiteSpace p)) as (b & H3 & H4).
  exists (takeWhile isWhiteSpace p), b.
  split; [|split; [exact H2|split; [exact H4|split]]].
  - unfold trim, trimStart. now rewrite <- H3.
  - apply trim_head.
  - apply trim_last.
Qed.

Lemma trimmedOf_map (l : list jsstring) : Forall2 trimmedOf l (map trim l).
Proof.
  induction l; simpl; constructor; auto. apply trim_trimmedOf.
Qed.

Section StringRecipients.

Context {W : Type} (rt : Runtime W).

(** One turn of the text mode: the call of that recipient is its only
    call. *)
Lemma text_iteration m t r (st : St W) :
  textMode m -> sanitizeMessage (message m) = t -> t <> [] ->
  exists e evs st',
    (forall results,
        iteration rt m results r st = (inr (results ++ [e]), st')) /\
    trace st' = trace st ++ evs /\
    filter isSend evs = [textCall m t r].
Proof.
  intros Hm Ht Hne.
  assert (E : deliver rt m (phoneNumberOf r) st =
              clientSend rt (phoneNumberOf r) (TextContent t)
                {| o_caption := None; o_options := options m |} st).
  { rewrite (deliver_textMode rt m _ st Hm). unfold textBranch.
    rewrite Ht. destruct t; [contradiction|reflexivity]. }
  rewrite clientSend_eq in E.
  destruct (fst (sendMessage rt (phoneNumberOf r) (TextContent t)
                   {| o_caption := None; o_options := options m |}
                   (world st))) as [x|id] eqn:Es.
  - eexists _, [textCall m t r], _.
    split; [intros results; rewrite iteration_eq, E; reflexivity|].
    split; reflexivity.
  - eexists _, [textCall m t r; EvDelay 1000], _.
    split; [intros results; rewrite iteration_eq, E; reflexivity|].
    split; [|reflexivity]. simpl. now rewrite <- app_assoc.
Qed.

Lemma chunks_calls m t rs chunks :
  Forall2 (fun r evs => filter isSend evs = [textCall m t r]) rs chunks ->
  filter isSend (List.concat chunks) = map (textCall m t) rs.
Proof.
  induction 1 as [|r evs rs chunks H _ IH]; [reflexivity|].
  simpl. now rewrite filter_app, H, IH.
Qed.

(** C9.  A [to] given as one string is cut at its commas, and each piece
    loses the white space at its two ends: a string with [k] commas
    gives [k + 1] recipients.  Each of them has its own turn, its own
    attempt and its own entry: the entry of a piece is what the delivery
    to its resolved address gave, from the state the pieces before it
    left, and the pieces after it are processed whatever happened.  For
    a text job, the transport is called once for every piece, in
    order. *)
Theorem string_to_is_split_on_commas m s (st : St W) :
  to m = ToStr s ->
  (join 44 (split 44 s) = s /\
   Forall (fun p => ~ In 44 p) (split 44 s) /\
   List.length (split 44 s) = S (count_unit 44 s)) /\
  Forall2 trimmedOf (split 44 s) (map trim (split 44 s)) /\
  exists es evs st',
    sendWhatsAppMessage rt m st = (inr es, st') /\
    List.length es = S (count_unit 44 s) /\
    trace st' = trace st ++ evs /\
    PerTurn calledInTurn (map trim (split 44 s)) es evs /\
    (forall pre r post, map trim (split 44 s) = pre ++ r :: post ->
       exists es1 st1 e st2 es2,
         forOf rt m pre [] st = (inr es1, st1) /\
         iteration rt m [] r st1 = (inr [e], st2) /\
         forOf rt m post [] st2 = (inr es2, st') /\
         es = es1 ++ e :: es2 /\
         List.length es1 = List.length pre /\
         e = match fst (deliver rt m (phoneNumberOf r) st1) with
             | inl x => failed r (errorMessage x)
             | inr id => sent (phoneNumberOf r) id
             end) /\
    (forall t, textMode m -> sanitizeMessage (message m) = t -> t <> [] ->
       filter isSend evs = map (textCall m t) (map trim (split 44 s))).
Proof.
  intros Hto.
  assert (Hr : recipientsOf (to m) = inr (map trim (split 44 s)))
    by now rewrite Hto.
  split; [split; [apply join_split|split;
                  [apply split_no_sep|apply split_length]]|].
  split; [apply trimmedOf_map|].
  destruct (dispatch_turns rt m _ st Hr) as (es & evs & st' & H1 & H2 & H3).
  assert (Hfor : forOf rt m (map trim (split 44 s)) [] st = (inr es, st'))
    by now rewrite <- (sendWhatsAppMessage_eq rt m _ st Hr).
  exists es, evs, st'.
  split; [exact H1|]. split.
  { now rewrite (Turns_length _ _ _ _ H3), length_map, split_length. }
  split; [exact H2|]. split.
  { apply (Turns_PerTurn (options m)); [|exact H3].
    intros r e ev. apply Turn_called. }
  split.
  - intros pre r post E. rewrite E in Hfor.
    destruct (forOf_split rt _ _ _ _ _ _ _ Hfor)
      as (es1 & st1 & e & st2 & es2 & G1 & G2 & G3 & G4 & G5).
    exists es1, st1, e, st2, es2.
    split; [exact G1|]. split; [exact G2|]. split; [exact G3|].
    split; [exact G4|]. split; [exact G5|].
    rewrite iteration_eq in G2.
    destruct (deliver rt m (phoneNumberOf r) st1) as [[x|id] st3];
      simpl in G2; injection G2 as <- _; reflexivity.
  - intros t Hm Ht Hne.
    destruct (forOf_chunks rt m
                (fun r evs => filter isSend evs = [textCall m t r])
                (fun r st1 => text_iteration m t r st1 Hm Ht Hne)
                (map trim (split 44 s)) st)
      as (es' & chunks & st'' & K1 & K2 & K3).
    rewrite (K1 []) in Hfor. injection Hfor as _ <-.
    rewrite H2 in K2. apply app_inv_head in K2. rewrite K2.
    now apply chunks_calls.
Qed.

End StringRecipients.

Lemma string_to_is_split_on_commas_witness :
  exists es evs st',
    sendWhatsAppMessage (demo true) commaListed st0 = (inr es, st') /\
    List.length es = 2%nat /\
    trace st' = trace st0 ++ evs /\
    PerTurn calledInTurn [js "bad@c.us"; js "15551230000"] es evs /\
    filter isSend evs =
    [EvSend (js "bad@c.us") (TextContent (js "hi"))
       {| o_caption := None; o_options := None |};
     EvSend (js "15551230000@c.us") (TextContent (js "hi"))
       {| o_caption := None; o_options := None |}].
Proof.
  destruct (proj2 (proj2 (string_to_is_split_on_commas (demo true)
                            commaListed (js " bad@c.us , 15551230000") st0
                            eq_refl)))
    as (es & evs & st' & H1 & H2 & H3 & H4 & _ & H6).
  exists es, evs, st'.
  split; [exact H1|]. split; [exact H2|]. split; [exact H3|].
  split; [exact H4|].
  apply (H6 (js "hi")); [split; reflexivity|reflexivity|discriminate].
Defined.
